(** * merry-christmas-tree: the particle choreography and mode engine

    A shallow embedding of [src/main.js]: the gesture callback
    [onHandsResults], the per-frame [animate] tick, the start-up loops
    that fill the position tables, and the media callbacks that write
    the shared [STATE] record.

    Conventions of the embedding.
    - A JavaScript number is modelled as a real number ([R]); arithmetic
      is exact, so rounding of doubles and of the [Float32Array] behind a
      buffer attribute is not represented.
    - A flat coordinate array ([treePositions], the [position] attribute,
      ...) is a [list R] holding three entries per particle; writes go
      through stdpp's list insert, which like a typed array ignores an
      index past the end.
    - The browser objects are reduced to what the code reads and writes:
      the video element to its [paused], [muted] and [volume] attributes
      and the sequence of [play()] / [pause()] calls it received; the
      platform's answer to a [play()] call is an input of the step that
      makes the call.
    - Console output, the loading indicator and the renderer calls are
      left out: they neither read nor write anything modelled here. *)

From Stdlib Require Import Reals Lra Lia List.
From stdpp Require Import base list.
Import ListNotations.

Open Scope R_scope.

(** ** Numbers *)

(** [a < b] on JavaScript numbers, as a boolean. *)
Definition lt_num (a b : R) : bool := if Rlt_dec a b then true else false.

(** [a > b] is [b < a]. *)
Definition gt_num (a b : R) : bool := lt_num b a.

(** [Math.trunc]: rounding toward zero. *)
Definition trunc (a : R) : R :=
  if Rle_dec 0 a then IZR (Int_part a) else - IZR (Int_part (- a)).

(** The remainder operator [a % b]: the sign follows the dividend. *)
Definition rem (a b : R) : R := a - b * trunc (a / b).

(** [Math.cbrt]. *)
Definition cbrt (a : R) : R :=
  if Rlt_dec 0 a then exp (ln a / 3)
  else if Rlt_dec a 0 then - exp (ln (- a) / 3)
  else 0.

(** [THREE.MathUtils.lerp(x, y, t)], as three.js defines it. *)
Definition lerp (x y t : R) : R := (1 - t) * x + t * y.

(** [THREE.Vector3] with [distanceToSquared] and [distanceTo]. *)
Module Vector3.
Record t := mk { x : R; y : R; z : R }.

Definition distanceToSquared (a b : t) : R :=
  let dx := x a - x b in
  let dy := y a - y b in
  let dz := z a - z b in
  dx * dx + dy * dy + dz * dz.

Definition distanceTo (a b : t) : R := sqrt (distanceToSquared a b).
End Vector3.

(** ** Configuration and state *)

Record Config := {
  particleCount : nat;
  particleSize : R;
  treeHeight : R;
  treeRadius : R;
  scatterRadius : R;
  lerpSpeed : R;
  bloomStrength : R;
  videoDimFactor : R;
  videoDimLerp : R;
  videoDisplayOpacity : R;
  videoParticleDimFactor : R;
  videoParticleLerp : R;
  spiralCount : nat;
  spiralTurns : R;
  spiralSpeed : R
}.

(** The constants of the source. *)
Definition CONFIG : Config := {|
  particleCount := 8 * 1000;
  particleSize := 0.08;
  treeHeight := 6;
  treeRadius := 2.5;
  scatterRadius := 8;
  lerpSpeed := 0.05;
  bloomStrength := 1.5;
  videoDimFactor := 0.55;
  videoDimLerp := 0.06;
  videoDisplayOpacity := 0.92;
  videoParticleDimFactor := 0.35;
  videoParticleLerp := 0.08;
  spiralCount := 600;
  spiralTurns := 5;
  spiralSpeed := 0.8
|}.

Definition STAR_PARTICLE_COUNT : nat := 256.

Inductive Mode := TREE | SCATTER.

Inductive Gesture := NONE | OPEN | CLOSED | PINCH.

Definition Mode_eqb (a b : Mode) : bool :=
  match a, b with
  | TREE, TREE | SCATTER, SCATTER => true
  | _, _ => false
  end.

(** The [STATE] object. *)
Record State := {
  mode : Mode;
  isPlayingVideo : bool;
  handDetected : bool;
  handX : R;
  gesture : Gesture;
  rotationTarget : R;
  videoOpacity : R
}.

Definition STATE0 : State := {|
  mode := TREE;
  isPlayingVideo := false;
  handDetected := false;
  handX := 0;
  gesture := NONE;
  rotationTarget := 0;
  videoOpacity := 0
|}.

Definition set_mode (m : Mode) (s : State) : State :=
  {| mode := m; isPlayingVideo := isPlayingVideo s;
     handDetected := handDetected s; handX := handX s;
     gesture := gesture s; rotationTarget := rotationTarget s;
     videoOpacity := videoOpacity s |}.

Definition set_isPlayingVideo (b : bool) (s : State) : State :=
  {| mode := mode s; isPlayingVideo := b;
     handDetected := handDetected s; handX := handX s;
     gesture := gesture s; rotationTarget := rotationTarget s;
     videoOpacity := videoOpacity s |}.

Definition set_handDetected (b : bool) (s : State) : State :=
  {| mode := mode s; isPlayingVideo := isPlayingVideo s;
     handDetected := b; handX := handX s;
     gesture := gesture s; rotationTarget := rotationTarget s;
     videoOpacity := videoOpacity s |}.

Definition set_handX (v : R) (s : State) : State :=
  {| mode := mode s; isPlayingVideo := isPlayingVideo s;
     handDetected := handDetected s; handX := v;
     gesture := gesture s; rotationTarget := rotationTarget s;
     videoOpacity := videoOpacity s |}.

Definition set_gesture (g : Gesture) (s : State) : State :=
  {| mode := mode s; isPlayingVideo := isPlayingVideo s;
     handDetected := handDetected s; handX := handX s;
     gesture := g; rotationTarget := rotationTarget s;
     videoOpacity := videoOpacity s |}.

Definition set_videoOpacity (v : R) (s : State) : State :=
  {| mode := mode s; isPlayingVideo := isPlayingVideo s;
     handDetected := handDetected s; handX := handX s;
     gesture := gesture s; rotationTarget := rotationTarget s;
     videoOpacity := v |}.

(** ** The video element *)

(** What the code reads and writes of [videoEl]. *)
Record VideoEl := {
  paused : bool;
  muted : bool;
  volume : R
}.

(** A method call on [videoEl], in the order the calls were made. *)
Inductive MediaCall := CallPlay | CallPause.

(** [videoEl.pause()]: the element is paused when the call returns. *)
Definition pause (v : VideoEl) : VideoEl :=
  {| paused := true; muted := muted v; volume := volume v |}.

(** [videoEl.play()]: when the platform permits playback the element
    leaves the paused state at once; when it does not, the returned
    promise is rejected and the element stays as it was. *)
Definition play (permitted : bool) (v : VideoEl) : VideoEl :=
  {| paused := if permitted then false else paused v;
     muted := muted v; volume := volume v |}.

Definition set_muted (b : bool) (v : VideoEl) : VideoEl :=
  {| paused := paused v; muted := b; volume := volume v |}.

(** ** The world the callbacks share *)

(** Stall tracking of the video ([_videoBuffering] and its clocks). *)
Record Stall := {
  _videoBuffering : bool;
  _lastVideoTime : R;
  _lastVideoTimeUpdate : R
}.

(** Scalars of the scene that the tick blends. *)
Record Visuals := {
  audioVolume : R;        (* audioEl.volume *)
  materialOpacity : R;    (* material.opacity *)
  bloomPassStrength : R;  (* bloomPass.strength *)
  planeOpacity : R;       (* videoPlane.material.opacity *)
  planeScale : R;         (* videoPlane.scale.x *)
  planeBrightness : R;    (* videoPlane.material.color.r *)
  planeZ : R;             (* videoPlane.position.z *)
  rotationY : R;          (* particleSystem.rotation.y *)
  starSize : R            (* starMaterial.size *)
}.

(** The live [position] attributes of the three particle families. *)
Record Geometry := {
  positions : list R;        (* geometry.attributes.position *)
  spiralPositions : list R;  (* spiralGeo.attributes.position *)
  starPositions : list R     (* starGeo.attributes.position *)
}.

(** The tables computed once at start-up. *)
Record Tables := {
  treePositions : list R;
  scatterPositions : list R;
  spiralScatterCoords : list R;
  starBasePositions : list R;
  starScatterPositions : list R
}.

Record World := {
  STATE : State;
  _prevMode : Mode;
  userInteracted : bool;
  started : bool;
  videoEl : VideoEl;
  calls : list MediaCall;   (* calls made on videoEl, oldest first *)
  pendingThen : nat;        (* unsettled play() promises of [animate] *)
  stall : Stall;
  visuals : Visuals;
  geometry : Geometry;
  tables : Tables
}.

Definition with_STATE (s : State) (w : World) : World :=
  {| STATE := s; _prevMode := _prevMode w; userInteracted := userInteracted w;
     started := started w; videoEl := videoEl w; calls := calls w;
     pendingThen := pendingThen w; stall := stall w; visuals := visuals w;
     geometry := geometry w; tables := tables w |}.

Definition with_prevMode (m : Mode) (w : World) : World :=
  {| STATE := STATE w; _prevMode := m; userInteracted := userInteracted w;
     started := started w; videoEl := videoEl w; calls := calls w;
     pendingThen := pendingThen w; stall := stall w; visuals := visuals w;
     geometry := geometry w; tables := tables w |}.

Definition with_userInteracted (b : bool) (w : World) : World :=
  {| STATE := STATE w; _prevMode := _prevMode w; userInteracted := b;
     started := started w; videoEl := videoEl w; calls := calls w;
     pendingThen := pendingThen w; stall := stall w; visuals := visuals w;
     geometry := geometry w; tables := tables w |}.

Definition with_started (b : bool) (w : World) : World :=
  {| STATE := STATE w; _prevMode := _prevMode w;
     userInteracted := userInteracted w;
     started := b; videoEl := videoEl w; calls := calls w;
     pendingThen := pendingThen w; stall := stall w; visuals := visuals w;
     geometry := geometry w; tables := tables w |}.

(** Replace the video element and append the calls just made on it. *)
Definition with_video (v : VideoEl) (made : list MediaCall) (w : World) : World :=
  {| STATE := STATE w; _prevMode := _prevMode w;
     userInteracted := userInteracted w;
     started := started w; videoEl := v; calls := calls w ++ made;
     pendingThen := pendingThen w; stall := stall w; visuals := visuals w;
     geometry := geometry w; tables := tables w |}.

Definition with_pendingThen (n : nat) (w : World) : World :=
  {| STATE := STATE w; _prevMode := _prevMode w;
     userInteracted := userInteracted w;
     started := started w; videoEl := videoEl w; calls := calls w;
     pendingThen := n; stall := stall w; visuals := visuals w;
     geometry := geometry w; tables := tables w |}.

Definition with_stall (s : Stall) (w : World) : World :=
  {| STATE := STATE w; _prevMode := _prevMode w;
     userInteracted := userInteracted w;
     started := started w; videoEl := videoEl w; calls := calls w;
     pendingThen := pendingThen w; stall := s; visuals := visuals w;
     geometry := geometry w; tables := tables w |}.

Definition with_visuals (v : Visuals) (w : World) : World :=
  {| STATE := STATE w; _prevMode := _prevMode w;
     userInteracted := userInteracted w;
     started := started w; videoEl := videoEl w; calls := calls w;
     pendingThen := pendingThen w; stall := stall w; visuals := v;
     geometry := geometry w; tables := tables w |}.

Definition with_geometry (g : Geometry) (w : World) : World :=
  {| STATE := STATE w; _prevMode := _prevMode w;
     userInteracted := userInteracted w;
     started := started w; videoEl := videoEl w; calls := calls w;
     pendingThen := pendingThen w; stall := stall w; visuals := visuals w;
     geometry := g; tables := tables w |}.

(** ** The gesture callback *)

(** One hand landmark of MediaPipe: normalized image coordinates. *)
Module Landmark.
Record t := mk { x : R; y : R; z : R }.
End Landmark.

(** The argument of [onHandsResults]; [multiHandLandmarks] may be
    missing, and holds one landmark array per detected hand. *)
Record Results := {
  multiHandLandmarks : option (list (list Landmark.t))
}.

(** How a callback ends: it returns, or a property read on [undefined]
    throws and leaves the writes made so far in place. *)
Inductive Completion :=
| Returned (w : World)
| Threw (w : World).

Definition world_of (c : Completion) : World :=
  match c with Returned w | Threw w => w end.

(** [new THREE.Vector3(landmarks[idx].x, landmarks[idx].y, 0)]. *)
Definition flat (p : Landmark.t) : Vector3.t :=
  Vector3.mk (Landmark.x p) (Landmark.y p) 0.

Definition tips : list nat := [8; 12; 16; 20]%nat.

(** The [tips.forEach] loop followed by [avgDist /= 4]; [None] when a
    fingertip landmark is missing. *)
Definition avgDistOf (landmarks : list Landmark.t) : option R :=
  match landmarks !! 0%nat with
  | None => None
  | Some wrist =>
      let wristPos := flat wrist in
      match
        foldl (fun acc idx =>
                 match acc, landmarks !! idx with
                 | Some a, Some tip =>
                     Some (a + Vector3.distanceTo wristPos (flat tip))
                 | _, _ => None
                 end) (Some 0) tips
      with
      | Some total => Some (total / 4)
      | None => None
      end
  end.

(** Distance between the thumb tip (4) and the index tip (8). *)
Definition pinchDistOf (landmarks : list Landmark.t) : option R :=
  match landmarks !! 4%nat, landmarks !! 8%nat with
  | Some thumb, Some index =>
      Some (Vector3.distanceTo (flat thumb) (flat index))
  | _, _ => None
  end.

(** Step 2 of the callback: open against closed hand. *)
Definition classifyOpenClosed (avgDist : R) (s : State) : State :=
  let isClosed := lt_num avgDist 0.25 in
  let isOpen := gt_num avgDist 0.35 in
  if isClosed then set_mode TREE (set_gesture CLOSED s)
  else if isOpen then set_mode SCATTER (set_gesture OPEN s)
  else s.

(** Does the pinch branch call [videoEl.play()] in state [s]? *)
Definition pinchStarts (s : State) : bool :=
  match mode s with
  | SCATTER => gt_num (videoOpacity s) 0.8 && negb (isPlayingVideo s)
  | TREE => false
  end.

(** Step 3 of the callback: the pinch. *)
Definition detectPinch (permitted : bool) (pinchDist : R) (w : World) : World :=
  if lt_num pinchDist 0.05 then
    let w1 := with_STATE (set_gesture PINCH (STATE w)) w in
    match mode (STATE w1) with
    | SCATTER =>
        if gt_num (videoOpacity (STATE w1)) 0.8 then
          if negb (isPlayingVideo (STATE w1)) then
            let w2 := with_STATE (set_isPlayingVideo true (STATE w1)) w1 in
            with_video (play permitted (videoEl w2)) [CallPlay] w2
          else w1
        else w1
    | TREE => w1
    end
  else w.

Definition onHandsResults (permitted : bool) (results : Results) (w : World)
  : Completion :=
  let w0 := with_STATE (set_handDetected false (STATE w)) w in
  match multiHandLandmarks results with
  | Some (landmarks :: _) =>
      let w1 := with_STATE (set_handDetected true (STATE w0)) w0 in
      match landmarks !! 0%nat with
      | None => Threw w1
      | Some wrist =>
          let w2 :=
            with_STATE (set_handX ((Landmark.x wrist - 0.5) * 2) (STATE w1)) w1 in
          match avgDistOf landmarks with
          | None => Threw w2
          | Some avgDist =>
              let w3 := with_STATE (classifyOpenClosed avgDist (STATE w2)) w2 in
              match pinchDistOf landmarks with
              | None => Threw w3
              | Some pinchDist => Returned (detectPinch permitted pinchDist w3)
              end
          end
      end
  | _ => Returned w0
  end.

(** ** Buffer attributes and plain arrays *)

(** [a[k]] on a coordinate array.  Past the end JavaScript reads
    [undefined]; the tables and attributes all hold three entries per
    particle (see [wf_world]), so the loops below never read there and
    the value chosen for that case is immaterial. *)
Definition at_index (a : list R) (k : nat) : R := default 0 (a !! k).

(** [BufferAttribute.getX / getY / getZ] with [itemSize = 3]. *)
Definition getX (a : list R) (i : nat) : R := at_index a (i * 3).
Definition getY (a : list R) (i : nat) : R := at_index a (i * 3 + 1).
Definition getZ (a : list R) (i : nat) : R := at_index a (i * 3 + 2).

(** [BufferAttribute.setXYZ(index, x, y, z)]. *)
Definition setXYZ (i : nat) (x y z : R) (a : list R) : list R :=
  <[(i * 3 + 2)%nat := z]> (<[(i * 3 + 1)%nat := y]> (<[(i * 3)%nat := x]> a)).

(** [for (let i = 0; i < n; i++) body(i)] over one array. *)
Definition for_each_index (n : nat) (body : nat -> list R -> list R)
  (a : list R) : list R :=
  foldl (fun acc i => body i acc) a (seq 0 n).

(** ** The animation tick *)

(** What one tick reads from its surroundings. *)
Record Frame := {
  time : R;             (* clock.getElapsedTime() *)
  now : R;              (* performance.now() *)
  currentTime : R;      (* videoEl.currentTime || 0 *)
  playPermitted : bool  (* would the platform let play() start now *)
}.

Definition ORIGINAL_PARTICLE_OPACITY : R := 0.8.
Definition ORIGINAL_BLOOM_STRENGTH (cfg : Config) : R := bloomStrength cfg.
Definition ORIGINAL_STAR_SIZE (cfg : Config) : R := particleSize cfg * 1.8.

(** Step 1: in TREE mode stop the video if it is marked as playing. *)
Definition stopVideoInTree (w : World) : World :=
  match mode (STATE w) with
  | TREE =>
      if isPlayingVideo (STATE w) then
        let w1 := with_STATE (set_isPlayingVideo false (STATE w)) w in
        with_video (pause (videoEl w1)) [CallPause] w1
      else w
  | SCATTER => w
  end.

(** [fadeAudio(targetVolume)], as the new value of [audioEl.volume]
    (the page has its [bg-music] element). *)
Definition fadeAudio (targetVolume current : R) : R :=
  let diff := targetVolume - current in
  if gt_num (Rabs diff) 0.01 then current + diff * 0.05 else targetVolume.

(** Steps 2 and 3: audio fading, dimming, the video plane. *)
Definition blendScene (cfg : Config) (w : World) : World :=
  let s := STATE w in
  let v := visuals w in
  let playing := isPlayingVideo s in
  let targetVol := if playing then 0 else 0.5 in
  let targetParticleOpacity :=
    if playing then ORIGINAL_PARTICLE_OPACITY * videoParticleDimFactor cfg
    else ORIGINAL_PARTICLE_OPACITY in
  let targetBloom :=
    if playing then ORIGINAL_BLOOM_STRENGTH cfg * videoParticleDimFactor cfg
    else ORIGINAL_BLOOM_STRENGTH cfg in
  let targetOpacity :=
    match mode s with SCATTER => videoDisplayOpacity cfg | TREE => 0.0 end in
  let opacity := lerp (videoOpacity s) targetOpacity 0.05 in
  let targetScale := match mode s with SCATTER => 1.8 | TREE => 0 end in
  let targetBrightness := if playing then videoDimFactor cfg else 1.0 in
  with_visuals
    {| audioVolume := fadeAudio targetVol (audioVolume v);
       materialOpacity :=
         lerp (materialOpacity v) targetParticleOpacity (videoParticleLerp cfg);
       bloomPassStrength :=
         lerp (bloomPassStrength v) targetBloom (videoParticleLerp cfg);
       planeOpacity := opacity;
       planeScale := lerp (planeScale v) targetScale 0.08;
       planeBrightness :=
         lerp (planeBrightness v) targetBrightness (videoDimLerp cfg);
       planeZ := planeZ v;
       rotationY := rotationY v;
       starSize := starSize v |}
    (with_STATE (set_videoOpacity opacity s) w).

(** Entering SCATTER: [videoEl.muted = !userInteracted], then
    [videoEl.play()] with a then- and a catch-callback on its promise.
    The reassignment of [videoEl.src] from the source tag is not
    represented. *)
Definition enterScatter (permitted : bool) (w : World) : World :=
  let v := set_muted (negb (userInteracted w)) (videoEl w) in
  with_pendingThen (S (pendingThen w)) (with_video (play permitted v) [CallPlay] w).

(** Leaving SCATTER: pause the video unless it is paused already. *)
Definition leaveScatter (w : World) : World :=
  if negb (paused (videoEl w)) then
    let w1 := with_video (pause (videoEl w)) [CallPause] w in
    with_STATE (set_isPlayingVideo false (STATE w1)) w1
  else w.

(** The block guarded by [STATE.mode !== _prevMode]. *)
Definition modeEdge (permitted : bool) (w : World) : World :=
  if Mode_eqb (mode (STATE w)) (_prevMode w) then w
  else
    let w1 :=
      match mode (STATE w) with
      | SCATTER => enterScatter permitted w
      | TREE => w
      end in
    let w2 :=
      match mode (STATE w1) with
      | SCATTER => w1
      | TREE => leaveScatter w1
      end in
    with_prevMode (mode (STATE w2)) w2.

(** The depth of the video plane. *)
Definition movePlane (w : World) : World :=
  let v := visuals w in
  let targetZ := match mode (STATE w) with SCATTER => 0.5 | TREE => -5 end in
  with_visuals
    {| audioVolume := audioVolume v; materialOpacity := materialOpacity v;
       bloomPassStrength := bloomPassStrength v; planeOpacity := planeOpacity v;
       planeScale := planeScale v; planeBrightness := planeBrightness v;
       planeZ := lerp (planeZ v) targetZ 0.06;
       rotationY := rotationY v; starSize := starSize v |} w.

(** The stutter detection that runs while the video is not paused. *)
Definition detectStall (f : Frame) (w : World) : World :=
  if negb (paused (videoEl w)) then
    let st := stall w in
    let ct := currentTime f in
    if gt_num (Rabs (ct - _lastVideoTime st)) 0.03 then
      with_stall
        {| _videoBuffering :=
             if _videoBuffering st then false else _videoBuffering st;
           _lastVideoTime := ct;
           _lastVideoTimeUpdate := now f |} w
    else if gt_num (now f - _lastVideoTimeUpdate st) 750 then
      with_stall
        {| _videoBuffering := true;
           _lastVideoTime := _lastVideoTime st;
           _lastVideoTimeUpdate := _lastVideoTimeUpdate st |} w
    else w
  else w.

(** Step 4: rotation of the main cloud. *)
Definition updateRotation (w : World) : World :=
  let v := visuals w in
  let ry := rotationY v in
  let ry' :=
    if handDetected (STATE w)
    then lerp ry (ry + handX (STATE w) * 0.05) 0.1
    else ry + 0.002 in
  with_visuals
    {| audioVolume := audioVolume v; materialOpacity := materialOpacity v;
       bloomPassStrength := bloomPassStrength v; planeOpacity := planeOpacity v;
       planeScale := planeScale v; planeBrightness := planeBrightness v;
       planeZ := planeZ v; rotationY := ry'; starSize := starSize v |} w.

(** The coordinates that iteration [i] of the spiral loop writes. *)
Definition spiralPoint (cfg : Config) (m : Mode) (time : R)
  (coords : list R) (i : nat) : R * R * R :=
  let treeHeightSpan := treeHeight cfg in
  let treeTop := treeHeight cfg / 2 in
  let pct := INR i / INR (spiralCount cfg) in
  let baseTy := pct * treeHeight cfg - treeHeight cfg / 2 in
  match m with
  | TREE =>
      let flowOffset := rem (time * spiralSpeed cfg) treeHeightSpan in
      let ty := baseTy + flowOffset in
      let ty := if gt_num ty treeTop then ty - treeHeightSpan else ty in
      let normH := (ty + treeHeight cfg / 2) / treeHeight cfg in
      let angle := normH * PI * 2 * spiralTurns cfg + time * spiralSpeed cfg in
      let r := (1 - normH) * treeRadius cfg * 1.15 + 0.2 in
      let x := cos angle * r in
      let z := sin angle * r in
      (x, ty, z)
  | SCATTER =>
      let sx := at_index coords (i * 3) in
      let sy := at_index coords (i * 3 + 1) in
      let sz := at_index coords (i * 3 + 2) in
      (sx, sy, sz)
  end.

(** One iteration of the spiral loop. *)
Definition updateSpiralParticle (cfg : Config) (m : Mode) (time : R)
  (coords : list R) (i : nat) (attr : list R) : list R :=
  let '(x, y, z) := spiralPoint cfg m time coords i in
  setXYZ i x y z attr.

(** One iteration of the star loop. *)
Definition updateStarParticle (cfg : Config) (m : Mode) (T : Tables)
  (i : nat) (attr : list R) : list R :=
  let starLerp := lerpSpeed cfg * 2.0 in
  let cx := getX attr i in
  let cy := getY attr i in
  let cz := getZ attr i in
  let tx := at_index (starBasePositions T) (i * 3) in
  let ty := at_index (starBasePositions T) (i * 3 + 1) in
  let tz := at_index (starBasePositions T) (i * 3 + 2) in
  let '(tx, ty, tz) :=
    match m with
    | SCATTER =>
        (at_index (starScatterPositions T) (i * 3),
         at_index (starScatterPositions T) (i * 3 + 1),
         at_index (starScatterPositions T) (i * 3 + 2))
    | TREE => (tx, ty, tz)
    end in
  setXYZ i (lerp cx tx starLerp) (lerp cy ty starLerp) (lerp cz tz starLerp) attr.

(** The target of main-cloud particle [i]. *)
Definition particleTarget (m : Mode) (time : R) (T : Tables) (i : nat)
  : R * R * R :=
  match m with
  | TREE =>
      (at_index (treePositions T) (i * 3),
       at_index (treePositions T) (i * 3 + 1),
       at_index (treePositions T) (i * 3 + 2))
  | SCATTER =>
      let tx := at_index (scatterPositions T) (i * 3) in
      let ty := at_index (scatterPositions T) (i * 3 + 1) in
      let tz := at_index (scatterPositions T) (i * 3 + 2) in
      (tx, ty + sin (time + tx) * 0.005, tz)
  end.

(** One iteration of the main-cloud loop. *)
Definition updateParticle (cfg : Config) (m : Mode) (time : R) (T : Tables)
  (i : nat) (attr : list R) : list R :=
  let px := getX attr i in
  let py := getY attr i in
  let pz := getZ attr i in
  let '(tx, ty, tz) := particleTarget m time T i in
  setXYZ i (lerp px tx (lerpSpeed cfg)) (lerp py ty (lerpSpeed cfg))
    (lerp pz tz (lerpSpeed cfg)) attr.

(** The spiral band, the star and step 5, the main cloud. *)
Definition updateGeometry (cfg : Config) (f : Frame) (w : World) : World :=
  let m := mode (STATE w) in
  let g := geometry w in
  let T := tables w in
  let v := visuals w in
  let twinkle := 0.8 + sin (time f * 3) * 0.2 in
  with_geometry
    {| positions :=
         for_each_index (particleCount cfg)
           (updateParticle cfg m (time f) T) (positions g);
       spiralPositions :=
         for_each_index (spiralCount cfg)
           (updateSpiralParticle cfg m (time f) (spiralScatterCoords T))
           (spiralPositions g);
       starPositions :=
         for_each_index STAR_PARTICLE_COUNT
           (updateStarParticle cfg m T) (starPositions g) |}
    (with_visuals
       {| audioVolume := audioVolume v; materialOpacity := materialOpacity v;
          bloomPassStrength := bloomPassStrength v;
          planeOpacity := planeOpacity v; planeScale := planeScale v;
          planeBrightness := planeBrightness v; planeZ := planeZ v;
          rotationY := rotationY v;
          starSize := ORIGINAL_STAR_SIZE cfg * twinkle |} w).

(** [animate()]: one tick. *)
Definition animate (cfg : Config) (f : Frame) (w : World) : World :=
  let w := stopVideoInTree w in
  let w := blendScene cfg w in
  let w := modeEdge (playPermitted f) w in
  let w := movePlane w in
  let w := detectStall f w in
  let w := updateRotation w in
  updateGeometry cfg f w.

(** ** The other callbacks that write the shared state *)

(** The part of [handleOverlayClick] before its first [await]. *)
Definition overlayClick (w : World) : World :=
  if started w then w
  else with_userInteracted true (with_started true w).

(** The part of [handleOverlayClick] that runs once the hand model and
    the camera are up: unmute the video, play it, set the music volume. *)
Definition overlayResume (permitted : bool) (w : World) : World :=
  let v := videoEl w in
  let v := {| paused := paused v; muted := false; volume := 1.0 |} in
  let w := with_video (play permitted v) [CallPlay] w in
  let s := visuals w in
  with_visuals
    {| audioVolume := 0.5; materialOpacity := materialOpacity s;
       bloomPassStrength := bloomPassStrength s; planeOpacity := planeOpacity s;
       planeScale := planeScale s; planeBrightness := planeBrightness s;
       planeZ := planeZ s; rotationY := rotationY s; starSize := starSize s |} w.

(** The then-callback of the promise of [animate]'s [play()]. *)
Definition playFulfilled (w : World) : World :=
  match pendingThen w with
  | O => w
  | S n => with_pendingThen n (with_STATE (set_isPlayingVideo true (STATE w)) w)
  end.

(** Its catch-callback: a diagnostic only. *)
Definition playRejected (w : World) : World :=
  with_pendingThen (Nat.pred (pendingThen w)) w.

(** The listener of the video's [playing] event. *)
Definition onPlaying (w : World) : World :=
  let st := stall w in
  with_stall
    {| _videoBuffering := false; _lastVideoTime := _lastVideoTime st;
       _lastVideoTimeUpdate := _lastVideoTimeUpdate st |}
    (with_STATE (set_isPlayingVideo true (STATE w)) w).

(** The listener of the video's [pause] event. *)
Definition onPause (w : World) : World :=
  with_STATE (set_isPlayingVideo false (STATE w)) w.

(** The listeners of [waiting] and [stalled]: [showVideoLoading]. *)
Definition onWaiting (w : World) : World :=
  let st := stall w in
  with_stall
    {| _videoBuffering := true; _lastVideoTime := _lastVideoTime st;
       _lastVideoTimeUpdate := _lastVideoTimeUpdate st |} w.

(** The listener of [timeupdate], with the element's [currentTime] and
    the value of [performance.now()]. *)
Definition onTimeUpdate (ct t : R) (w : World) : World :=
  let st := stall w in
  with_stall
    {| _videoBuffering := _videoBuffering st; _lastVideoTime := ct;
       _lastVideoTimeUpdate := t |} w.

Inductive Event :=
| HandsResults (permitted : bool) (results : Results)
| AnimationFrame (f : Frame)
| OverlayClick
| OverlayResume (permitted : bool)
| PlayFulfilled
| PlayRejected
| VideoPlaying
| VideoPause
| VideoWaiting
| VideoTimeUpdate (ct t : R).

(** One turn of the event loop. *)
Definition step (cfg : Config) (e : Event) (w : World) : World :=
  match e with
  | HandsResults permitted results =>
      world_of (onHandsResults permitted results w)
  | AnimationFrame f => animate cfg f w
  | OverlayClick => overlayClick w
  | OverlayResume permitted => overlayResume permitted w
  | PlayFulfilled => playFulfilled w
  | PlayRejected => playRejected w
  | VideoPlaying => onPlaying w
  | VideoPause => onPause w
  | VideoWaiting => onWaiting w
  | VideoTimeUpdate ct t => onTimeUpdate ct t w
  end.

(** A run: the events in the order they are handled. *)
Definition run (cfg : Config) (es : list Event) (w : World) : World :=
  foldl (fun acc e => step cfg e acc) w es.

(** ** Start-up: the loops that fill the tables *)

Section Startup.
Variable cfg : Config.

(** [random k] is what the [k]-th call of [Math.random()] returns,
    counting from the first call of the module. *)
Variable random : nat -> R.

(** The tree shape of one main-cloud particle, from its two draws. *)
Definition treePoint (u_h u_angle : R) : R * R * R :=
  let h := u_h * treeHeight cfg - treeHeight cfg / 2 in
  let normH := (h + treeHeight cfg / 2) / treeHeight cfg in
  let r := (1 - normH) * treeRadius cfg in
  let angle := u_angle * PI * 2 in
  let spiral := h * 2 in
  (cos (angle + spiral) * r, h, sin (angle + spiral) * r).

(** The scatter shape of one main-cloud particle, from its three draws. *)
Definition scatterPoint (u_r u_theta u_phi : R) : R * R * R :=
  let sr := scatterRadius cfg * cbrt u_r in
  let theta := u_theta * 2 * PI in
  let phi := acos (2 * u_phi - 1) in
  (sr * sin phi * cos theta, sr * sin phi * sin theta, sr * cos phi).

(** The arrays the first loop pushes to, and the number of draws made. *)
Record Cloud := {
  cloud_tree : list R;
  cloud_scatter : list R;
  cloud_positions : list R;
  cloud_star : list bool;   (* the gold colour was pushed for this particle *)
  cloud_draws : nat
}.

(** One iteration of the first loop: six draws, in source order. *)
Definition initParticle (c : Cloud) : Cloud :=
  let k := cloud_draws c in
  let '(tx, ty, tz) := treePoint (random k) (random (k + 1)) in
  let '(sx, sy, sz) :=
    scatterPoint (random (k + 2)) (random (k + 3)) (random (k + 4)) in
  {| cloud_tree := cloud_tree c ++ [tx; ty; tz];
     cloud_scatter := cloud_scatter c ++ [sx; sy; sz];
     cloud_positions := cloud_positions c ++ [tx; ty; tz];
     cloud_star := cloud_star c ++ [gt_num (random (k + 5)) 0.9];
     cloud_draws := (k + 6)%nat |}.

Definition initParticles (n : nat) : Cloud :=
  foldl (fun c (_ : nat) => initParticle c)
    {| cloud_tree := []; cloud_scatter := []; cloud_positions := [];
       cloud_star := []; cloud_draws := 0 |}
    (seq 0 n).

(** The spiral loop: start positions and scatter coordinates. *)
Record Spiral := {
  spiral_positions : list R;
  spiral_scatter : list R;
  spiral_draws : nat
}.

Definition initSpiralParticle (i : nat) (s : Spiral) : Spiral :=
  let k := spiral_draws s in
  let pct := INR i / INR (spiralCount cfg) in
  let h := pct * treeHeight cfg - treeHeight cfg / 2 in
  let r := (1 - pct) * treeRadius cfg * 1.15 + 0.2 in
  let angle := pct * PI * 2 * spiralTurns cfg in
  let sr := scatterRadius cfg * cbrt (random k) in
  let theta := random (k + 1) * PI * 2 in
  let phi := acos (2 * random (k + 2) - 1) in
  {| spiral_positions := spiral_positions s ++ [cos angle * r; h; sin angle * r];
     spiral_scatter :=
       spiral_scatter s
         ++ [sr * sin phi * cos theta; sr * sin phi * sin theta; sr * cos phi];
     spiral_draws := (k + 3)%nat |}.

Definition initSpiral (first_draw n : nat) : Spiral :=
  foldl (fun s i => initSpiralParticle i s)
    {| spiral_positions := []; spiral_scatter := [];
       spiral_draws := first_draw |}
    (seq 0 n).

(** The star tables are not the subject of any statement below; they
    are taken as they come out of their two loops. *)
Variable starBase starScatter : list R.

(** The state of the page when [animate] is first called. *)
Definition initialWorld (video0 : VideoEl) (volume0 t0 : R) : World :=
  let c := initParticles (particleCount cfg) in
  let s := initSpiral (cloud_draws c) (spiralCount cfg) in
  {| STATE := STATE0;
     _prevMode := mode STATE0;
     userInteracted := false;
     started := false;
     videoEl := video0;
     calls := [];
     pendingThen := 0;
     stall := {| _videoBuffering := false; _lastVideoTime := 0;
                 _lastVideoTimeUpdate := t0 |};
     visuals := {| audioVolume := volume0;
                   materialOpacity := ORIGINAL_PARTICLE_OPACITY;
                   bloomPassStrength := ORIGINAL_BLOOM_STRENGTH cfg;
                   planeOpacity := 0; planeScale := 1; planeBrightness := 1;
                   planeZ := -5; rotationY := 0;
                   starSize := ORIGINAL_STAR_SIZE cfg |};
     geometry := {| positions := cloud_positions c;
                    spiralPositions := spiral_positions s;
                    starPositions := starBase |};
     tables := {| treePositions := cloud_tree c;
                  scatterPositions := cloud_scatter c;
                  spiralScatterCoords := spiral_scatter s;
                  starBasePositions := starBase;
                  starScatterPositions := starScatter |} |}.
End Startup.

(** Every table and attribute holds three coordinates per particle. *)
Definition wf_world (cfg : Config) (w : World) : Prop :=
  length (positions (geometry w)) = (particleCount cfg * 3)%nat /\
  length (treePositions (tables w)) = (particleCount cfg * 3)%nat /\
  length (scatterPositions (tables w)) = (particleCount cfg * 3)%nat /\
  length (spiralPositions (geometry w)) = (spiralCount cfg * 3)%nat /\
  length (spiralScatterCoords (tables w)) = (spiralCount cfg * 3)%nat.


(** ** Runs of callbacks, and sample inputs *)

(** The number of [play()] calls in a call sequence. *)
Fixpoint playCalls (l : list MediaCall) : nat :=
  match l with
  | [] => 0
  | CallPlay :: l' => S (playCalls l')
  | CallPause :: l' => playCalls l'
  end.

(** Consecutive classifier callbacks, with nothing else in between. *)
Definition callbacks (frames : list (bool * Results)) : list Event :=
  map (fun pr => HandsResults (fst pr) (snd pr)) frames.

(** A hand whose 21 landmarks lie on the line [y = 0.5]: the wrist (0),
    the thumb tip (4) and the four fingertips (8, 12, 16, 20) at the given
    abscissas, the other joints at the wrist. *)
Definition handOnLine (wrist thumb index middle ring pinky : R)
  : list Landmark.t :=
  map (fun a => Landmark.mk a 0.5 0)
    [wrist; wrist; wrist; wrist; thumb; wrist; wrist; wrist; index;
     wrist; wrist; wrist; middle; wrist; wrist; wrist; ring;
     wrist; wrist; wrist; pinky].

Definition oneHand (landmarks : list Landmark.t) : Results :=
  {| multiHandLandmarks := Some [landmarks] |}.

(** A fist: fingertips 0.24 from the wrist. *)
Definition closedHand : list Landmark.t :=
  handOnLine 0.5 0.5 0.74 0.74 0.74 0.74.

(** A spread hand: fingertips 0.36 from the wrist. *)
Definition openHand : list Landmark.t :=
  handOnLine 0.5 0.5 0.86 0.86 0.86 0.86.

(** A half-open hand: fingertips 0.30 from the wrist. *)
Definition relaxedHand : list Landmark.t :=
  handOnLine 0.5 0.5 0.8 0.8 0.8 0.8.

(** Thumb and index 0.02 apart, the hand otherwise spread. *)
Definition openPinchHand : list Landmark.t :=
  handOnLine 0.5 0.9 0.92 0.9 0.9 0.9.

(** Thumb and index 0.02 apart, the hand otherwise half open. *)
Definition pinchHand : list Landmark.t :=
  handOnLine 0.5 0.78 0.8 0.8 0.8 0.8.

Definition video0 : VideoEl := {| paused := true; muted := true; volume := 1 |}.

(** A random source: one half at every call but the third, which
    returns zero (the first particle scatters to the origin). *)
Definition sampleRandom (k : nat) : R :=
  match k with
  | 2%nat => 0
  | _ => 0.5
  end.

(** The page after its module ran, with that random source and star
    tables of the right size. *)
Definition pageLoaded : World :=
  initialWorld CONFIG sampleRandom
    (replicate (STAR_PARTICLE_COUNT * 3) 0)
    (replicate (STAR_PARTICLE_COUNT * 3) 0)
    video0 1 0.

(** The page in SCATTER mode with the video plane faded in to 0.85. *)
Definition scatterShown : World :=
  with_prevMode SCATTER
    (with_STATE (set_videoOpacity 0.85 (set_mode SCATTER STATE0)) pageLoaded).

(** A frame one second into the session, on a platform that lets the
    video start. *)
Definition frame0 : Frame :=
  {| time := 1; now := 1000; currentTime := 0; playPermitted := true |}.

(** The blending rule of the spec, for one coordinate: [v'] is
    [v + (t - v) * f], its distance to the target [t] is the old distance
    scaled by [1 - f], and so is no larger. *)
Definition blendsToward (v v' t f : R) : Prop :=
  v' = v + (t - v) * f /\
  Rabs (v' - t) = Rabs (v - t) * (1 - f) /\
  Rabs (v' - t) <= Rabs (v - t).

(** A frame a quarter turn into the session. *)
Definition frameQuarter : Frame :=
  {| time := PI / 2; now := 1571; currentTime := 0; playPermitted := true |}.

(** ** The star loops, and runs of frames *)

(** Consecutive animation frames, with nothing else in between. *)
Definition ticks (frames : list Frame) : list Event :=
  map AnimationFrame frames.


Section StarStartup.
Variable cfg : Config.
Variable random : nat -> R.









End StarStartup.

(** The star attribute and its two tables hold three coordinates per
    star particle. *)
Definition wf_star (w : World) : Prop :=
  length (starPositions (geometry w)) = (STAR_PARTICLE_COUNT * 3)%nat /\
  length (starBasePositions (tables w)) = (STAR_PARTICLE_COUNT * 3)%nat /\
  length (starScatterPositions (tables w)) = (STAR_PARTICLE_COUNT * 3)%nat.

(** The scalars of the scene are within the bounds between which the
    tick blends them. *)
Definition visuals_in_range (cfg : Config) (w : World) : Prop :=
  let v := visuals w in
  0 <= audioVolume v <= 1 /\
  ORIGINAL_PARTICLE_OPACITY * videoParticleDimFactor cfg
    <= materialOpacity v <= ORIGINAL_PARTICLE_OPACITY /\
  ORIGINAL_BLOOM_STRENGTH cfg * videoParticleDimFactor cfg
    <= bloomPassStrength v <= ORIGINAL_BLOOM_STRENGTH cfg /\
  0 <= videoOpacity (STATE w) <= videoDisplayOpacity cfg /\
  planeOpacity v = videoOpacity (STATE w) /\
  0 <= planeScale v <= 1.8 /\
  videoDimFactor cfg <= planeBrightness v <= 1 /\
  -5 <= planeZ v <= 0.5.

(** The blending factors and dim factors are fractions. *)
Definition config_in_range (cfg : Config) : Prop :=
  0 <= lerpSpeed cfg /\ lerpSpeed cfg * 2 <= 1 /\
  0 <= ORIGINAL_BLOOM_STRENGTH cfg /\
  0 <= videoParticleDimFactor cfg <= 1 /\
  0 <= videoParticleLerp cfg <= 1 /\
  0 <= videoDimFactor cfg <= 1 /\
  0 <= videoDimLerp cfg <= 1 /\
  0 <= videoDisplayOpacity cfg <= 1.

(** The number of animation frames among the events of a run. *)
Fixpoint frameCount (es : list Event) : nat :=
  match es with
  | [] => 0
  | AnimationFrame _ :: es' => S (frameCount es')
  | _ :: es' => frameCount es'
  end.

(** The target of the music volume: silent while the video is marked as
    playing in SCATTER mode, the nominal level otherwise. *)
Definition musicTarget (s : State) : R :=
  match mode s with
  | TREE => 0.5
  | SCATTER => if isPlayingVideo s then 0 else 0.5
  end.

(** The opacity the video plane blends toward in a mode. *)
Definition opacityTarget (cfg : Config) (m : Mode) : R :=
  match m with SCATTER => videoDisplayOpacity cfg | TREE => 0 end.

(** A run without gesture callbacks. *)
Fixpoint gestureFree (es : list Event) : bool :=
  match es with
  | [] => true
  | HandsResults _ _ :: _ => false
  | _ :: es' => gestureFree es'
  end.

(** Every main-cloud particle sits exactly on its tree entry. *)
Definition onTree (cfg : Config) (w : World) : Prop :=
  forall i : nat, (i < particleCount cfg)%nat ->
    getX (positions (geometry w)) i = at_index (treePositions (tables w)) (i * 3) /\
    getY (positions (geometry w)) i
    = at_index (treePositions (tables w)) (i * 3 + 1) /\
    getZ (positions (geometry w)) i
    = at_index (treePositions (tables w)) (i * 3 + 2).

(** The table the star blends toward in a mode. *)
Definition starTable (m : Mode) (T : Tables) : list R :=
  match m with
  | SCATTER => starScatterPositions T
  | TREE => starBasePositions T
  end.

(** Every coordinate of every main-cloud particle is within [b] of zero. *)
Definition cloudWithin (cfg : Config) (b : R) (a : list R) : Prop :=
  forall i : nat, (i < particleCount cfg)%nat ->
    - b <= getX a i <= b /\ - b <= getY a i <= b /\ - b <= getZ a i <= b.

(** Has the overlay been clicked in this run? *)
Fixpoint clicked (es : list Event) : bool :=
  match es with
  | [] => false
  | OverlayClick :: _ => true
  | _ :: es' => clicked es'
  end.

(** The turn of the main cloud per frame: steered by the hand when one is
    detected, the idle rotation otherwise. *)
Definition turnPerFrame (s : State) : R :=
  if handDetected s then handX s * 0.005 else 0.002.

(** ** The stutter watchdog *)

(** The video runs in SCATTER mode, the mode edge already handled. *)
Definition videoRunning (w : World) : Prop :=
  mode (STATE w) = SCATTER /\ _prevMode w = SCATTER /\
  paused (videoEl w) = false.

(** The frame reads a playback position within 0.03 s of [last]. *)
Definition noProgress (last : R) (f : Frame) : Prop :=
  Rabs (currentTime f - last) <= 0.03.

(** The frame comes more than 750 ms after [since]. *)
Definition overdue (since : R) (f : Frame) : bool :=
  gt_num (now f - since) 750.
(** * Properties *)

(** ** Comparisons and blending *)

Lemma lt_num_true (a b : R) : lt_num a b = true <-> a < b.
Proof. unfold lt_num. destruct (Rlt_dec a b); split; intros; try done. Qed.

Lemma lt_num_false (a b : R) : lt_num a b = false <-> b <= a.
Proof.
  unfold lt_num. destruct (Rlt_dec a b); split; intros; try done; lra.
Qed.

Lemma gt_num_true (a b : R) : gt_num a b = true <-> a > b.
Proof. unfold gt_num. rewrite lt_num_true. lra. Qed.

Lemma gt_num_false (a b : R) : gt_num a b = false <-> a <= b.
Proof. unfold gt_num. rewrite lt_num_false. lra. Qed.

(** The blending rule in the form [v + (t - v) * f]. *)
Lemma lerp_step (v t f : R) : lerp v t f = v + (t - v) * f.
Proof. unfold lerp. ring. Qed.

(** One blend scales the signed distance to the target by [1 - f]. *)
Lemma lerp_error (v t f : R) : lerp v t f - t = (1 - f) * (v - t).
Proof. unfold lerp. ring. Qed.

Lemma lerp_distance (v t f : R) :
  f <= 1 -> Rabs (lerp v t f - t) = Rabs (v - t) * (1 - f).
Proof.
  intros Hf. rewrite lerp_error, Rabs_mult, (Rabs_pos_eq (1 - f)); lra.
Qed.

(** ** The gesture callback *)

Lemma classify_closed (a : R) (s : State) :
  a < 0.25 -> classifyOpenClosed a s = set_mode TREE (set_gesture CLOSED s).
Proof.
  intros H. unfold classifyOpenClosed.
  apply lt_num_true in H. now rewrite H.
Qed.

Lemma classify_open (a : R) (s : State) :
  a > 0.35 -> classifyOpenClosed a s = set_mode SCATTER (set_gesture OPEN s).
Proof.
  intros H. unfold classifyOpenClosed.
  assert (Hc : lt_num a 0.25 = false) by (apply lt_num_false; lra).
  apply gt_num_true in H. now rewrite Hc, H.
Qed.

Lemma classify_dead_zone (a : R) (s : State) :
  0.25 <= a <= 0.35 -> classifyOpenClosed a s = s.
Proof.
  intros [H1 H2]. unfold classifyOpenClosed.
  assert (Hc : lt_num a 0.25 = false) by (apply lt_num_false; lra).
  assert (Ho : gt_num a 0.35 = false) by (apply gt_num_false; lra).
  now rewrite Hc, Ho.
Qed.

(** The pinch step never writes the mode. *)
Lemma detectPinch_mode (permitted : bool) (p : R) (w : World) :
  mode (STATE (detectPinch permitted p w)) = mode (STATE w).
Proof.
  unfold detectPinch.
  destruct (lt_num p 0.05); [|done]. cbn.
  destruct (mode (STATE w)) eqn:Hm; [done|].
  destruct (gt_num _ _); [|done].
  now destruct (isPlayingVideo (STATE w)).
Qed.

(** Without a pinch the third step does nothing. *)
Lemma detectPinch_released (permitted : bool) (p : R) (w : World) :
  0.05 <= p -> detectPinch permitted p w = w.
Proof.
  intros H. unfold detectPinch.
  apply lt_num_false in H. now rewrite H.
Qed.

Lemma detectPinch_gesture (permitted : bool) (p : R) (w : World) :
  p < 0.05 -> gesture (STATE (detectPinch permitted p w)) = PINCH.
Proof.
  intros H. unfold detectPinch. apply lt_num_true in H. rewrite H. cbn.
  destruct (mode (STATE w)) eqn:Hm; [done|].
  destruct (gt_num _ _); [|done].
  now destruct (isPlayingVideo (STATE w)).
Qed.

(** The calls and the flag after a pinch, by the guard of the branch. *)
Lemma detectPinch_starts (permitted : bool) (p : R) (w : World) :
  p < 0.05 ->
  let w' := detectPinch permitted p w in
  if pinchStarts (STATE w)
  then calls w' = calls w ++ [CallPlay] /\ isPlayingVideo (STATE w') = true
  else calls w' = calls w /\
       isPlayingVideo (STATE w') = isPlayingVideo (STATE w) /\
       videoEl w' = videoEl w.
Proof.
  intros H. unfold detectPinch, pinchStarts.
  apply lt_num_true in H. rewrite H. cbn.
  destruct (mode (STATE w)) eqn:Hm; [done|].
  destruct (gt_num _ _); [|done].
  now destruct (isPlayingVideo (STATE w)) eqn:Hp.
Qed.

(** The callback on a hand whose landmarks are all there. *)
Lemma onHandsResults_hand (permitted : bool) (results : Results)
  (landmarks : list Landmark.t) (rest : list (list Landmark.t))
  (avgDist pinchDist : R) (w : World) :
  multiHandLandmarks results = Some (landmarks :: rest) ->
  avgDistOf landmarks = Some avgDist ->
  pinchDistOf landmarks = Some pinchDist ->
  exists wrist,
    landmarks !! 0%nat = Some wrist /\
    onHandsResults permitted results w =
      Returned
        (detectPinch permitted pinchDist
           (with_STATE
              (classifyOpenClosed avgDist
                 (set_handX ((Landmark.x wrist - 0.5) * 2)
                    (set_handDetected true
                       (set_handDetected false (STATE w))))) w)).
Proof.
  intros Hr Ha Hp. unfold onHandsResults. rewrite Hr.
  destruct (landmarks !! 0%nat) as [wrist|] eqn:Hw.
  - exists wrist. split; [done|]. cbn. now rewrite Ha, Hp.
  - unfold avgDistOf in Ha. now rewrite Hw in Ha.
Qed.

Lemma classify_isPlayingVideo (a : R) (s : State) :
  isPlayingVideo (classifyOpenClosed a s) = isPlayingVideo s.
Proof.
  unfold classifyOpenClosed.
  destruct (lt_num a 0.25); [done|]. now destruct (gt_num a 0.35).
Qed.

Lemma classify_videoOpacity (a : R) (s : State) :
  videoOpacity (classifyOpenClosed a s) = videoOpacity s.
Proof.
  unfold classifyOpenClosed.
  destruct (lt_num a 0.25); [done|]. now destruct (gt_num a 0.35).
Qed.

(** A callback makes at most one call on the video, a [play()], and only
    when it finds the flag down and raises it; it never lowers the flag. *)
Lemma onHandsResults_calls (permitted : bool) (results : Results) (w : World) :
  let w' := world_of (onHandsResults permitted results w) in
  (calls w' = calls w /\
   isPlayingVideo (STATE w') = isPlayingVideo (STATE w)) \/
  (calls w' = calls w ++ [CallPlay] /\
   isPlayingVideo (STATE w) = false /\ isPlayingVideo (STATE w') = true).
Proof.
  unfold onHandsResults.
  destruct (multiHandLandmarks results) as [[|landmarks rest]|];
    [now left| |now left].
  destruct (landmarks !! 0%nat) as [wrist|]; [|now left].
  destruct (avgDistOf landmarks) as [a|]; [|now left].
  destruct (pinchDistOf landmarks) as [p|]; cbn [world_of].
  2:{ left. split; [done|]. cbn. now rewrite classify_isPlayingVideo. }
  unfold detectPinch. cbn.
  destruct (lt_num p 0.05).
  2:{ left. split; [done|]. cbn. now rewrite classify_isPlayingVideo. }
  destruct (mode (classifyOpenClosed a _)).
  { left. split; [done|]. cbn. now rewrite classify_isPlayingVideo. }
  destruct (gt_num _ 0.8).
  2:{ left. split; [done|]. cbn. now rewrite classify_isPlayingVideo. }
  rewrite classify_isPlayingVideo. cbn.
  destruct (isPlayingVideo (STATE w)) eqn:Hp; cbn.
  - left. split; [done|]. now rewrite classify_isPlayingVideo.
  - right. done.
Qed.

Lemma playCalls_app (l1 l2 : list MediaCall) :
  playCalls (l1 ++ l2) = (playCalls l1 + playCalls l2)%nat.
Proof.
  induction l1 as [|[] l1 IH]; cbn; [done| |done]. now rewrite IH.
Qed.

Lemma run_cons (cfg : Config) (e : Event) (es : list Event) (w : World) :
  run cfg (e :: es) w = run cfg es (step cfg e w).
Proof. reflexivity. Qed.

Lemma run_app (cfg : Config) (es1 es2 : list Event) (w : World) :
  run cfg (es1 ++ es2) w = run cfg es2 (run cfg es1 w).
Proof. unfold run. apply foldl_app. Qed.

(** Over any run of callbacks: no further [play()] once the flag is up,
    and at most one otherwise. *)
Lemma callbacks_start_once (cfg : Config) (frames : list (bool * Results)) :
  forall w : World,
    let w' := run cfg (callbacks frames) w in
    (isPlayingVideo (STATE w) = true ->
     calls w' = calls w /\ isPlayingVideo (STATE w') = true) /\
    (playCalls (calls w') <= playCalls (calls w) + 1)%nat.
Proof.
  induction frames as [|[permitted results] frames IH]; intros w.
  - cbn. split; [done|lia].
  - cbn zeta. change (callbacks ((permitted, results) :: frames))
      with (HandsResults permitted results :: callbacks frames).
    rewrite run_cons. cbn [step].
    destruct (IH (world_of (onHandsResults permitted results w))) as [IH1 IH2].
    destruct (onHandsResults_calls permitted results w)
      as [[Hc Hf]|(Hc & Hf & Hf')].
    + split.
      * intros Hp. rewrite <- Hc. apply IH1. now rewrite Hf.
      * now rewrite <- Hc.
    + split; [intros Hp; congruence|].
      destruct (IH1 Hf') as [Hc' _]. rewrite Hc', Hc, playCalls_app. cbn. lia.
Qed.

(** ** The sample hands *)

Lemma distanceTo_on_line (a b c : R) :
  Vector3.distanceTo (flat (Landmark.mk a c 0)) (flat (Landmark.mk b c 0))
  = Rabs (a - b).
Proof.
  unfold Vector3.distanceTo, Vector3.distanceToSquared, flat. cbn.
  replace ((a - b) * (a - b) + (c - c) * (c - c) + (0 - 0) * (0 - 0))
    with (Rsqr (a - b)) by (unfold Rsqr; ring).
  apply sqrt_Rsqr_abs.
Qed.

Lemma avgDistOf_handOnLine (w t i m r p : R) :
  avgDistOf (handOnLine w t i m r p)
  = Some ((0 + Rabs (w - i) + Rabs (w - m) + Rabs (w - r) + Rabs (w - p)) / 4).
Proof.
  unfold avgDistOf, handOnLine, tips. cbn.
  now rewrite !distanceTo_on_line.
Qed.

Lemma pinchDistOf_handOnLine (w t i m r p : R) :
  pinchDistOf (handOnLine w t i m r p) = Some (Rabs (t - i)).
Proof.
  unfold pinchDistOf, handOnLine. cbn. now rewrite distanceTo_on_line.
Qed.

Lemma Rabs_of_neg (a b : R) : a <= 0 -> b = - a -> Rabs a = b.
Proof. intros Ha ->. destruct (Req_dec a 0) as [->|]; [rewrite Rabs_R0; lra|]. apply Rabs_left; lra. Qed.

Lemma avgDistOf_closedHand : avgDistOf closedHand = Some 0.24.
Proof.
  unfold closedHand. rewrite avgDistOf_handOnLine. f_equal.
  rewrite (Rabs_of_neg (0.5 - 0.74) 0.24) by lra. lra.
Qed.

Lemma pinchDistOf_closedHand : pinchDistOf closedHand = Some 0.24.
Proof.
  unfold closedHand. rewrite pinchDistOf_handOnLine. f_equal.
  apply Rabs_of_neg; lra.
Qed.

Lemma avgDistOf_openHand : avgDistOf openHand = Some 0.36.
Proof.
  unfold openHand. rewrite avgDistOf_handOnLine. f_equal.
  rewrite (Rabs_of_neg (0.5 - 0.86) 0.36) by lra. lra.
Qed.

Lemma pinchDistOf_openHand : pinchDistOf openHand = Some 0.36.
Proof.
  unfold openHand. rewrite pinchDistOf_handOnLine. f_equal.
  apply Rabs_of_neg; lra.
Qed.

Lemma avgDistOf_relaxedHand : avgDistOf relaxedHand = Some 0.3.
Proof.
  unfold relaxedHand. rewrite avgDistOf_handOnLine. f_equal.
  rewrite (Rabs_of_neg (0.5 - 0.8) 0.3) by lra. lra.
Qed.

Lemma pinchDistOf_relaxedHand : pinchDistOf relaxedHand = Some 0.3.
Proof.
  unfold relaxedHand. rewrite pinchDistOf_handOnLine. f_equal.
  apply Rabs_of_neg; lra.
Qed.

Lemma avgDistOf_openPinchHand : avgDistOf openPinchHand = Some 0.405.
Proof.
  unfold openPinchHand. rewrite avgDistOf_handOnLine. f_equal.
  rewrite (Rabs_of_neg (0.5 - 0.92) 0.42), (Rabs_of_neg (0.5 - 0.9) 0.4) by lra.
  lra.
Qed.

Lemma pinchDistOf_openPinchHand : pinchDistOf openPinchHand = Some 0.02.
Proof.
  unfold openPinchHand. rewrite pinchDistOf_handOnLine. f_equal.
  apply Rabs_of_neg; lra.
Qed.

Lemma avgDistOf_pinchHand : avgDistOf pinchHand = Some 0.3.
Proof.
  unfold pinchHand. rewrite avgDistOf_handOnLine. f_equal.
  rewrite (Rabs_of_neg (0.5 - 0.8) 0.3) by lra. lra.
Qed.

Lemma pinchDistOf_pinchHand : pinchDistOf pinchHand = Some 0.02.
Proof.
  unfold pinchHand. rewrite pinchDistOf_handOnLine. f_equal.
  apply Rabs_of_neg; lra.
Qed.

(** ** Claims about the gesture callback *)

(** C9. A callback that carries no hand landmarks ([multiHandLandmarks]
    missing or empty) returns normally and its only write to the session
    state is [handDetected := false]: mode, gesture, handX and every other
    field of the world are as before. *)
Theorem C9_no_hand_is_sticky (permitted : bool) (results : Results) (w : World) :
  multiHandLandmarks results = None \/ multiHandLandmarks results = Some [] ->
  onHandsResults permitted results w
    = Returned (with_STATE (set_handDetected false (STATE w)) w) /\
  let w' := world_of (onHandsResults permitted results w) in
  handDetected (STATE w') = false /\
  mode (STATE w') = mode (STATE w) /\
  gesture (STATE w') = gesture (STATE w) /\
  handX (STATE w') = handX (STATE w) /\
  isPlayingVideo (STATE w') = isPlayingVideo (STATE w) /\
  videoOpacity (STATE w') = videoOpacity (STATE w) /\
  rotationTarget (STATE w') = rotationTarget (STATE w) /\
  videoEl w' = videoEl w /\ calls w' = calls w /\ _prevMode w' = _prevMode w.
Proof.
  intros [H|H]; unfold onHandsResults; rewrite H; cbn; repeat split.
Qed.

Lemma C9_no_hand_is_sticky_witness :
  mode (STATE (world_of
                 (onHandsResults true {| multiHandLandmarks := None |}
                    scatterShown))) = SCATTER.
Proof.
  destruct (C9_no_hand_is_sticky true {| multiHandLandmarks := None |}
              scatterShown (or_introl eq_refl)) as (_ & _ & Hm & _).
  rewrite Hm. reflexivity.
Defined.

(** C2. With a hand present, the callback runs the open/closed step on
    the averaged wrist-to-fingertip distance and then the pinch step.
    The open/closed step is decided by the distance: below 0.25 it writes
    gesture CLOSED and mode TREE, above 0.35 gesture OPEN and mode
    SCATTER, and from 0.25 to 0.35 it writes nothing.  The mode it leaves
    is the mode at the end of the callback, and so is the gesture unless
    the pinch step that follows overwrites it. *)
Theorem C2_open_closed_thresholds (permitted : bool) (results : Results)
  (landmarks : list Landmark.t) (rest : list (list Landmark.t))
  (avgDist pinchDist : R) (w : World) :
  multiHandLandmarks results = Some (landmarks :: rest) ->
  avgDistOf landmarks = Some avgDist ->
  pinchDistOf landmarks = Some pinchDist ->
  let w' := world_of (onHandsResults permitted results w) in
  (exists s : State,
     mode s = mode (STATE w) /\ gesture s = gesture (STATE w) /\
     w' = detectPinch permitted pinchDist
            (with_STATE (classifyOpenClosed avgDist s) w)) /\
  (forall s : State,
     (avgDist < 0.25 ->
      classifyOpenClosed avgDist s = set_mode TREE (set_gesture CLOSED s)) /\
     (avgDist > 0.35 ->
      classifyOpenClosed avgDist s = set_mode SCATTER (set_gesture OPEN s)) /\
     (0.25 <= avgDist <= 0.35 -> classifyOpenClosed avgDist s = s)) /\
  (avgDist < 0.25 ->
   mode (STATE w') = TREE /\
   (0.05 <= pinchDist -> gesture (STATE w') = CLOSED)) /\
  (avgDist > 0.35 ->
   mode (STATE w') = SCATTER /\
   (0.05 <= pinchDist -> gesture (STATE w') = OPEN)) /\
  (0.25 <= avgDist <= 0.35 ->
   mode (STATE w') = mode (STATE w) /\
   (0.05 <= pinchDist -> gesture (STATE w') = gesture (STATE w))).
Proof.
  intros Hr Ha Hp w'.
  destruct (onHandsResults_hand permitted results landmarks rest avgDist
              pinchDist w Hr Ha Hp) as (wrist & _ & Heq).
  subst w'. rewrite Heq. cbn [world_of].
  split.
  { exists (set_handX ((Landmark.x wrist - 0.5) * 2)
              (set_handDetected true (set_handDetected false (STATE w)))).
    repeat split. }
  split; [|split; [|split]].
  - intros s. split; [|split].
    + apply classify_closed.
    + apply classify_open.
    + apply classify_dead_zone.
  - intros H. rewrite detectPinch_mode. split.
    + cbn. now rewrite classify_closed.
    + intros Hrel. rewrite detectPinch_released by done.
      cbn. now rewrite classify_closed.
  - intros H. rewrite detectPinch_mode. split.
    + cbn. now rewrite classify_open.
    + intros Hrel. rewrite detectPinch_released by done.
      cbn. now rewrite classify_open.
  - intros H. rewrite detectPinch_mode. split.
    + cbn. now rewrite classify_dead_zone.
    + intros Hrel. rewrite detectPinch_released by done.
      cbn. now rewrite classify_dead_zone.
Qed.

Lemma C2_open_closed_thresholds_witness :
  mode (STATE (world_of (onHandsResults true (oneHand closedHand) scatterShown)))
    = TREE /\
  mode (STATE (world_of (onHandsResults true (oneHand openHand) pageLoaded)))
    = SCATTER /\
  mode (STATE (world_of (onHandsResults true (oneHand relaxedHand) scatterShown)))
    = SCATTER.
Proof.
  split; [|split].
  - destruct (C2_open_closed_thresholds true (oneHand closedHand) closedHand []
                0.24 0.24 scatterShown eq_refl avgDistOf_closedHand
                pinchDistOf_closedHand) as (_ & _ & H & _).
    apply H. lra.
  - destruct (C2_open_closed_thresholds true (oneHand openHand) openHand []
                0.36 0.36 pageLoaded eq_refl avgDistOf_openHand
                pinchDistOf_openHand) as (_ & _ & _ & H & _).
    apply H. lra.
  - destruct (C2_open_closed_thresholds true (oneHand relaxedHand) relaxedHand []
                0.3 0.3 scatterShown eq_refl avgDistOf_relaxedHand
                pinchDistOf_relaxedHand) as (_ & _ & _ & _ & H).
    destruct H as [H _]; [lra|]. rewrite H. reflexivity.
Defined.

(** C10. Within one callback the pinch step runs after the open/closed
    step and on its result: when thumb tip and index tip are closer than
    0.05 the gesture at the end of the callback is PINCH whatever the
    averaged distance was, and the mode is the one the open/closed step
    left (TREE below 0.25, SCATTER above 0.35, untouched in between). *)
Theorem C10_pinch_overrides_gesture (permitted : bool) (results : Results)
  (landmarks : list Landmark.t) (rest : list (list Landmark.t))
  (avgDist pinchDist : R) (w : World) :
  multiHandLandmarks results = Some (landmarks :: rest) ->
  avgDistOf landmarks = Some avgDist ->
  pinchDistOf landmarks = Some pinchDist ->
  pinchDist < 0.05 ->
  let w' := world_of (onHandsResults permitted results w) in
  (exists s : State,
     w' = detectPinch permitted pinchDist
            (with_STATE (classifyOpenClosed avgDist s) w)) /\
  gesture (STATE w') = PINCH /\
  (avgDist < 0.25 -> mode (STATE w') = TREE) /\
  (avgDist > 0.35 -> mode (STATE w') = SCATTER) /\
  (0.25 <= avgDist <= 0.35 -> mode (STATE w') = mode (STATE w)).
Proof.
  intros Hr Ha Hp Hpinch w'.
  destruct (onHandsResults_hand permitted results landmarks rest avgDist
              pinchDist w Hr Ha Hp) as (wrist & _ & Heq).
  subst w'. rewrite Heq. cbn [world_of].
  split; [eexists; reflexivity|].
  split; [now apply detectPinch_gesture|].
  rewrite detectPinch_mode. cbn.
  split; [|split]; intros H.
  - now rewrite classify_closed.
  - now rewrite classify_open.
  - now rewrite classify_dead_zone.
Qed.

Lemma C10_pinch_overrides_gesture_witness :
  gesture (STATE (world_of
                    (onHandsResults true (oneHand openPinchHand) pageLoaded)))
    = PINCH /\
  mode (STATE (world_of
                 (onHandsResults true (oneHand openPinchHand) pageLoaded)))
    = SCATTER.
Proof.
  destruct (C10_pinch_overrides_gesture true (oneHand openPinchHand)
              openPinchHand [] 0.405 0.02 pageLoaded eq_refl
              avgDistOf_openPinchHand pinchDistOf_openPinchHand)
    as (_ & Hg & _ & Hm & _); [lra|].
  split; [exact Hg|apply Hm; lra].
Defined.

Lemma pinchStarts_true (s : State) :
  pinchStarts s = true <->
  mode s = SCATTER /\ videoOpacity s > 0.8 /\ isPlayingVideo s = false.
Proof.
  unfold pinchStarts. destruct (mode s).
  - split; [done|]. now intros [? _].
  - rewrite andb_true_iff, gt_num_true, negb_true_iff. tauto.
Qed.

Lemma app_one_neq {A : Type} (l : list A) (a : A) : l ++ [a] <> l.
Proof.
  intros H. apply (f_equal length) in H. rewrite length_app in H. cbn in H. lia.
Qed.

(** C3. A callback whose thumb-tip/index-tip distance is below 0.05 ends
    with gesture PINCH.  It calls [videoEl.play()] and raises
    [isPlayingVideo] exactly when the mode the pinch step reads (the mode
    at the end of the callback) is SCATTER, [videoOpacity] exceeds 0.8 and
    [isPlayingVideo] was false; otherwise it makes no call and leaves the
    flag and the video element alone.  A callback that finds the mode TREE
    can start the video only by switching to SCATTER itself, with an
    averaged distance above 0.35.  Over any further callbacks the number
    of [play()] calls grows by at most one in all. *)
Theorem C3_pinch_to_play_gating (cfg : Config) (permitted : bool)
  (results : Results) (landmarks : list Landmark.t)
  (rest : list (list Landmark.t)) (avgDist pinchDist : R) (w : World) :
  multiHandLandmarks results = Some (landmarks :: rest) ->
  avgDistOf landmarks = Some avgDist ->
  pinchDistOf landmarks = Some pinchDist ->
  pinchDist < 0.05 ->
  let w' := world_of (onHandsResults permitted results w) in
  let starts :=
    mode (STATE w') = SCATTER /\ videoOpacity (STATE w) > 0.8 /\
    isPlayingVideo (STATE w) = false in
  gesture (STATE w') = PINCH /\
  (calls w' = calls w ++ [CallPlay] /\ isPlayingVideo (STATE w') = true
   <-> starts) /\
  (~ starts ->
   calls w' = calls w /\ videoEl w' = videoEl w /\
   isPlayingVideo (STATE w') = isPlayingVideo (STATE w)) /\
  (mode (STATE w') = TREE -> calls w' = calls w) /\
  (mode (STATE w) = TREE -> avgDist <= 0.35 -> calls w' = calls w) /\
  (videoOpacity (STATE w) <= 0.8 -> calls w' = calls w) /\
  (isPlayingVideo (STATE w) = true -> calls w' = calls w) /\
  (forall frames : list (bool * Results),
     (playCalls (calls (run cfg (callbacks frames) w'))
      <= playCalls (calls w) + 1)%nat).
Proof.
  intros Hr Ha Hp Hpinch w' starts.
  destruct (onHandsResults_hand permitted results landmarks rest avgDist
              pinchDist w Hr Ha Hp) as (wrist & _ & Heq).
  set (w3 := with_STATE
               (classifyOpenClosed avgDist
                  (set_handX ((Landmark.x wrist - 0.5) * 2)
                     (set_handDetected true
                        (set_handDetected false (STATE w))))) w) in Heq.
  assert (Hw' : w' = detectPinch permitted pinchDist w3)
    by (subst w'; now rewrite Heq).
  assert (Hmode : mode (STATE w') = mode (STATE w3))
    by (rewrite Hw'; apply detectPinch_mode).
  assert (Hop : videoOpacity (STATE w3) = videoOpacity (STATE w))
    by (subst w3; cbn; now rewrite classify_videoOpacity).
  assert (Hfl : isPlayingVideo (STATE w3) = isPlayingVideo (STATE w))
    by (subst w3; cbn; now rewrite classify_isPlayingVideo).
  assert (Hst : pinchStarts (STATE w3) = true <-> starts).
  { rewrite pinchStarts_true. subst starts. now rewrite Hmode, Hop, Hfl. }
  pose proof (detectPinch_starts permitted pinchDist w3 Hpinch) as Hd.
  cbn zeta in Hd. rewrite <- Hw' in Hd.
  change (calls w3) with (calls w) in Hd.
  change (videoEl w3) with (videoEl w) in Hd.
  rewrite Hfl in Hd.
  assert (Hno : ~ starts ->
                calls w' = calls w /\ videoEl w' = videoEl w /\
                isPlayingVideo (STATE w') = isPlayingVideo (STATE w)).
  { intros Hn. destruct (pinchStarts (STATE w3)); [|tauto].
    exfalso. apply Hn. now apply Hst. }
  split; [rewrite Hw'; now apply detectPinch_gesture|].
  split; [|split; [exact Hno|]].
  - split.
    + intros [Hc _]. destruct (pinchStarts (STATE w3)); [now apply Hst|].
      destruct Hd as [Hd _]. rewrite Hd in Hc. symmetry in Hc.
      now apply app_one_neq in Hc.
    + intros Hs. apply Hst in Hs. now rewrite Hs in Hd.
  - split; [|split; [|split; [|split]]].
    + intros Ht. apply Hno. intros (Hs & _). congruence.
    + intros Ht Hle. apply Hno. intros (Hs & _).
      rewrite Hmode in Hs. subst w3. cbn in Hs.
      destruct (Rlt_dec avgDist 0.25) as [Hc|Hc].
      * rewrite classify_closed in Hs by done. discriminate Hs.
      * rewrite classify_dead_zone in Hs by lra. cbn in Hs. congruence.
    + intros Ho. apply Hno. intros (_ & Hs & _). lra.
    + intros Hf. apply Hno. intros (_ & _ & Hs). congruence.
    + intros frames.
      pose proof (callbacks_start_once cfg ((permitted, results) :: frames) w)
        as [_ Hle].
      change (callbacks ((permitted, results) :: frames))
        with (HandsResults permitted results :: callbacks frames) in Hle.
      rewrite run_cons in Hle. exact Hle.
Qed.

(** The mode at the end of a callback on a hand in the dead zone. *)
Lemma onHandsResults_mode_dead_zone (permitted : bool) (results : Results)
  (landmarks : list Landmark.t) (rest : list (list Landmark.t))
  (avgDist pinchDist : R) (w : World) :
  multiHandLandmarks results = Some (landmarks :: rest) ->
  avgDistOf landmarks = Some avgDist ->
  pinchDistOf landmarks = Some pinchDist ->
  0.25 <= avgDist <= 0.35 ->
  mode (STATE (world_of (onHandsResults permitted results w))) = mode (STATE w).
Proof.
  intros Hr Ha Hp Hz.
  destruct (onHandsResults_hand permitted results landmarks rest avgDist
              pinchDist w Hr Ha Hp) as (wrist & _ & Heq).
  rewrite Heq. cbn [world_of]. rewrite detectPinch_mode. cbn.
  now rewrite classify_dead_zone.
Qed.

Lemma C3_pinch_to_play_gating_witness :
  calls (world_of (onHandsResults true (oneHand pinchHand) scatterShown))
    = [CallPlay] /\
  calls (world_of (onHandsResults true (oneHand pinchHand) pageLoaded)) = [].
Proof.
  split.
  - destruct (C3_pinch_to_play_gating CONFIG true (oneHand pinchHand) pinchHand []
                0.3 0.02 scatterShown eq_refl avgDistOf_pinchHand
                pinchDistOf_pinchHand) as (_ & Hs & _); [lra|].
    apply Hs.
    pose proof (onHandsResults_mode_dead_zone true (oneHand pinchHand) pinchHand
                  [] 0.3 0.02 scatterShown eq_refl avgDistOf_pinchHand
                  pinchDistOf_pinchHand) as Hm.
    split; [rewrite Hm; [reflexivity|lra]|].
    split; [cbn; lra|reflexivity].
  - destruct (C3_pinch_to_play_gating CONFIG true (oneHand pinchHand) pinchHand []
                0.3 0.02 pageLoaded eq_refl avgDistOf_pinchHand
                pinchDistOf_pinchHand) as (_ & _ & _ & Ht & _); [lra|].
    apply Ht.
    pose proof (onHandsResults_mode_dead_zone true (oneHand pinchHand) pinchHand
                  [] 0.3 0.02 pageLoaded eq_refl avgDistOf_pinchHand
                  pinchDistOf_pinchHand) as Hm.
    rewrite Hm; [reflexivity|lra].
Defined.

(** ** The tick: what each phase leaves alone *)

(** The phases after the mode-edge block write only the scene. *)
Lemma movePlane_control (w : World) :
  STATE (movePlane w) = STATE w /\ _prevMode (movePlane w) = _prevMode w /\
  videoEl (movePlane w) = videoEl w /\ calls (movePlane w) = calls w /\
  pendingThen (movePlane w) = pendingThen w /\
  userInteracted (movePlane w) = userInteracted w /\
  tables (movePlane w) = tables w /\ geometry (movePlane w) = geometry w.
Proof. repeat split. Qed.

Lemma detectStall_control (f : Frame) (w : World) :
  STATE (detectStall f w) = STATE w /\
  _prevMode (detectStall f w) = _prevMode w /\
  videoEl (detectStall f w) = videoEl w /\
  calls (detectStall f w) = calls w /\
  pendingThen (detectStall f w) = pendingThen w /\
  userInteracted (detectStall f w) = userInteracted w /\
  tables (detectStall f w) = tables w /\
  geometry (detectStall f w) = geometry w.
Proof.
  unfold detectStall.
  destruct (negb (paused (videoEl w))); [|repeat split].
  destruct (gt_num _ 0.03); [repeat split|].
  destruct (gt_num _ 750); repeat split.
Qed.

Lemma updateRotation_control (w : World) :
  STATE (updateRotation w) = STATE w /\
  _prevMode (updateRotation w) = _prevMode w /\
  videoEl (updateRotation w) = videoEl w /\
  calls (updateRotation w) = calls w /\
  pendingThen (updateRotation w) = pendingThen w /\
  userInteracted (updateRotation w) = userInteracted w /\
  tables (updateRotation w) = tables w /\
  geometry (updateRotation w) = geometry w.
Proof. repeat split. Qed.

Lemma updateGeometry_control (cfg : Config) (f : Frame) (w : World) :
  STATE (updateGeometry cfg f w) = STATE w /\
  _prevMode (updateGeometry cfg f w) = _prevMode w /\
  videoEl (updateGeometry cfg f w) = videoEl w /\
  calls (updateGeometry cfg f w) = calls w /\
  pendingThen (updateGeometry cfg f w) = pendingThen w /\
  userInteracted (updateGeometry cfg f w) = userInteracted w /\
  tables (updateGeometry cfg f w) = tables w.
Proof. repeat split. Qed.

(** The control state after a tick is the one the first three phases
    leave; the geometry is computed from it. *)
Lemma animate_control (cfg : Config) (f : Frame) (w : World) :
  let c := modeEdge (playPermitted f) (blendScene cfg (stopVideoInTree w)) in
  let w' := animate cfg f w in
  STATE w' = STATE c /\ _prevMode w' = _prevMode c /\
  videoEl w' = videoEl c /\ calls w' = calls c /\
  pendingThen w' = pendingThen c /\ userInteracted w' = userInteracted c /\
  tables w' = tables c.
Proof.
  intros c w'. subst w'. unfold animate. fold c.
  destruct (updateGeometry_control cfg f
              (updateRotation (detectStall f (movePlane c))))
    as (-> & -> & -> & -> & -> & -> & ->).
  destruct (updateRotation_control (detectStall f (movePlane c)))
    as (-> & -> & -> & -> & -> & -> & -> & _).
  destruct (detectStall_control f (movePlane c))
    as (-> & -> & -> & -> & -> & -> & -> & _).
  repeat split.
Qed.

(** Case analysis on everything the control part of a tick branches on. *)
Ltac control_cases w :=
  destruct w as [[[] [] ? ? ? ? ?] [] [] ? [[] ? ?] ? ? ? ? ? ?].

(** No phase of a tick writes a table. *)
Lemma animate_tables (cfg : Config) (f : Frame) (w : World) :
  tables (animate cfg f w) = tables w.
Proof.
  destruct (animate_control cfg f w) as (_ & _ & _ & _ & _ & _ & ->).
  control_cases w; reflexivity.
Qed.

Lemma animate_mode (cfg : Config) (f : Frame) (w : World) :
  mode (STATE (animate cfg f w)) = mode (STATE w).
Proof.
  destruct (animate_control cfg f w) as (-> & _).
  control_cases w; reflexivity.
Qed.

Lemma animate_prevMode (cfg : Config) (f : Frame) (w : World) :
  _prevMode (animate cfg f w) = mode (STATE w).
Proof.
  destruct (animate_control cfg f w) as (_ & -> & _).
  control_cases w; reflexivity.
Qed.

(** A tick never raises the flag. *)
Lemma animate_never_marks_playing (cfg : Config) (f : Frame) (w : World) :
  isPlayingVideo (STATE (animate cfg f w)) = true ->
  isPlayingVideo (STATE w) = true.
Proof.
  destruct (animate_control cfg f w) as (-> & _).
  control_cases w; cbn; done.
Qed.

(** ** Claims about the mode edge and the video *)

(** After a tick the flag is down in TREE mode, and the previous mode is
    the current one: the next tick finds nothing to do on the video. *)
Lemma animate_settles (cfg : Config) (f : Frame) (w : World) :
  let w' := animate cfg f w in
  _prevMode w' = mode (STATE w') /\
  (mode (STATE w') = TREE -> isPlayingVideo (STATE w') = false).
Proof.
  cbn zeta. rewrite animate_prevMode, animate_mode.
  split; [done|].
  destruct (animate_control cfg f w) as (-> & _).
  control_cases w; cbn; done.
Qed.

(** A tick that finds the mode recorded and, in TREE, the flag down makes
    no call on the video and leaves the element as it was. *)
Lemma animate_quiet (cfg : Config) (f : Frame) (w : World) :
  _prevMode w = mode (STATE w) ->
  (mode (STATE w) = TREE -> isPlayingVideo (STATE w) = false) ->
  calls (animate cfg f w) = calls w /\ videoEl (animate cfg f w) = videoEl w /\
  pendingThen (animate cfg f w) = pendingThen w /\
  isPlayingVideo (STATE (animate cfg f w)) = isPlayingVideo (STATE w).
Proof.
  intros Hp Hf.
  destruct (animate_control cfg f w) as (-> & _ & -> & -> & -> & _).
  control_cases w; cbn in *; try done; try (now specialize (Hf eq_refl)).
Qed.

(** C5. The side effects of a mode change fire on the tick that sees the
    change and on no other.  On the tick where the mode is SCATTER and the
    recorded mode is TREE the video is muted iff the user has not
    interacted and one [play()] is made, with the flag left for the
    promise to raise; on the tick where the mode is TREE and the recorded
    mode is SCATTER the video ends paused with the flag down and no
    [play()] is made.  Every tick records the current mode, whatever the
    platform answers, so the tick that follows makes no call at all. *)
Theorem C5_mode_edge_fires_once (cfg : Config) (f : Frame) (w : World) :
  let w' := animate cfg f w in
  _prevMode w' = mode (STATE w) /\
  mode (STATE w') = mode (STATE w) /\
  (mode (STATE w) = SCATTER -> _prevMode w = TREE ->
   calls w' = calls w ++ [CallPlay] /\
   muted (videoEl w') = negb (userInteracted w) /\
   pendingThen w' = S (pendingThen w) /\
   isPlayingVideo (STATE w') = isPlayingVideo (STATE w)) /\
  (mode (STATE w) = TREE -> _prevMode w = SCATTER ->
   paused (videoEl w') = true /\
   isPlayingVideo (STATE w') = false /\
   pendingThen w' = pendingThen w /\
   (calls w' = calls w ++ [CallPause] \/
    calls w' = calls w /\ paused (videoEl w) = true /\
    isPlayingVideo (STATE w) = false)) /\
  (mode (STATE w) = _prevMode w ->
   pendingThen w' = pendingThen w /\
   muted (videoEl w') = muted (videoEl w) /\
   (calls w' = calls w \/
    calls w' = calls w ++ [CallPause] /\ mode (STATE w) = TREE /\
    isPlayingVideo (STATE w) = true)) /\
  (forall f2 : Frame,
     calls (animate cfg f2 w') = calls w' /\
     videoEl (animate cfg f2 w') = videoEl w' /\
     pendingThen (animate cfg f2 w') = pendingThen w').
Proof.
  cbn zeta.
  split; [apply animate_prevMode|].
  split; [apply animate_mode|].
  split; [|split; [|split]].
  - intros Hm Hp.
    destruct (animate_control cfg f w) as (-> & _ & -> & -> & -> & _).
    control_cases w; cbn in *; done.
  - intros Hm Hp.
    destruct (animate_control cfg f w) as (-> & _ & -> & -> & -> & _).
    control_cases w; cbn in *; try done; repeat split; auto.
  - intros Hm.
    destruct (animate_control cfg f w) as (_ & _ & -> & -> & -> & _).
    control_cases w; cbn in *; try done; repeat split; auto.
  - intros f2.
    destruct (animate_settles cfg f w) as [Hp Hf].
    destruct (animate_quiet cfg f2 (animate cfg f w) Hp Hf) as (? & ? & ? & _).
    done.
Qed.

Lemma C5_mode_edge_fires_once_witness :
  calls (animate CONFIG frame0 scatterShown) = calls scatterShown /\
  _prevMode (animate CONFIG frame0 scatterShown) = SCATTER.
Proof.
  destruct (C5_mode_edge_fires_once CONFIG frame0 scatterShown)
    as (Hp & _ & _ & _ & Hheld & _).
  split; [|exact Hp].
  destruct (Hheld eq_refl) as (_ & _ & [Hc|(_ & Hm & _)]); [exact Hc|].
  discriminate Hm.
Defined.

(** C6, as the claim states it, fails: after the overlay click has
    started the video, a tick in TREE mode that finds [isPlayingVideo]
    still false leaves the video running. *)
Lemma C6_unmarked_video_keeps_running :
  let w := run CONFIG [OverlayClick; OverlayResume true] pageLoaded in
  mode (STATE w) = TREE /\
  paused (videoEl (animate CONFIG frame0 w)) = false.
Proof.
  cbn zeta. split; [reflexivity|].
  destruct (animate_control CONFIG frame0
              (run CONFIG [OverlayClick; OverlayResume true] pageLoaded))
    as (_ & _ & -> & _).
  reflexivity.
Qed.

(** C6, amended. A tick in TREE mode always ends with [isPlayingVideo]
    false.  It pauses the video when it finds the flag up, and also when
    it is the tick that sees the mode leave SCATTER; a tick that finds the
    flag down and the mode already recorded makes no call and leaves the
    video element as it is, paused or not.  In particular the tick changes
    nothing on a video that is already stopped. *)
Theorem C6_tree_tick_lowers_flag (cfg : Config) (f : Frame) (w : World) :
  mode (STATE w) = TREE ->
  let w' := animate cfg f w in
  isPlayingVideo (STATE w') = false /\
  (isPlayingVideo (STATE w) = true ->
   paused (videoEl w') = true /\ calls w' = calls w ++ [CallPause]) /\
  (_prevMode w = SCATTER -> paused (videoEl w') = true) /\
  (isPlayingVideo (STATE w) = false -> _prevMode w = TREE ->
   videoEl w' = videoEl w /\ calls w' = calls w) /\
  (isPlayingVideo (STATE w) = false -> paused (videoEl w) = true ->
   videoEl w' = videoEl w /\ calls w' = calls w).
Proof.
  intros Hm. cbn zeta.
  destruct (animate_control cfg f w) as (-> & _ & -> & -> & _).
  control_cases w; cbn in *; try done; repeat split; intros; done.
Qed.

Lemma C6_tree_tick_lowers_flag_witness :
  isPlayingVideo
    (STATE (animate CONFIG frame0
              (with_STATE (set_isPlayingVideo true STATE0) pageLoaded)))
  = false.
Proof.
  destruct (C6_tree_tick_lowers_flag CONFIG frame0
              (with_STATE (set_isPlayingVideo true STATE0) pageLoaded)
              eq_refl) as (H & _).
  exact H.
Defined.

(** C4, on the code.  The tick never raises [isPlayingVideo] (the flag
    after a tick is up only if it was up before): on entering SCATTER the
    flag waits for the then-callback of the play promise.  The pinch
    branch does not wait: with the platform refusing playback, one
    pinch in SCATTER mode at opacity 0.85 leaves the flag up while the
    video is still paused and no promise callback is registered, and the
    following tick keeps it so. *)
Theorem C4_pinch_marks_playing_before_success :
  (forall (cfg : Config) (f : Frame) (w : World),
     isPlayingVideo (STATE (animate cfg f w))
     && negb (isPlayingVideo (STATE w)) = false) /\
  (forall (permitted : bool) (w : World),
     isPlayingVideo (STATE (enterScatter permitted w))
     = isPlayingVideo (STATE w)) /\
  let w' := run CONFIG [HandsResults false (oneHand pinchHand)] scatterShown in
  isPlayingVideo (STATE scatterShown) = false /\
  paused (videoEl scatterShown) = true /\
  isPlayingVideo (STATE w') = true /\
  paused (videoEl w') = true /\
  calls w' = [CallPlay] /\
  pendingThen w' = 0%nat /\
  isPlayingVideo (STATE (animate CONFIG frame0 w')) = true /\
  paused (videoEl (animate CONFIG frame0 w')) = true.
Proof.
  split.
  { intros cfg f w. pose proof (animate_never_marks_playing cfg f w) as H.
    destruct (isPlayingVideo (STATE (animate cfg f w))); [|done].
    now rewrite H. }
  split; [reflexivity|].
  cbn zeta.
  destruct (onHandsResults_hand false (oneHand pinchHand) pinchHand [] 0.3 0.02
              scatterShown eq_refl avgDistOf_pinchHand pinchDistOf_pinchHand)
    as (wrist & _ & Heq).
  unfold run. cbn [foldl step]. rewrite Heq. cbn [world_of].
  rewrite classify_dead_zone by lra.
  assert (Hd : forall w0 : World,
             mode (STATE w0) = SCATTER -> videoOpacity (STATE w0) = 0.85 ->
             isPlayingVideo (STATE w0) = false ->
             detectPinch false 0.02 w0
             = with_video (play false (videoEl w0)) [CallPlay]
                 (with_STATE
                    (set_isPlayingVideo true (set_gesture PINCH (STATE w0)))
                    (with_STATE (set_gesture PINCH (STATE w0)) w0))).
  { intros w0 Hm Ho Hf. unfold detectPinch.
    assert (H1 : lt_num 0.02 0.05 = true) by (apply lt_num_true; lra).
    rewrite H1. cbn. rewrite Hm, Ho, Hf.
    assert (H2 : gt_num 0.85 0.8 = true) by (apply gt_num_true; lra).
    now rewrite H2. }
  rewrite Hd by reflexivity.
  repeat split.
Qed.

(** ** Buffer attributes and the particle loops *)

Lemma at_index_insert_eq (a : list R) (k : nat) (v : R) :
  (k < length a)%nat -> at_index (<[k:=v]> a) k = v.
Proof. intros H. unfold at_index. now rewrite list_lookup_insert_eq. Qed.

Lemma at_index_insert_ne (a : list R) (k j : nat) (v : R) :
  k <> j -> at_index (<[k:=v]> a) j = at_index a j.
Proof. intros H. unfold at_index. now rewrite list_lookup_insert_ne. Qed.

Lemma length_setXYZ (i : nat) (x y z : R) (a : list R) :
  length (setXYZ i x y z a) = length a.
Proof. unfold setXYZ. now rewrite !length_insert. Qed.

Lemma setXYZ_get (i : nat) (x y z : R) (a : list R) :
  (i * 3 + 2 < length a)%nat ->
  getX (setXYZ i x y z a) i = x /\
  getY (setXYZ i x y z a) i = y /\
  getZ (setXYZ i x y z a) i = z.
Proof.
  intros H. unfold getX, getY, getZ, setXYZ. repeat split.
  - rewrite !at_index_insert_ne by lia. apply at_index_insert_eq. lia.
  - rewrite at_index_insert_ne by lia. apply at_index_insert_eq.
    rewrite length_insert. lia.
  - apply at_index_insert_eq. rewrite !length_insert. lia.
Qed.

Lemma setXYZ_other (i : nat) (x y z : R) (a : list R) (k : nat) :
  (k < i * 3 \/ i * 3 + 3 <= k)%nat ->
  at_index (setXYZ i x y z a) k = at_index a k.
Proof.
  intros H. unfold setXYZ. now rewrite !at_index_insert_ne by lia.
Qed.

Lemma for_each_index_S (n : nat) (body : nat -> list R -> list R) (a : list R) :
  for_each_index (S n) body a = body n (for_each_index n body a).
Proof. unfold for_each_index. now rewrite seq_S, foldl_app. Qed.

Lemma for_each_index_ext (n : nat) (body body' : nat -> list R -> list R)
  (a : list R) :
  (forall i b, body i b = body' i b) ->
  for_each_index n body a = for_each_index n body' a.
Proof.
  intros H. induction n as [|n IH]; [done|].
  now rewrite !for_each_index_S, IH, H.
Qed.

Section Loop.
(** A loop whose iteration [i] overwrites particle [i] with values that
    it computes from the coordinates of particle [i] alone. *)
Variables X Y Z : nat -> list R -> R.

Hypothesis local :
  forall (i : nat) (a a' : list R),
    (forall k, (i * 3 <= k < i * 3 + 3)%nat -> at_index a k = at_index a' k) ->
    X i a = X i a' /\ Y i a = Y i a' /\ Z i a = Z i a'.

Lemma for_each_index_particles (n : nat) (a : list R) :
  (n * 3 <= length a)%nat ->
  let r := for_each_index n (fun i b => setXYZ i (X i b) (Y i b) (Z i b) b) a in
  length r = length a /\
  (forall i, (i < n)%nat ->
     getX r i = X i a /\ getY r i = Y i a /\ getZ r i = Z i a) /\
  (forall k, (n * 3 <= k)%nat -> at_index r k = at_index a k).
Proof.
  induction n as [|n IH]; intros Hlen.
  - cbn. repeat split; intros; lia.
  - cbn zeta. rewrite for_each_index_S.
    destruct IH as (IHlen & IHin & IHout); [lia|].
    set (r := for_each_index n _ a) in *.
    destruct (local n r a) as (HX & HY & HZ).
    { intros k Hk. apply IHout. lia. }
    rewrite HX, HY, HZ.
    split; [now rewrite length_setXYZ|]. split.
    + intros i Hi. destruct (decide (i = n)) as [->|Hne].
      * apply setXYZ_get. lia.
      * unfold getX, getY, getZ. rewrite !setXYZ_other by lia.
        apply IHin. lia.
    + intros k Hk. rewrite setXYZ_other by lia. apply IHout. lia.
Qed.
End Loop.

(** ** The start-up loops *)

Lemma at_index_app_l (l l' : list R) (k : nat) :
  (k < length l)%nat -> at_index (l ++ l') k = at_index l k.
Proof. intros H. unfold at_index. now rewrite lookup_app_l. Qed.

Lemma at_index_app_r (l l' : list R) (j : nat) :
  at_index (l ++ l') (length l + j) = at_index l' j.
Proof.
  unfold at_index. rewrite lookup_app_r by lia.
  now replace (length l + j - length l)%nat with j by lia.
Qed.

Section StartupFacts.
Variable cfg : Config.
Variable random : nat -> R.

Lemma initParticles_S (n : nat) :
  initParticles cfg random (S n)
  = initParticle cfg random (initParticles cfg random n).
Proof. unfold initParticles. now rewrite seq_S, foldl_app. Qed.

(** After [n] iterations: 6 draws and 3 coordinates per particle, and the
    live positions start on the tree table. *)
Lemma initParticles_shape (n : nat) :
  let c := initParticles cfg random n in
  cloud_draws c = (n * 6)%nat /\
  length (cloud_tree c) = (n * 3)%nat /\
  length (cloud_scatter c) = (n * 3)%nat /\
  cloud_positions c = cloud_tree c.
Proof.
  induction n as [|n IH]; [done|].
  cbn zeta in *. rewrite initParticles_S.
  destruct IH as (Hd & Ht & Hs & Hp).
  unfold initParticle.
  destruct (treePoint _ _ _) as [[tx ty] tz].
  destruct (scatterPoint _ _ _ _) as [[sx sy] sz]. cbn.
  rewrite !length_app, Hd, Ht, Hs, Hp. cbn. repeat split; lia.
Qed.

(** Particle [i] of the scatter table is the scatter point of the third,
    fourth and fifth draw of iteration [i]; of the tree table, the tree
    point of its first two draws. *)
Lemma initParticles_entries (n i : nat) :
  (i < n)%nat ->
  let c := initParticles cfg random n in
  (getX (cloud_scatter c) i, getY (cloud_scatter c) i, getZ (cloud_scatter c) i)
  = scatterPoint cfg (random (i * 6 + 2)%nat) (random (i * 6 + 3)%nat)
      (random (i * 6 + 4)%nat) /\
  (getX (cloud_tree c) i, getY (cloud_tree c) i, getZ (cloud_tree c) i)
  = treePoint cfg (random (i * 6)%nat) (random (i * 6 + 1)%nat).
Proof.
  induction n as [|n IH]; intros Hi; [lia|].
  cbn zeta. rewrite initParticles_S.
  destruct (initParticles_shape n) as (Hd & Ht & Hs & _).
  cbn zeta in Hd, Ht, Hs.
  destruct (decide (i = n)) as [->|Hne].
  - unfold initParticle. rewrite Hd.
    replace (n * 6 + 0)%nat with (n * 6)%nat by lia.
    destruct (treePoint cfg (random (n * 6)%nat) (random (n * 6 + 1)%nat))
      as [[tx ty] tz].
    destruct (scatterPoint cfg (random (n * 6 + 2)%nat)
                (random (n * 6 + 3)%nat) (random (n * 6 + 4)%nat))
      as [[sx sy] sz].
    cbn [cloud_scatter cloud_tree]. unfold getX, getY, getZ.
    rewrite <- Hs at 1 2 3. rewrite <- Ht.
    rewrite <- (Nat.add_0_r (length (cloud_scatter _))) at 1.
    rewrite <- (Nat.add_0_r (length (cloud_tree _))) at 1.
    now rewrite !at_index_app_r.
  - specialize (IH ltac:(lia)). cbn zeta in IH.
    unfold initParticle.
    destruct (treePoint cfg (random (cloud_draws _)) _) as [[tx ty] tz].
    destruct (scatterPoint cfg (random (cloud_draws _ + 2)%nat) _ _)
      as [[sx sy] sz].
    cbn [cloud_scatter cloud_tree]. unfold getX, getY, getZ in *.
    now rewrite !at_index_app_l by lia.
Qed.

(** The same, coordinate by coordinate. *)
Lemma initParticles_coordinates (n i : nat) :
  (i < n)%nat ->
  let c := initParticles cfg random n in
  let s := scatterPoint cfg (random (i * 6 + 2)%nat) (random (i * 6 + 3)%nat)
             (random (i * 6 + 4)%nat) in
  let t := treePoint cfg (random (i * 6)%nat) (random (i * 6 + 1)%nat) in
  getX (cloud_scatter c) i = fst (fst s) /\
  getY (cloud_scatter c) i = snd (fst s) /\
  getZ (cloud_scatter c) i = snd s /\
  getX (cloud_tree c) i = fst (fst t) /\
  getY (cloud_tree c) i = snd (fst t) /\
  getZ (cloud_tree c) i = snd t.
Proof.
  intros Hi. destruct (initParticles_entries n i Hi) as [Hs Ht].
  cbn zeta in *. rewrite <- Hs, <- Ht. repeat split.
Qed.

Lemma initSpiral_S (first n : nat) :
  initSpiral cfg random first (S n)
  = initSpiralParticle cfg random n (initSpiral cfg random first n).
Proof. unfold initSpiral. now rewrite seq_S, foldl_app. Qed.

Lemma initSpiral_shape (first n : nat) :
  let s := initSpiral cfg random first n in
  length (spiral_positions s) = (n * 3)%nat /\
  length (spiral_scatter s) = (n * 3)%nat.
Proof.
  induction n as [|n IH]; [done|].
  cbn zeta in *. rewrite initSpiral_S. destruct IH as (Hp & Hs).
  unfold initSpiralParticle. cbn. rewrite !length_app, Hp, Hs. cbn. lia.
Qed.

(** The page starts well formed. *)
Lemma initialWorld_wf (starBase starScatter : list R) (video : VideoEl)
  (volume0 t0 : R) :
  wf_world cfg (initialWorld cfg random starBase starScatter video volume0 t0).
Proof.
  unfold wf_world, initialWorld. cbn.
  destruct (initParticles_shape (particleCount cfg)) as (_ & Ht & Hs & ->).
  destruct (initSpiral_shape
              (cloud_draws (initParticles cfg random (particleCount cfg)))
              (spiralCount cfg)) as (Hp & Hc).
  cbn zeta in *. repeat split; assumption.
Qed.
End StartupFacts.

(** ** The scatter shape *)

Lemma cbrt_cube (u : R) : cbrt u * cbrt u * cbrt u = u.
Proof.
  unfold cbrt. destruct (Rlt_dec 0 u) as [Hp|Hp].
  - rewrite <- !exp_plus.
    replace (ln u / 3 + ln u / 3 + ln u / 3) with (ln u) by lra.
    now apply exp_ln.
  - destruct (Rlt_dec u 0) as [Hn|Hn]; [|lra].
    replace (- exp (ln (- u) / 3) * - exp (ln (- u) / 3) * - exp (ln (- u) / 3))
      with (- (exp (ln (- u) / 3) * exp (ln (- u) / 3) * exp (ln (- u) / 3)))
      by ring.
    rewrite <- !exp_plus.
    replace (ln (- u) / 3 + ln (- u) / 3 + ln (- u) / 3) with (ln (- u)) by lra.
    rewrite exp_ln; lra.
Qed.

Lemma cbrt_unit_range (u : R) : 0 <= u < 1 -> 0 <= cbrt u < 1.
Proof.
  intros [H0 H1]. unfold cbrt. destruct (Rlt_dec 0 u) as [Hp|Hp].
  - split; [left; apply exp_pos|].
    rewrite <- exp_0. apply exp_increasing.
    assert (ln u < 0) by (rewrite <- ln_1; now apply ln_increasing).
    lra.
  - destruct (Rlt_dec u 0); lra.
Qed.

(** The point lies at distance [sr] from the origin. *)
Lemma scatterPoint_radius (sr phi theta : R) :
  0 <= sr ->
  Vector3.distanceTo
    (Vector3.mk (sr * sin phi * cos theta) (sr * sin phi * sin theta)
       (sr * cos phi))
    (Vector3.mk 0 0 0) = sr.
Proof.
  intros Hsr. unfold Vector3.distanceTo, Vector3.distanceToSquared. cbn.
  replace ((sr * sin phi * cos theta - 0) * (sr * sin phi * cos theta - 0) +
           (sr * sin phi * sin theta - 0) * (sr * sin phi * sin theta - 0) +
           (sr * cos phi - 0) * (sr * cos phi - 0))
    with (Rsqr sr * (Rsqr (sin phi) * (Rsqr (sin theta) + Rsqr (cos theta))
                     + Rsqr (cos phi)))
    by (unfold Rsqr; ring).
  rewrite sin2_cos2, Rmult_1_r, sin2_cos2, Rmult_1_r.
  now apply sqrt_Rsqr.
Qed.

(** C8. Every scatter target of the main cloud is built from three draws
    of its iteration as [r = scatterRadius * cbrt(u)], [theta = u' * 2 * PI],
    [phi = acos(2 * u'' - 1)] and the spherical-to-Cartesian conversion.
    With draws in [[0, 1)], [theta] lies in [[0, 2 * PI)], [phi] in
    [[0, PI]], the radius is the cube root of the draw scaled by
    [scatterRadius] (its cube is [scatterRadius^3 * u]), and the point lies
    at distance [r], at most [scatterRadius], from the origin.  The radius
    is within the fraction [x] of [scatterRadius] exactly when the draw is
    at most [x^3]: the density of a uniform draw is that of the volume. *)
Theorem C8_scatter_targets_in_ball (cfg : Config) (random : nat -> R)
  (starBase starScatter : list R) (video : VideoEl) (volume0 t0 : R) (i : nat) :
  0 <= scatterRadius cfg ->
  (forall k, 0 <= random k < 1) ->
  (i < particleCount cfg)%nat ->
  let T :=
    scatterPositions
      (tables (initialWorld cfg random starBase starScatter video volume0 t0)) in
  let r := scatterRadius cfg * cbrt (random (i * 6 + 2)%nat) in
  let theta := random (i * 6 + 3)%nat * 2 * PI in
  let phi := acos (2 * random (i * 6 + 4)%nat - 1) in
  getX T i = r * sin phi * cos theta /\
  getY T i = r * sin phi * sin theta /\
  getZ T i = r * cos phi /\
  0 <= theta < 2 * PI /\
  0 <= phi <= PI /\
  r * r * r
  = scatterRadius cfg * scatterRadius cfg * scatterRadius cfg
    * random (i * 6 + 2)%nat /\
  Vector3.distanceTo (Vector3.mk (getX T i) (getY T i) (getZ T i))
    (Vector3.mk 0 0 0) = r /\
  0 <= r <= scatterRadius cfg /\
  (forall x : R,
     0 < scatterRadius cfg -> 0 <= x ->
     (r <= scatterRadius cfg * x <-> random (i * 6 + 2)%nat <= x * x * x)).
Proof.
  intros HR Hrand Hi T r theta phi.
  destruct (initParticles_entries cfg random (particleCount cfg) i Hi)
    as [Hs _].
  cbn zeta in Hs. unfold scatterPoint in Hs.
  change (cloud_scatter (initParticles cfg random (particleCount cfg)))
    with T in Hs.
  fold r theta phi in Hs.
  injection Hs as HX HY HZ.
  destruct (cbrt_unit_range _ (Hrand (i * 6 + 2)%nat)) as [Hc0 Hc1].
  assert (Hr : 0 <= r <= scatterRadius cfg) by (subst r; split; nra).
  pose proof PI_RGT_0 as Hpi.
  destruct (Hrand (i * 6 + 3)%nat) as [Ht0 Ht1].
  assert (Hcdf : forall x : R,
             0 < scatterRadius cfg -> 0 <= x ->
             (r <= scatterRadius cfg * x
              <-> random (i * 6 + 2)%nat <= x * x * x)).
  { intros x HRpos Hx.
    pose proof (cbrt_cube (random (i * 6 + 2)%nat)) as Hcube.
    set (c := cbrt (random (i * 6 + 2)%nat)) in *.
    rewrite <- Hcube. subst r. split.
    - intros Hle. assert (Hcx : c <= x) by nra.
      assert (c * c <= x * x) by nra. nra.
    - intros Hle. destruct (Rle_lt_dec c x) as [Hcx|Hcx]; [nra|].
      assert (H1 : 0 < c - x) by lra.
      assert (H2 : 0 < c * c + c * x + x * x) by nra.
      pose proof (Rmult_lt_0_compat _ _ H1 H2) as H3.
      replace (c * c * c) with (x * x * x + (c - x) * (c * c + c * x + x * x))
        in Hle by ring.
      lra. }
  repeat split; try assumption; try tauto; try (now apply Hcdf).
  - subst theta. nra.
  - subst theta. nra.
  - apply acos_bound.
  - apply acos_bound.
  - subst r.
    replace (scatterRadius cfg * cbrt (random (i * 6 + 2)%nat) *
             (scatterRadius cfg * cbrt (random (i * 6 + 2)%nat)) *
             (scatterRadius cfg * cbrt (random (i * 6 + 2)%nat)))
      with (scatterRadius cfg * scatterRadius cfg * scatterRadius cfg *
            (cbrt (random (i * 6 + 2)%nat) * cbrt (random (i * 6 + 2)%nat) *
             cbrt (random (i * 6 + 2)%nat))) by ring.
    now rewrite cbrt_cube.
  - rewrite HX, HY, HZ. apply scatterPoint_radius. tauto.
Qed.

Lemma sampleRandom_range (k : nat) : 0 <= sampleRandom k < 1.
Proof.
  unfold sampleRandom. destruct k as [|[|[|k]]]; lra.
Qed.

Lemma C8_scatter_targets_in_ball_witness :
  0 <= scatterRadius CONFIG * cbrt (sampleRandom 2) <= scatterRadius CONFIG.
Proof.
  destruct (C8_scatter_targets_in_ball CONFIG sampleRandom
              (replicate (STAR_PARTICLE_COUNT * 3) 0)
              (replicate (STAR_PARTICLE_COUNT * 3) 0) video0 1 0 0)
    as (_ & _ & _ & _ & _ & _ & _ & H & _).
  - cbn. lra.
  - exact sampleRandom_range.
  - cbn. lia.
  - exact H.
Defined.

(** ** The particle families in a tick *)

Lemma lerp_blendsToward (v t f : R) :
  0 <= f <= 1 -> blendsToward v (lerp v t f) t f.
Proof.
  intros Hf. unfold blendsToward.
  split; [apply lerp_step|].
  rewrite lerp_distance by lra. split; [done|].
  pose proof (Rabs_pos (v - t)). nra.
Qed.

(** The geometry after a tick, from the world before it. *)
Lemma animate_geometry (cfg : Config) (f : Frame) (w : World) :
  let m := mode (STATE w) in
  let g := geometry (animate cfg f w) in
  positions g
  = for_each_index (particleCount cfg)
      (updateParticle cfg m (time f) (tables w)) (positions (geometry w)) /\
  spiralPositions g
  = for_each_index (spiralCount cfg)
      (updateSpiralParticle cfg m (time f) (spiralScatterCoords (tables w)))
      (spiralPositions (geometry w)) /\
  starPositions g
  = for_each_index STAR_PARTICLE_COUNT (updateStarParticle cfg m (tables w))
      (starPositions (geometry w)).
Proof.
  cbn zeta. unfold animate.
  set (c := modeEdge (playPermitted f) (blendScene cfg (stopVideoInTree w))).
  set (pre := updateRotation (detectStall f (movePlane c))).
  assert (Hc : mode (STATE c) = mode (STATE w) /\ tables c = tables w /\
               geometry c = geometry w).
  { subst c. control_cases w; repeat split. }
  assert (Hpre : STATE pre = STATE c /\ tables pre = tables c /\
                 geometry pre = geometry c).
  { subst pre.
    destruct (updateRotation_control (detectStall f (movePlane c)))
      as (-> & _ & _ & _ & _ & _ & -> & ->).
    destruct (detectStall_control f (movePlane c))
      as (-> & _ & _ & _ & _ & _ & -> & ->).
    repeat split. }
  destruct Hc as (Hm & HT & Hg). destruct Hpre as (Hs & HT' & Hg').
  unfold updateGeometry. cbn [geometry with_geometry positions spiralPositions
                               starPositions].
  now rewrite Hs, Hm, HT', HT, Hg', Hg.
Qed.

Lemma updateParticle_shape (cfg : Config) (m : Mode) (time : R) (T : Tables)
  (i : nat) (a : list R) :
  updateParticle cfg m time T i a
  = setXYZ i
      (lerp (getX a i) (fst (fst (particleTarget m time T i))) (lerpSpeed cfg))
      (lerp (getY a i) (snd (fst (particleTarget m time T i))) (lerpSpeed cfg))
      (lerp (getZ a i) (snd (particleTarget m time T i)) (lerpSpeed cfg)) a.
Proof.
  unfold updateParticle. now destruct (particleTarget m time T i) as [[tx ty] tz].
Qed.

(** The main-cloud loop blends every particle once toward its target. *)
Lemma updateParticles_spec (cfg : Config) (m : Mode) (time : R) (T : Tables)
  (a : list R) :
  (particleCount cfg * 3 <= length a)%nat ->
  let r := for_each_index (particleCount cfg) (updateParticle cfg m time T) a in
  length r = length a /\
  forall i, (i < particleCount cfg)%nat ->
    getX r i
    = lerp (getX a i) (fst (fst (particleTarget m time T i))) (lerpSpeed cfg) /\
    getY r i
    = lerp (getY a i) (snd (fst (particleTarget m time T i))) (lerpSpeed cfg) /\
    getZ r i
    = lerp (getZ a i) (snd (particleTarget m time T i)) (lerpSpeed cfg).
Proof.
  intros Hlen. cbn zeta.
  rewrite (for_each_index_ext _ _ _ _ (updateParticle_shape cfg m time T)).
  pose proof (for_each_index_particles
    (fun i b => lerp (getX b i) (fst (fst (particleTarget m time T i))) (lerpSpeed cfg))
    (fun i b => lerp (getY b i) (snd (fst (particleTarget m time T i))) (lerpSpeed cfg))
    (fun i b => lerp (getZ b i) (snd (particleTarget m time T i)) (lerpSpeed cfg)))
    as Hloop.
  cbn beta in Hloop.
  destruct (Hloop) with (n := particleCount cfg) (a := a) as (Hl & Hin & _).
  - intros i b b' Hk. unfold getX, getY, getZ.
    rewrite !(Hk (i * 3)%nat), !(Hk (i * 3 + 1)%nat), !(Hk (i * 3 + 2)%nat) by lia.
    done.
  - exact Hlen.
  - split; [exact Hl|exact Hin].
Qed.

Lemma for_each_index_length (n : nat) (body : nat -> list R -> list R)
  (a : list R) :
  (forall i b, length (body i b) = length b) ->
  length (for_each_index n body a) = length a.
Proof.
  intros H. induction n as [|n IH]; [done|].
  now rewrite for_each_index_S, H.
Qed.

Lemma updateSpiralParticle_length (cfg : Config) (m : Mode) (time : R)
  (coords : list R) (i : nat) (a : list R) :
  length (updateSpiralParticle cfg m time coords i a) = length a.
Proof.
  unfold updateSpiralParticle.
  destruct (spiralPoint cfg m time coords i) as [[x y] z]. apply length_setXYZ.
Qed.

(** A tick keeps the world well formed. *)
Lemma animate_wf (cfg : Config) (f : Frame) (w : World) :
  wf_world cfg w -> wf_world cfg (animate cfg f w).
Proof.
  unfold wf_world. intros (Hp & Ht & Hs & Hsp & Hsc).
  rewrite animate_tables.
  destruct (animate_geometry cfg f w) as (-> & -> & _).
  destruct (updateParticles_spec cfg (mode (STATE w)) (time f) (tables w)
              (positions (geometry w))) as [Hl _]; [lia|].
  cbn zeta in Hl. rewrite Hl.
  rewrite for_each_index_length by (intros; apply updateSpiralParticle_length).
  done.
Qed.

(** ** The remainder and the wrapped height of the spiral *)

Lemma rem_nonneg (a b : R) :
  0 <= a -> 0 < b ->
  0 <= rem a b < b /\ exists k : Z, a = IZR k * b + rem a b.
Proof.
  intros Ha Hb. unfold rem, trunc.
  assert (Hq : 0 <= a / b).
  { unfold Rdiv. apply Rmult_le_pos; [lra|]. left. now apply Rinv_0_lt_compat. }
  destruct (Rle_dec 0 (a / b)) as [_|Hn]; [|lra].
  destruct (base_Int_part (a / b)) as [Hlo Hhi].
  set (q := IZR (Int_part (a / b))) in *.
  assert (Hab : a = a / b * b) by (field; lra).
  split; [split|].
  - assert (q * b <= a / b * b) by (apply Rmult_le_compat_r; lra). lra.
  - assert (a / b * b < (q + 1) * b) by (apply Rmult_lt_compat_r; lra). lra.
  - exists (Int_part (a / b)). fold q. ring.
Qed.

Lemma updateSpiralParticle_shape (cfg : Config) (m : Mode) (time : R)
  (coords : list R) (i : nat) (a : list R) :
  updateSpiralParticle cfg m time coords i a
  = setXYZ i (fst (fst (spiralPoint cfg m time coords i)))
      (snd (fst (spiralPoint cfg m time coords i)))
      (snd (spiralPoint cfg m time coords i)) a.
Proof.
  unfold updateSpiralParticle.
  now destruct (spiralPoint cfg m time coords i) as [[x y] z].
Qed.

(** The spiral loop writes [spiralPoint] to every particle, whatever the
    attribute held before. *)
Lemma updateSpiral_spec (cfg : Config) (m : Mode) (time : R)
  (coords a : list R) (i : nat) :
  (spiralCount cfg * 3 <= length a)%nat ->
  (i < spiralCount cfg)%nat ->
  let r :=
    for_each_index (spiralCount cfg)
      (updateSpiralParticle cfg m time coords) a in
  getX r i = fst (fst (spiralPoint cfg m time coords i)) /\
  getY r i = snd (fst (spiralPoint cfg m time coords i)) /\
  getZ r i = snd (spiralPoint cfg m time coords i).
Proof.
  intros Hlen Hi. cbn zeta.
  rewrite (for_each_index_ext _ _ _ _
             (updateSpiralParticle_shape cfg m time coords)).
  destruct (for_each_index_particles
    (fun i (_ : list R) => fst (fst (spiralPoint cfg m time coords i)))
    (fun i (_ : list R) => snd (fst (spiralPoint cfg m time coords i)))
    (fun i (_ : list R) => snd (spiralPoint cfg m time coords i)))
    with (n := spiralCount cfg) (a := a) as (_ & Hin & _); [done|exact Hlen|].
  exact (Hin i Hi).
Qed.

(** The wrapped height of spiral particle [i] stays within the tree. *)
Lemma spiral_height_wraps (H pct flow : R) :
  0 < H -> 0 <= pct < 1 -> 0 <= flow < H ->
  let ty0 := pct * H - H / 2 + flow in
  let ty := if gt_num ty0 (H / 2) then ty0 - H else ty0 in
  (ty = ty0 \/ ty = ty0 - H) /\ - (H / 2) <= ty <= H / 2.
Proof.
  intros HH [Hp0 Hp1] [Hf0 Hf1]. cbn zeta.
  destruct (gt_num _ _) eqn:Hgt.
  - apply gt_num_true in Hgt. split; [now right|]. nra.
  - apply gt_num_false in Hgt. split; [now left|]. nra.
Qed.

Lemma pct_unit_range (i n : nat) : (i < n)%nat -> 0 <= INR i / INR n < 1.
Proof.
  intros Hi.
  assert (Hn : 0 < INR n) by (apply lt_0_INR; lia).
  assert (Hi' : INR i < INR n) by now apply lt_INR.
  pose proof (pos_INR i) as H0.
  split.
  - unfold Rdiv. apply Rmult_le_pos; [done|]. left. now apply Rinv_0_lt_compat.
  - apply (Rmult_lt_reg_r (INR n)); [done|].
    replace (INR i / INR n * INR n) with (INR i) by (field; lra). lra.
Qed.

(** ** Claims about the particle families *)

(** C7. After a tick, spiral particle [i] sits where the tick computed it.
    In TREE mode its height is the base height plus
    [(time * spiralSpeed) % treeHeight], less [treeHeight] when that
    exceeds the top, and lies within [[-treeHeight/2, treeHeight/2]]; with
    [normH] the height renormalized to [[0, 1]], its angle is
    [normH * 2 * PI * spiralTurns + time * spiralSpeed] and its radius
    [(1 - normH) * treeRadius * 1.15 + 0.2].  In SCATTER mode it sits on
    its precomputed scatter coordinates, whatever its position was before
    the tick. *)
Theorem C7_spiral_band_update (cfg : Config) (f : Frame) (w : World) (i : nat) :
  wf_world cfg w ->
  (i < spiralCount cfg)%nat ->
  0 < treeHeight cfg ->
  0 <= time f * spiralSpeed cfg ->
  let p' := spiralPositions (geometry (animate cfg f w)) in
  let H := treeHeight cfg in
  let baseTy := INR i / INR (spiralCount cfg) * H - H / 2 in
  let flow := rem (time f * spiralSpeed cfg) H in
  (mode (STATE w) = TREE ->
   exists ty : R,
     let normH := (ty + H / 2) / H in
     let angle := normH * PI * 2 * spiralTurns cfg + time f * spiralSpeed cfg in
     let r := (1 - normH) * treeRadius cfg * 1.15 + 0.2 in
     (ty = baseTy + flow \/ ty = baseTy + flow - H) /\
     0 <= flow < H /\
     (exists k : Z, time f * spiralSpeed cfg = IZR k * H + flow) /\
     - (H / 2) <= ty <= H / 2 /\
     0 <= normH <= 1 /\
     getY p' i = ty /\
     getX p' i = cos angle * r /\
     getZ p' i = sin angle * r) /\
  (mode (STATE w) = SCATTER ->
   getX p' i = at_index (spiralScatterCoords (tables w)) (i * 3) /\
   getY p' i = at_index (spiralScatterCoords (tables w)) (i * 3 + 1) /\
   getZ p' i = at_index (spiralScatterCoords (tables w)) (i * 3 + 2)).
Proof.
  intros (_ & _ & _ & Hlen & _) Hi HH Ht p' H baseTy flow.
  destruct (animate_geometry cfg f w) as (_ & Hsp & _).
  cbn zeta in Hsp.
  pose proof (updateSpiral_spec cfg (mode (STATE w)) (time f)
                (spiralScatterCoords (tables w))
                (spiralPositions (geometry w)) i ltac:(lia) Hi) as Hpt.
  cbn zeta in Hpt. rewrite <- Hsp in Hpt. fold p' in Hpt.
  destruct Hpt as (HX & HY & HZ).
  split; intros Hm; rewrite Hm in HX, HY, HZ;
    unfold spiralPoint in HX, HY, HZ; cbn [fst snd] in HX, HY, HZ.
  - destruct (rem_nonneg (time f * spiralSpeed cfg) H Ht HH) as [Hflow Hk].
    fold H flow in Hflow, Hk.
    destruct (spiral_height_wraps H (INR i / INR (spiralCount cfg)) flow HH
                (pct_unit_range _ _ Hi) Hflow) as [Hty Hrange].
    cbn zeta in Hty, Hrange. fold baseTy in Hty, Hrange.
    fold H baseTy flow in HX, HY, HZ.
    set (ty := if gt_num (baseTy + flow) (H / 2)
               then baseTy + flow - H else baseTy + flow) in *.
    exists ty. cbn zeta.
    split; [exact Hty|]. split; [exact Hflow|]. split; [exact Hk|].
    split; [exact Hrange|]. split; [|split; [exact HY|split; [exact HX|exact HZ]]].
    assert (Hinv : 0 < / H) by now apply Rinv_0_lt_compat.
    unfold Rdiv at 1 3. split.
    + apply Rmult_le_pos; lra.
    + apply (Rmult_le_reg_r H); [done|].
      rewrite Rmult_assoc, Rinv_l by lra. lra.
  - split; [exact HX|split; [exact HY|exact HZ]].
Qed.

Lemma pageLoaded_wf : wf_world CONFIG pageLoaded.
Proof. apply initialWorld_wf. Qed.

Lemma C7_spiral_band_update_witness :
  exists ty : R,
    - (treeHeight CONFIG / 2) <= ty <= treeHeight CONFIG / 2 /\
    getY (spiralPositions (geometry (animate CONFIG frame0 pageLoaded))) 0 = ty.
Proof.
  destruct (C7_spiral_band_update CONFIG frame0 pageLoaded 0 pageLoaded_wf)
    as [Htree _].
  - cbn. lia.
  - cbn. lra.
  - cbn. lra.
  - destruct (Htree eq_refl) as (ty & _ & _ & _ & Hrange & _ & HY & _).
    exists ty. split; [exact Hrange|exact HY].
Defined.

(** The gesture callback touches neither the tables nor the geometry. *)
Lemma detectPinch_scene (permitted : bool) (p : R) (w : World) :
  tables (detectPinch permitted p w) = tables w /\
  geometry (detectPinch permitted p w) = geometry w.
Proof.
  unfold detectPinch. destruct (lt_num p 0.05); [|done]. cbn.
  destruct (mode (STATE w)); [done|].
  destruct (gt_num _ 0.8); [|done].
  now destruct (negb (isPlayingVideo (STATE w))).
Qed.

Lemma onHandsResults_scene (permitted : bool) (results : Results) (w : World) :
  tables (world_of (onHandsResults permitted results w)) = tables w /\
  geometry (world_of (onHandsResults permitted results w)) = geometry w.
Proof.
  unfold onHandsResults.
  destruct (multiHandLandmarks results) as [[|landmarks rest]|]; try done.
  destruct (landmarks !! 0%nat) as [wrist|]; [|done].
  destruct (avgDistOf landmarks) as [a|]; [|done].
  destruct (pinchDistOf landmarks) as [p|]; [|done].
  cbn [world_of].
  match goal with
  | |- context [detectPinch ?b ?q ?w0] =>
      destruct (detectPinch_scene b q w0) as [-> ->]
  end.
  done.
Qed.

(** No callback writes a table: they are as start-up left them. *)
Lemma step_tables (cfg : Config) (e : Event) (w : World) :
  tables (step cfg e w) = tables w.
Proof.
  destruct e; cbn [step].
  - apply onHandsResults_scene.
  - apply animate_tables.
  - unfold overlayClick. now destruct (started w).
  - reflexivity.
  - unfold playFulfilled. now destruct (pendingThen w).
  - reflexivity.
  - reflexivity.
  - reflexivity.
  - reflexivity.
  - reflexivity.
Qed.

Lemma run_tables (cfg : Config) (es : list Event) (w : World) :
  tables (run cfg es w) = tables w.
Proof.
  revert w. induction es as [|e es IH]; intros w; [done|].
  now rewrite run_cons, IH, step_tables.
Qed.

(** Where a tick puts main-cloud particle [i]. *)
Lemma animate_particle (cfg : Config) (f : Frame) (w : World) (i : nat) :
  wf_world cfg w ->
  (i < particleCount cfg)%nat ->
  let p := positions (geometry w) in
  let p' := positions (geometry (animate cfg f w)) in
  let target := particleTarget (mode (STATE w)) (time f) (tables w) i in
  getX p' i = lerp (getX p i) (fst (fst target)) (lerpSpeed cfg) /\
  getY p' i = lerp (getY p i) (snd (fst target)) (lerpSpeed cfg) /\
  getZ p' i = lerp (getZ p i) (snd target) (lerpSpeed cfg).
Proof.
  intros (Hlen & _) Hi p p' target.
  destruct (animate_geometry cfg f w) as (Hpos & _).
  cbn zeta in Hpos. fold p p' in Hpos.
  destruct (updateParticles_spec cfg (mode (STATE w)) (time f) (tables w) p)
    as [_ Hspec]; [subst p; lia|].
  cbn zeta in Hspec. rewrite <- Hpos in Hspec.
  exact (Hspec i Hi).
Qed.

(** The first particle of a page, from the first five draws. *)
Lemma initialWorld_first_particle (cfg : Config) (random : nat -> R)
  (starBase starScatter : list R) (video : VideoEl) (volume0 t0 : R) :
  (0 < particleCount cfg)%nat ->
  let w := initialWorld cfg random starBase starScatter video volume0 t0 in
  getY (positions (geometry w)) 0
  = random 0%nat * treeHeight cfg - treeHeight cfg / 2 /\
  at_index (scatterPositions (tables w)) 0
  = scatterRadius cfg * cbrt (random 2%nat)
    * sin (acos (2 * random 4%nat - 1)) * cos (random 3%nat * 2 * PI) /\
  at_index (scatterPositions (tables w)) 1
  = scatterRadius cfg * cbrt (random 2%nat)
    * sin (acos (2 * random 4%nat - 1)) * sin (random 3%nat * 2 * PI).
Proof.
  intros Hpos.
  destruct (initParticles_coordinates cfg random (particleCount cfg) 0 Hpos)
    as (HsX & HsY & _ & _ & HtY & _).
  destruct (initParticles_shape cfg random (particleCount cfg))
    as (_ & _ & _ & Hp).
  cbn zeta in HsX, HsY, HtY, Hp. cbn zeta.
  unfold initialWorld. cbn [geometry tables positions scatterPositions].
  rewrite Hp. repeat split.
  - exact HtY.
  - exact HsX.
  - exact HsY.
Qed.

(** The first particle of the sample page: on the tree it sits at height
    zero, and it scatters to the origin. *)
Lemma pageLoaded_first_particle :
  getY (positions (geometry pageLoaded)) 0 = 0 /\
  at_index (scatterPositions (tables pageLoaded)) 0 = 0 /\
  at_index (scatterPositions (tables pageLoaded)) 1 = 0.
Proof.
  assert (Hpos : (0 < particleCount CONFIG)%nat) by (cbn; lia).
  destruct (initialWorld_first_particle CONFIG sampleRandom
              (replicate (STAR_PARTICLE_COUNT * 3) 0)
              (replicate (STAR_PARTICLE_COUNT * 3) 0) video0 1 0 Hpos)
    as (H1 & H2 & H3).
  fold pageLoaded in H1, H2, H3. rewrite H1, H2, H3.
  assert (Hc : cbrt (sampleRandom 2) = 0).
  { unfold cbrt, sampleRandom.
    destruct (Rlt_dec 0 0); [lra|]. destruct (Rlt_dec 0 0); [lra|done]. }
  rewrite Hc.
  assert (Hh : sampleRandom 0 * treeHeight CONFIG - treeHeight CONFIG / 2 = 0).
  { unfold sampleRandom. cbn [treeHeight CONFIG]. lra. }
  rewrite Hh. repeat split; ring.
Qed.

(** C1, as the claim states it, fails in SCATTER mode on the vertical
    axis.  On the sample page an open hand switches to SCATTER; the first
    particle then sits exactly on its scatter entry on that axis, and the
    tick a quarter turn into the session moves it 0.00025 away from the
    entry instead of keeping the distance at [0 * (1 - lerpSpeed)]. *)
Lemma C1_scatter_target_breathes :
  let w := world_of (onHandsResults true (oneHand openHand) pageLoaded) in
  let w' := animate CONFIG frameQuarter w in
  let t := at_index (scatterPositions (tables w)) (0 * 3 + 1) in
  let v := getY (positions (geometry w)) 0 in
  let v' := getY (positions (geometry w')) 0 in
  mode (STATE w) = SCATTER /\
  tables w' = tables w /\
  Rabs (v - t) = 0 /\
  Rabs (v' - t) = 0.00025 /\
  Rabs (v' - t) <> Rabs (v - t) * (1 - lerpSpeed CONFIG) /\
  ~ Rabs (v' - t) <= Rabs (v - t).
Proof.
  cbn zeta.
  set (w := world_of (onHandsResults true (oneHand openHand) pageLoaded)).
  assert (Hm : mode (STATE w) = SCATTER).
  { subst w.
    destruct (onHandsResults_hand true (oneHand openHand) openHand [] 0.36 0.36
                pageLoaded eq_refl avgDistOf_openHand pinchDistOf_openHand)
      as (wrist & _ & ->).
    cbn [world_of]. rewrite detectPinch_mode. cbn.
    rewrite classify_open by lra. reflexivity. }
  destruct (onHandsResults_scene true (oneHand openHand) pageLoaded)
    as [HT Hg].
  fold w in HT, Hg.
  assert (Hwf : wf_world CONFIG w).
  { unfold wf_world. rewrite HT, Hg. apply pageLoaded_wf. }
  destruct (animate_particle CONFIG frameQuarter w 0 Hwf) as (_ & HY & _);
    [cbn; lia|].
  cbn zeta in HY. rewrite Hm in HY. unfold particleTarget in HY.
  cbn [fst snd Nat.mul Nat.add] in HY.
  rewrite HT, Hg in HY. rewrite HT, Hg.
  destruct pageLoaded_first_particle as (Hv & Hsx & Hsy).
  cbn [Nat.mul Nat.add].
  rewrite Hv, Hsx, Hsy in HY. rewrite Hv, Hsy.
  change (time frameQuarter) with (PI / 2) in HY.
  rewrite Rplus_0_r, sin_PI2 in HY.
  assert (HY' : getY (positions (geometry (animate CONFIG frameQuarter w))) 0
                = 0.00025).
  { rewrite HY. unfold lerp. cbn. lra. }
  rewrite HY'.
  split; [done|]. split; [now rewrite animate_tables|].
  replace (0 - 0) with 0 by lra. replace (0.00025 - 0) with 0.00025 by lra.
  rewrite Rabs_R0, (Rabs_pos_eq 0.00025) by lra.
  repeat split; lra.
Qed.

(** C1, amended. The tables are never written: after any run of
    callbacks they are as start-up left them.  In a tick, every main-cloud
    particle moves by the blending rule with factor [lerpSpeed] toward a
    target chosen by the mode.  In TREE mode the target is the particle's
    entry of [treePositions] on all three axes, so on each axis the
    distance to the table entry is scaled by [1 - lerpSpeed].  In SCATTER
    mode the same holds on the x and z axes with [scatterPositions]; on
    the y axis the target is the table entry plus
    [sin(time + x entry) * 0.005], which moves with time, and it is the
    distance to that moving target that is scaled by [1 - lerpSpeed]. *)
Theorem C1_main_cloud_blend (cfg : Config) (f : Frame) (w : World) (i : nat) :
  wf_world cfg w ->
  (i < particleCount cfg)%nat ->
  0 <= lerpSpeed cfg <= 1 ->
  let w' := animate cfg f w in
  let p := positions (geometry w) in
  let p' := positions (geometry w') in
  let tree := treePositions (tables w) in
  let scatter := scatterPositions (tables w) in
  (forall es : list Event, tables (run cfg es w) = tables w) /\
  tables w' = tables w /\
  mode (STATE w') = mode (STATE w) /\
  (mode (STATE w) = TREE ->
   blendsToward (getX p i) (getX p' i) (at_index tree (i * 3)) (lerpSpeed cfg) /\
   blendsToward (getY p i) (getY p' i) (at_index tree (i * 3 + 1))
     (lerpSpeed cfg) /\
   blendsToward (getZ p i) (getZ p' i) (at_index tree (i * 3 + 2))
     (lerpSpeed cfg)) /\
  (mode (STATE w) = SCATTER ->
   blendsToward (getX p i) (getX p' i) (at_index scatter (i * 3))
     (lerpSpeed cfg) /\
   blendsToward (getY p i) (getY p' i)
     (at_index scatter (i * 3 + 1)
      + sin (time f + at_index scatter (i * 3)) * 0.005)
     (lerpSpeed cfg) /\
   blendsToward (getZ p i) (getZ p' i) (at_index scatter (i * 3 + 2))
     (lerpSpeed cfg)).
Proof.
  intros Hwf Hi Hf w' p p' tree scatter.
  split; [intros es; apply run_tables|].
  split; [apply animate_tables|].
  split; [apply animate_mode|].
  destruct (animate_particle cfg f w i Hwf Hi) as (HX & HY & HZ).
  cbn zeta in HX, HY, HZ. fold w' p p' in HX, HY, HZ.
  split; intros Hm; rewrite Hm in HX, HY, HZ;
    unfold particleTarget in HX, HY, HZ; cbn [fst snd] in HX, HY, HZ;
    rewrite HX, HY, HZ; repeat split; now apply lerp_blendsToward.
Qed.

Lemma C1_main_cloud_blend_witness :
  blendsToward (getY (positions (geometry pageLoaded)) 7)
    (getY (positions (geometry (animate CONFIG frame0 pageLoaded))) 7)
    (at_index (treePositions (tables pageLoaded)) (7 * 3 + 1))
    (lerpSpeed CONFIG).
Proof.
  destruct (C1_main_cloud_blend CONFIG frame0 pageLoaded 7 pageLoaded_wf)
    as (_ & _ & _ & Htree & _).
  - cbn. lia.
  - cbn. lra.
  - destruct (Htree eq_refl) as (_ & HY & _). exact HY.
Defined.

(** * Further properties of the module *)

(** ** The scene scalars *)

Lemma lerp_between (lo hi v t f : R) :
  0 <= f <= 1 -> lo <= v <= hi -> lo <= t <= hi -> lo <= lerp v t f <= hi.
Proof. intros Hf Hv Ht. unfold lerp. split; nra. Qed.

(** The faded volume lies between the current volume and the target. *)
Lemma fadeAudio_between (lo hi t v : R) :
  lo <= v <= hi -> lo <= t <= hi -> lo <= fadeAudio t v <= hi.
Proof.
  intros Hv Ht. unfold fadeAudio. destruct (gt_num _ 0.01); [|lra].
  split; nra.
Qed.

Lemma detectStall_visuals (f : Frame) (w : World) :
  visuals (detectStall f w) = visuals w.
Proof.
  unfold detectStall.
  destruct (negb (paused (videoEl w))); [|done].
  destruct (gt_num _ 0.03); [done|]. now destruct (gt_num _ 750).
Qed.

(** The mode-edge block writes, of the session state, only the flag. *)
Lemma modeEdge_frame (permitted : bool) (w : World) :
  visuals (modeEdge permitted w) = visuals w /\
  set_isPlayingVideo false (STATE (modeEdge permitted w))
  = set_isPlayingVideo false (STATE w).
Proof.
  unfold modeEdge. destruct (Mode_eqb _ _); [done|].
  destruct (mode (STATE w)) eqn:Hm; cbn; rewrite ?Hm; cbn.
  - unfold leaveScatter. now destruct (negb (paused (videoEl w))).
  - done.
Qed.

Lemma stopVideoInTree_frame (w : World) :
  visuals (stopVideoInTree w) = visuals w /\
  set_isPlayingVideo false (STATE (stopVideoInTree w))
  = set_isPlayingVideo false (STATE w) /\
  isPlayingVideo (STATE (stopVideoInTree w))
  = match mode (STATE w) with
    | TREE => false
    | SCATTER => isPlayingVideo (STATE w)
    end.
Proof.
  unfold stopVideoInTree. destruct (mode (STATE w)); [|done].
  now destruct (isPlayingVideo (STATE w)) eqn:Hp.
Qed.

Lemma set_isPlayingVideo_fields (s s' : State) :
  set_isPlayingVideo false s = set_isPlayingVideo false s' ->
  mode s = mode s' /\ handDetected s = handDetected s' /\ handX s = handX s' /\
  gesture s = gesture s' /\ rotationTarget s = rotationTarget s' /\
  videoOpacity s = videoOpacity s'.
Proof.
  intros H. injection H as H1 H2 H3 H4 H5 H6. done.
Qed.

(** The scalars after a tick, from the world before it.  The playing flag
    that steers them is read after step 1: in TREE mode it is down. *)
Lemma animate_scalars (cfg : Config) (f : Frame) (w : World) :
  let s := STATE w in
  let v := visuals w in
  let v' := visuals (animate cfg f w) in
  let playing :=
    match mode s with TREE => false | SCATTER => isPlayingVideo s end in
  audioVolume v' = fadeAudio (if playing then 0 else 0.5) (audioVolume v) /\
  materialOpacity v'
  = lerp (materialOpacity v)
      (if playing then ORIGINAL_PARTICLE_OPACITY * videoParticleDimFactor cfg
       else ORIGINAL_PARTICLE_OPACITY) (videoParticleLerp cfg) /\
  bloomPassStrength v'
  = lerp (bloomPassStrength v)
      (if playing then ORIGINAL_BLOOM_STRENGTH cfg * videoParticleDimFactor cfg
       else ORIGINAL_BLOOM_STRENGTH cfg) (videoParticleLerp cfg) /\
  videoOpacity (STATE (animate cfg f w))
  = lerp (videoOpacity s)
      (match mode s with SCATTER => videoDisplayOpacity cfg | TREE => 0 end)
      0.05 /\
  planeOpacity v' = videoOpacity (STATE (animate cfg f w)) /\
  planeScale v'
  = lerp (planeScale v) (match mode s with SCATTER => 1.8 | TREE => 0 end)
      0.08 /\
  planeBrightness v'
  = lerp (planeBrightness v) (if playing then videoDimFactor cfg else 1)
      (videoDimLerp cfg) /\
  planeZ v'
  = lerp (planeZ v) (match mode s with SCATTER => 0.5 | TREE => -5 end) 0.06 /\
  rotationY v'
  = (if handDetected s then lerp (rotationY v) (rotationY v + handX s * 0.05) 0.1
     else rotationY v + 0.002) /\
  starSize v' = ORIGINAL_STAR_SIZE cfg * (0.8 + sin (time f * 3) * 0.2).
Proof.
  cbn zeta.
  destruct (stopVideoInTree_frame w) as (Hv1 & Hs1 & Hp1).
  set (w1 := stopVideoInTree w) in *.
  set (w2 := blendScene cfg w1).
  destruct (modeEdge_frame (playPermitted f) w2) as (Hv3 & Hs3).
  set (w3 := modeEdge (playPermitted f) w2) in *.
  apply set_isPlayingVideo_fields in Hs1, Hs3.
  destruct Hs1 as (Hm1 & Hd1 & Hx1 & _ & _ & Ho1).
  destruct Hs3 as (Hm3 & Hd3 & Hx3 & _ & _ & Ho3).
  assert (HS : STATE (animate cfg f w) = STATE w3).
  { destruct (animate_control cfg f w) as (HS & _). exact HS. }
  assert (HV : visuals (animate cfg f w)
               = visuals (updateGeometry cfg f
                            (updateRotation (detectStall f (movePlane w3)))))
    by reflexivity.
  rewrite HV, HS.
  unfold updateGeometry, updateRotation.
  cbn [visuals with_geometry with_visuals audioVolume materialOpacity
         bloomPassStrength planeOpacity planeScale planeBrightness planeZ
         rotationY starSize STATE].
  rewrite !detectStall_visuals.
  destruct (detectStall_control f (movePlane w3)) as (-> & _).
  unfold movePlane.
  cbn [visuals with_visuals audioVolume materialOpacity bloomPassStrength
         planeOpacity planeScale planeBrightness planeZ rotationY starSize
         STATE].
  rewrite Hv3, Hm3, Hd3, Hx3, Ho3.
  subst w2. unfold blendScene.
  cbn [visuals with_visuals with_STATE audioVolume materialOpacity
         bloomPassStrength planeOpacity planeScale planeBrightness planeZ
         rotationY starSize STATE set_videoOpacity mode handDetected handX
         videoOpacity].
  rewrite Hv1, Hm1, Hd1, Hx1, Ho1, Hp1.
  repeat split; try reflexivity.
  all: destruct (mode (STATE w)); try reflexivity.
  all: try (replace 0.0 with 0 by lra); try (replace 1.0 with 1 by lra).
  all: reflexivity.
Qed.

Lemma detectPinch_visuals (permitted : bool) (p : R) (w : World) :
  visuals (detectPinch permitted p w) = visuals w /\
  videoOpacity (STATE (detectPinch permitted p w)) = videoOpacity (STATE w).
Proof.
  unfold detectPinch. destruct (lt_num p 0.05); [|done]. cbn.
  destruct (mode (STATE w)); [done|].
  destruct (gt_num _ 0.8); [|done].
  now destruct (negb (isPlayingVideo (STATE w))).
Qed.

(** The gesture callback leaves the scene scalars and the opacity of the
    video plane alone. *)
Lemma onHandsResults_visuals (permitted : bool) (results : Results) (w : World) :
  visuals (world_of (onHandsResults permitted results w)) = visuals w /\
  videoOpacity (STATE (world_of (onHandsResults permitted results w)))
  = videoOpacity (STATE w).
Proof.
  unfold onHandsResults.
  destruct (multiHandLandmarks results) as [[|landmarks rest]|]; try done.
  destruct (landmarks !! 0%nat) as [wrist|]; [|done].
  destruct (avgDistOf landmarks) as [a|]; [|done].
  destruct (pinchDistOf landmarks) as [p|]; cbn [world_of].
  - match goal with
    | |- context [detectPinch ?b ?q ?w0] =>
        destruct (detectPinch_visuals b q w0) as [-> ->]
    end.
    cbn. now rewrite classify_videoOpacity.
  - cbn. now rewrite classify_videoOpacity.
Qed.

Lemma animate_in_range (cfg : Config) (f : Frame) (w : World) :
  config_in_range cfg -> visuals_in_range cfg w ->
  visuals_in_range cfg (animate cfg f w).
Proof.
  unfold config_in_range, visuals_in_range, ORIGINAL_PARTICLE_OPACITY.
  cbn zeta.
  intros (Hl0 & Hl1 & HB & Hd & Hpl & Hvd & Hvl & Hvo)
         (Ha & Hm & Hb & Ho & Hpo & Hs & Hbr & Hz).
  destruct (animate_scalars cfg f w)
    as (-> & -> & -> & HO & -> & -> & -> & -> & _).
  cbn zeta in HO. rewrite HO.
  refine (conj _ (conj _ (conj _ (conj _ (conj _ (conj _ (conj _ _))))))).
  all: try reflexivity.
  all: try (apply fadeAudio_between; [lra|]).
  all: try (apply lerp_between; [lra|lra|]).
  all: destruct (mode (STATE w)); try destruct (isPlayingVideo (STATE w)).
  all: unfold ORIGINAL_PARTICLE_OPACITY; try lra; try nra.
Qed.

(** Every callback keeps the scene scalars within their bounds. *)
Lemma step_in_range (cfg : Config) (e : Event) (w : World) :
  config_in_range cfg -> visuals_in_range cfg w ->
  visuals_in_range cfg (step cfg e w).
Proof.
  intros Hc Hw. destruct e; cbn [step].
  - unfold visuals_in_range in *. cbn zeta in *.
    destruct (onHandsResults_visuals permitted results w) as [-> ->]. exact Hw.
  - now apply animate_in_range.
  - unfold overlayClick. now destruct (started w).
  - unfold visuals_in_range in *. cbn in *. repeat split; try tauto; lra.
  - unfold playFulfilled. now destruct (pendingThen w).
  - exact Hw.
  - exact Hw.
  - exact Hw.
  - exact Hw.
  - exact Hw.
Qed.

(** X1. Whatever callbacks run and in whatever order, the blended scalars
    of the scene stay within the bounds of their targets: the music volume
    in [[0, 1]], the opacity of the video plane in
    [[0, videoDisplayOpacity]], its scale in [[0, 1.8]], its depth in
    [[-5, 0.5]], its brightness between the dim factor and 1, and particle
    opacity and bloom between their dimmed and their original values. *)
Theorem X1_scene_scalars_stay_in_range (cfg : Config) (es : list Event)
  (w : World) :
  config_in_range cfg -> visuals_in_range cfg w ->
  visuals_in_range cfg (run cfg es w).
Proof.
  intros Hc. revert w. induction es as [|e es IH]; intros w Hw; [exact Hw|].
  rewrite run_cons. apply IH. now apply step_in_range.
Qed.

Lemma CONFIG_in_range : config_in_range CONFIG.
Proof. unfold config_in_range. cbn. repeat split; lra. Qed.

(** The page starts with its scalars in range. *)
Lemma initialWorld_in_range (cfg : Config) (random : nat -> R)
  (starBase starScatter : list R) (video : VideoEl) (volume0 t0 : R) :
  config_in_range cfg -> 0 <= volume0 <= 1 ->
  visuals_in_range cfg
    (initialWorld cfg random starBase starScatter video volume0 t0).
Proof.
  unfold config_in_range, visuals_in_range, initialWorld,
    ORIGINAL_PARTICLE_OPACITY.
  intros (Hl0 & Hl1 & HB & Hd & Hpl & Hvd & Hvl & Hvo) Hv.
  cbn [visuals STATE audioVolume materialOpacity bloomPassStrength
         planeOpacity planeScale planeBrightness planeZ videoOpacity STATE0].
  refine (conj _ (conj _ (conj _ (conj _ (conj _ (conj _ (conj _ _))))))).
  all: try reflexivity; try lra; try nra.
Qed.

Lemma pageLoaded_in_range : visuals_in_range CONFIG pageLoaded.
Proof.
  apply initialWorld_in_range; [apply CONFIG_in_range|lra].
Qed.

Lemma X1_scene_scalars_stay_in_range_witness :
  visuals_in_range CONFIG
    (run CONFIG
       [HandsResults true (oneHand openHand); AnimationFrame frame0;
        OverlayClick; OverlayResume true; AnimationFrame frameQuarter]
       pageLoaded).
Proof.
  apply (X1_scene_scalars_stay_in_range CONFIG _ pageLoaded CONFIG_in_range
           pageLoaded_in_range).
Defined.

(** ** The music volume *)

Lemma fadeAudio_fixed (t : R) : fadeAudio t t = t.
Proof.
  unfold fadeAudio. replace (t - t) with 0 by lra. rewrite Rabs_R0.
  assert (H : gt_num 0 0.01 = false) by (apply gt_num_false; lra).
  now rewrite H.
Qed.

(** After [n] fades the volume is on the target, or its distance to the
    target has been scaled [n] times by 0.95. *)
Lemma fadeAudio_iter (t v : R) (n : nat) :
  Nat.iter n (fadeAudio t) v = t \/
  t - Nat.iter n (fadeAudio t) v = 0.95 ^ n * (t - v).
Proof.
  induction n as [|n IH]; [right; cbn; lra|].
  rewrite Nat.iter_succ.
  - destruct IH as [->|IH]; [left; apply fadeAudio_fixed|].
    set (x := Nat.iter n (fadeAudio t) v) in *.
    unfold fadeAudio. destruct (gt_num _ 0.01); [|now left].
    right. cbn [pow]. rewrite Rmult_assoc, <- IH. lra.
Qed.

(** A fade toward a fixed target ends on the target after finitely many
    steps, and stays there. *)
Lemma fadeAudio_settles (t v : R) :
  exists N : nat, forall n : nat,
    (N <= n)%nat -> Nat.iter n (fadeAudio t) v = t.
Proof.
  destruct (Req_dec (t - v) 0) as [H0|H0].
  - exists 0%nat. intros n _. replace v with t by lra.
    induction n as [|n IH]; [done|]. rewrite Nat.iter_succ, IH.
    apply fadeAudio_fixed.
  - assert (Hd : 0 < Rabs (t - v)) by now apply Rabs_pos_lt.
    destruct (pow_lt_1_zero 0.95) with (y := 0.01 / Rabs (t - v)) as [N HN].
    { rewrite Rabs_pos_eq; lra. }
    { apply Rdiv_lt_0_compat; lra. }
    exists (S N). intros n Hn.
    destruct n as [|n]; [lia|]. rewrite Nat.iter_succ.
    destruct (fadeAudio_iter t v n) as [->|Hn']; [apply fadeAudio_fixed|].
    set (x := Nat.iter n (fadeAudio t) v) in *.
    unfold fadeAudio. rewrite Hn'.
    assert (Hsmall : Rabs (0.95 ^ n * (t - v)) <= 0.01).
    { rewrite Rabs_mult.
      specialize (HN n ltac:(lia)).
      apply (Rmult_lt_compat_r (Rabs (t - v))) in HN; [|exact Hd].
      unfold Rdiv in HN. rewrite Rmult_assoc, Rinv_l in HN by lra. lra. }
    apply gt_num_false in Hsmall. now rewrite Hsmall.
Qed.

(** A tick leaves the music target as it is. *)
Lemma animate_musicTarget (cfg : Config) (f : Frame) (w : World) :
  musicTarget (STATE (animate cfg f w)) = musicTarget (STATE w).
Proof.
  unfold musicTarget.
  destruct (animate_control cfg f w) as (-> & _).
  control_cases w; reflexivity.
Qed.

Lemma animate_audioVolume (cfg : Config) (f : Frame) (w : World) :
  audioVolume (visuals (animate cfg f w))
  = fadeAudio (musicTarget (STATE w)) (audioVolume (visuals w)).
Proof.
  destruct (animate_scalars cfg f w) as (-> & _).
  unfold musicTarget. destruct (mode (STATE w)); [done|].
  now destruct (isPlayingVideo (STATE w)).
Qed.

Lemma run_ticks_cons (cfg : Config) (f : Frame) (frames : list Frame)
  (w : World) :
  run cfg (ticks (f :: frames)) w = run cfg (ticks frames) (animate cfg f w).
Proof. reflexivity. Qed.

(** Over frames alone the volume is faded once per frame toward the same
    target. *)
Lemma ticks_audioVolume (cfg : Config) (frames : list Frame) :
  forall w : World,
    musicTarget (STATE (run cfg (ticks frames) w)) = musicTarget (STATE w) /\
    audioVolume (visuals (run cfg (ticks frames) w))
    = Nat.iter (length frames) (fadeAudio (musicTarget (STATE w)))
        (audioVolume (visuals w)).
Proof.
  induction frames as [|f frames IH]; intros w; [done|].
  rewrite run_ticks_cons. destruct (IH (animate cfg f w)) as [-> ->].
  rewrite animate_musicTarget, animate_audioVolume.
  split; [done|]. cbn [length]. now rewrite Nat.iter_succ_r.
Qed.

(** X2. Left to the animation frames alone, the music volume does not
    merely approach its target: after finitely many frames it is exactly
    on it (0 while the video is marked as playing in SCATTER mode, 0.5
    otherwise) and every further frame keeps it there. *)
Theorem X2_music_volume_settles (cfg : Config) (w : World) :
  exists N : nat, forall frames : list Frame,
    (N <= length frames)%nat ->
    audioVolume (visuals (run cfg (ticks frames) w)) = musicTarget (STATE w).
Proof.
  destruct (fadeAudio_settles (musicTarget (STATE w)) (audioVolume (visuals w)))
    as [N HN].
  exists N. intros frames Hlen.
  destruct (ticks_audioVolume cfg frames w) as [_ ->]. now apply HN.
Qed.

Lemma X2_music_volume_settles_witness :
  exists N : nat,
    audioVolume (visuals (run CONFIG (ticks (replicate N frame0)) pageLoaded))
    = musicTarget (STATE pageLoaded).
Proof.
  destruct (X2_music_volume_settles CONFIG pageLoaded) as [N H].
  exists N. apply H. rewrite length_replicate. lia.
Defined.

(** ** The opacity of the video plane *)

Lemma animate_videoOpacity (cfg : Config) (f : Frame) (w : World) :
  videoOpacity (STATE (animate cfg f w))
  = lerp (videoOpacity (STATE w)) (opacityTarget cfg (mode (STATE w))) 0.05.
Proof.
  destruct (animate_scalars cfg f w) as (_ & _ & _ & H & _). exact H.
Qed.

Lemma ticks_videoOpacity (cfg : Config) (frames : list Frame) :
  forall w : World,
    mode (STATE (run cfg (ticks frames) w)) = mode (STATE w) /\
    videoOpacity (STATE (run cfg (ticks frames) w))
    = opacityTarget cfg (mode (STATE w))
      + (videoOpacity (STATE w) - opacityTarget cfg (mode (STATE w)))
        * 0.95 ^ length frames.
Proof.
  induction frames as [|f frames IH]; intros w.
  - split; [done|]. cbn. lra.
  - rewrite run_ticks_cons. destruct (IH (animate cfg f w)) as [-> ->].
    rewrite animate_mode, animate_videoOpacity.
    split; [done|]. unfold lerp. cbn [length pow]. lra.
Qed.

(** X3. Over [n] consecutive animation frames the mode stays as it is and
    the opacity of the video plane moves toward its target (0 in TREE
    mode, [videoDisplayOpacity] in SCATTER mode) so that the remaining
    difference is the initial one times [0.95^n]; it never passes the
    target. *)
Theorem X3_video_opacity_closed_form (cfg : Config) (frames : list Frame)
  (w : World) :
  let w' := run cfg (ticks frames) w in
  let target := opacityTarget cfg (mode (STATE w)) in
  mode (STATE w') = mode (STATE w) /\
  videoOpacity (STATE w')
  = target + (videoOpacity (STATE w) - target) * 0.95 ^ length frames /\
  Rabs (videoOpacity (STATE w') - target)
  <= Rabs (videoOpacity (STATE w) - target) /\
  (videoOpacity (STATE w) <= target -> videoOpacity (STATE w') <= target) /\
  (target <= videoOpacity (STATE w) -> target <= videoOpacity (STATE w')).
Proof.
  cbn zeta. destruct (ticks_videoOpacity cfg frames w) as [Hm Ho].
  assert (Hp : 0 <= 0.95 ^ length frames <= 1).
  { split; [apply pow_le; lra|].
    rewrite <- (pow1 (length frames)). apply pow_incr. lra. }
  split; [exact Hm|]. split; [exact Ho|]. rewrite Ho.
  split; [|split; intros H; nra].
  replace (opacityTarget cfg (mode (STATE w)) +
           (videoOpacity (STATE w) - opacityTarget cfg (mode (STATE w))) *
           0.95 ^ length frames - opacityTarget cfg (mode (STATE w)))
    with ((videoOpacity (STATE w) - opacityTarget cfg (mode (STATE w))) *
          0.95 ^ length frames) by ring.
  rewrite Rabs_mult, (Rabs_pos_eq (0.95 ^ _)) by lra.
  pose proof (Rabs_pos (videoOpacity (STATE w)
                        - opacityTarget cfg (mode (STATE w)))). nra.
Qed.

Lemma X3_video_opacity_closed_form_witness :
  videoOpacity (STATE (run CONFIG (ticks [frame0]) pageLoaded))
  <= opacityTarget CONFIG (mode (STATE pageLoaded)).
Proof.
  destruct (X3_video_opacity_closed_form CONFIG [frame0] pageLoaded)
    as (_ & _ & _ & H & _).
  apply H.
  change (videoOpacity (STATE pageLoaded)) with 0.
  change (opacityTarget CONFIG (mode (STATE pageLoaded))) with 0.
  lra.
Defined.

(** The gesture callback makes no call on the video while the plane is
    at most 0.8 opaque. *)
Lemma onHandsResults_hidden_plane (permitted : bool) (results : Results)
  (w : World) :
  videoOpacity (STATE w) <= 0.8 ->
  calls (world_of (onHandsResults permitted results w)) = calls w /\
  isPlayingVideo (STATE (world_of (onHandsResults permitted results w)))
  = isPlayingVideo (STATE w).
Proof.
  intros Ho. unfold onHandsResults.
  destruct (multiHandLandmarks results) as [[|landmarks rest]|]; try done.
  destruct (landmarks !! 0%nat) as [wrist|]; [|done].
  destruct (avgDistOf landmarks) as [a|]; [|done].
  destruct (pinchDistOf landmarks) as [p|]; cbn [world_of].
  2:{ cbn. now rewrite classify_isPlayingVideo. }
  unfold detectPinch. destruct (lt_num p 0.05).
  2:{ cbn. now rewrite classify_isPlayingVideo. }
  cbn. destruct (mode (classifyOpenClosed a _)).
  { cbn. now rewrite classify_isPlayingVideo. }
  rewrite classify_videoOpacity. cbn.
  apply gt_num_false in Ho. rewrite Ho.
  cbn. now rewrite classify_isPlayingVideo.
Qed.

Lemma pow_fraction_decreasing (x : R) (n m : nat) :
  0 <= x <= 1 -> (n <= m)%nat -> x ^ m <= x ^ n.
Proof.
  intros Hx Hnm. induction Hnm as [|m Hnm IH]; [lra|].
  cbn [pow]. assert (0 <= x ^ m) by (apply pow_le; lra). nra.
Qed.

(** Whatever the callbacks, the opacity is bounded by what a run of
    SCATTER frames from the same start would give. *)
Lemma run_videoOpacity_bound (cfg : Config) (es : list Event) :
  forall w : World,
    0 <= videoDisplayOpacity cfg ->
    videoOpacity (STATE w) <= videoDisplayOpacity cfg ->
    videoOpacity (STATE (run cfg es w))
    <= videoDisplayOpacity cfg
       + (videoOpacity (STATE w) - videoDisplayOpacity cfg)
         * 0.95 ^ frameCount es.
Proof.
  induction es as [|e es IH]; intros w HD Hw.
  - cbn. lra.
  - rewrite run_cons.
    assert (Hstep : videoOpacity (STATE (step cfg e w))
                    <= videoDisplayOpacity cfg /\
                    videoOpacity (STATE (step cfg e w)) - videoDisplayOpacity cfg
                    <= (videoOpacity (STATE w) - videoDisplayOpacity cfg)
                       * (match e with AnimationFrame _ => 0.95 | _ => 1 end)).
    { destruct e; cbn [step].
      - destruct (onHandsResults_visuals permitted results w) as [_ ->]. lra.
      - rewrite animate_videoOpacity. unfold lerp, opacityTarget.
        destruct (mode (STATE w)); split; nra.
      - unfold overlayClick. destruct (started w); cbn; lra.
      - cbn. lra.
      - unfold playFulfilled. destruct (pendingThen w); cbn; lra.
      - cbn. lra.
      - cbn. lra.
      - cbn. lra.
      - cbn. lra.
      - cbn. lra. }
    destruct Hstep as [Hle Hdiff].
    specialize (IH (step cfg e w) HD Hle).
    assert (Hpow : 0 <= 0.95 ^ frameCount es) by (apply pow_le; lra).
    destruct e; cbn [frameCount pow]; nra.
Qed.

(** X4. With the constants of the source, a video plane that is fully
    transparent cannot be made clickable in fewer than 40 animation
    frames: after any run of callbacks that holds at most 39 frames the
    opacity is still at most 0.8, so no gesture callback calls [play()] or
    raises [isPlayingVideo].  Forty consecutive frames in SCATTER mode are
    enough to pass 0.8. *)
Theorem X4_pinch_needs_forty_frames (es : list Event) (frames : list Frame)
  (permitted : bool) (results : Results) (w : World) :
  videoOpacity (STATE w) = 0 ->
  (frameCount es <= 39)%nat ->
  let w' := run CONFIG es w in
  videoOpacity (STATE w') <= 0.8 /\
  calls (world_of (onHandsResults permitted results w')) = calls w' /\
  isPlayingVideo (STATE (world_of (onHandsResults permitted results w')))
  = isPlayingVideo (STATE w') /\
  (mode (STATE w) = SCATTER -> (40 <= length frames)%nat ->
   videoOpacity (STATE (run CONFIG (ticks frames) w)) > 0.8).
Proof.
  intros H0 Hcount. cbn zeta.
  assert (Hle : videoOpacity (STATE (run CONFIG es w)) <= 0.8).
  { pose proof (run_videoOpacity_bound CONFIG es w) as Hb.
    rewrite H0 in Hb. cbn [videoDisplayOpacity CONFIG] in Hb.
    specialize (Hb ltac:(lra) ltac:(lra)).
    pose proof (pow_fraction_decreasing 0.95 (frameCount es) 39
                  ltac:(lra) Hcount) as Hp.
    assert (0.95 ^ 39 >= 0.1305) by lra. lra. }
  split; [exact Hle|].
  destruct (onHandsResults_hidden_plane permitted results (run CONFIG es w) Hle)
    as [Hc Hf].
  split; [exact Hc|]. split; [exact Hf|].
  intros Hm Hlen.
  destruct (ticks_videoOpacity CONFIG frames w) as [_ ->].
  rewrite H0, Hm. cbn [opacityTarget videoDisplayOpacity CONFIG].
  pose proof (pow_fraction_decreasing 0.95 40 (length frames)
                ltac:(lra) Hlen) as Hp.
  assert (0.95 ^ 40 <= 0.129) by lra. lra.
Qed.

Lemma X4_pinch_needs_forty_frames_witness :
  calls (world_of
           (onHandsResults true (oneHand pinchHand)
              (run CONFIG
                 [HandsResults true (oneHand openHand); AnimationFrame frame0;
                  AnimationFrame frameQuarter] pageLoaded)))
  = calls (run CONFIG
             [HandsResults true (oneHand openHand); AnimationFrame frame0;
              AnimationFrame frameQuarter] pageLoaded).
Proof.
  destruct (X4_pinch_needs_forty_frames
              [HandsResults true (oneHand openHand); AnimationFrame frame0;
               AnimationFrame frameQuarter] [] true (oneHand pinchHand)
              pageLoaded eq_refl) as (_ & H & _).
  - cbn. lia.
  - exact H.
Defined.

(** ** The sizes of the attributes *)

Lemma updateParticle_length (cfg : Config) (m : Mode) (time : R) (T : Tables)
  (i : nat) (a : list R) :
  length (updateParticle cfg m time T i a) = length a.
Proof. rewrite updateParticle_shape. apply length_setXYZ. Qed.

Lemma updateStarParticle_length (cfg : Config) (m : Mode) (T : Tables)
  (i : nat) (a : list R) :
  length (updateStarParticle cfg m T i a) = length a.
Proof.
  unfold updateStarParticle. destruct m; apply length_setXYZ.
Qed.

Lemma animate_lengths (cfg : Config) (f : Frame) (w : World) :
  length (positions (geometry (animate cfg f w)))
  = length (positions (geometry w)) /\
  length (spiralPositions (geometry (animate cfg f w)))
  = length (spiralPositions (geometry w)) /\
  length (starPositions (geometry (animate cfg f w)))
  = length (starPositions (geometry w)).
Proof.
  destruct (animate_geometry cfg f w) as (-> & -> & ->).
  rewrite !for_each_index_length; [done| | |]; intros.
  - apply updateStarParticle_length.
  - apply updateSpiralParticle_length.
  - apply updateParticle_length.
Qed.

(** Only the tick writes the geometry. *)
Lemma step_geometry (cfg : Config) (e : Event) (w : World) :
  match e with
  | AnimationFrame _ => True
  | _ => geometry (step cfg e w) = geometry w
  end.
Proof.
  destruct e; cbn [step]; try done.
  - apply onHandsResults_scene.
  - unfold overlayClick. now destruct (started w).
  - unfold playFulfilled. now destruct (pendingThen w).
Qed.

Lemma step_lengths (cfg : Config) (e : Event) (w : World) :
  length (positions (geometry (step cfg e w)))
  = length (positions (geometry w)) /\
  length (spiralPositions (geometry (step cfg e w)))
  = length (spiralPositions (geometry w)) /\
  length (starPositions (geometry (step cfg e w)))
  = length (starPositions (geometry w)).
Proof.
  pose proof (step_geometry cfg e w) as H.
  destruct e; try (rewrite H; done).
  apply animate_lengths.
Qed.

(** X5. No callback ever changes the number of entries of a position
    attribute: after any run of callbacks the main cloud, the spiral band
    and the star hold as many coordinates as before, so a particle index
    keeps denoting the same particle. *)
Theorem X5_attribute_sizes_never_change (cfg : Config) (es : list Event)
  (w : World) :
  length (positions (geometry (run cfg es w)))
  = length (positions (geometry w)) /\
  length (spiralPositions (geometry (run cfg es w)))
  = length (spiralPositions (geometry w)) /\
  length (starPositions (geometry (run cfg es w)))
  = length (starPositions (geometry w)).
Proof.
  revert w. induction es as [|e es IH]; intros w; [done|].
  rewrite run_cons. destruct (IH (step cfg e w)) as (-> & -> & ->).
  apply step_lengths.
Qed.

(** Runs keep the world well formed. *)
Lemma run_wf (cfg : Config) (es : list Event) (w : World) :
  wf_world cfg w -> wf_world cfg (run cfg es w).
Proof.
  unfold wf_world. intros (Hp & Ht & Hs & Hsp & Hsc).
  rewrite run_tables.
  revert w Hp Ht Hs Hsp Hsc.
  induction es as [|e es IH]; intros w Hp Ht Hs Hsp Hsc; [done|].
  rewrite run_cons.
  destruct (step_lengths cfg e w) as (H1 & H2 & _).
  pose proof (step_tables cfg e w) as HT.
  destruct (IH (step cfg e w)) as (? & _ & _ & ? & _); try congruence.
  repeat split; congruence.
Qed.

Lemma run_wf_star (cfg : Config) (es : list Event) (w : World) :
  wf_star w -> wf_star (run cfg es w).
Proof.
  unfold wf_star. intros (Hp & Hb & Hs). rewrite run_tables.
  revert w Hp Hb Hs.
  induction es as [|e es IH]; intros w Hp Hb Hs; [done|].
  rewrite run_cons.
  destruct (step_lengths cfg e w) as (_ & _ & H3).
  pose proof (step_tables cfg e w) as HT.
  destruct (IH (step cfg e w)) as (? & _ & _); try congruence.
  repeat split; congruence.
Qed.

(** ** Convergence of the main cloud and of the star *)

Lemma geometric_vanishes (d q eps : R) :
  Rabs q < 1 -> 0 < eps ->
  exists N : nat, forall n : nat, (N <= n)%nat -> Rabs (d * q ^ n) < eps.
Proof.
  intros Hq He.
  destruct (pow_lt_1_zero q Hq (eps / (Rabs d + 1))) as [N HN].
  { apply Rdiv_lt_0_compat; [lra|]. pose proof (Rabs_pos d). lra. }
  exists N. intros n Hn. specialize (HN n ltac:(lia)).
  pose proof (Rabs_pos d) as Hd. pose proof (Rabs_pos (q ^ n)) as Hp.
  rewrite Rabs_mult.
  apply (Rmult_lt_compat_r (Rabs d + 1)) in HN; [|lra].
  unfold Rdiv in HN. rewrite Rmult_assoc, Rinv_l in HN by lra. nra.
Qed.

(** Over frames in TREE mode every coordinate of the main cloud keeps
    the same target, and its signed distance to it is scaled by
    [1 - lerpSpeed] per frame. *)
Lemma ticks_particle_tree (cfg : Config) (i : nat) (frames : list Frame) :
  forall w : World,
    wf_world cfg w -> (i < particleCount cfg)%nat ->
    mode (STATE w) = TREE ->
    let p := positions (geometry w) in
    let p' := positions (geometry (run cfg (ticks frames) w)) in
    let tree := treePositions (tables w) in
    let q := (1 - lerpSpeed cfg) ^ length frames in
    getX p' i - at_index tree (i * 3) = (getX p i - at_index tree (i * 3)) * q /\
    getY p' i - at_index tree (i * 3 + 1)
    = (getY p i - at_index tree (i * 3 + 1)) * q /\
    getZ p' i - at_index tree (i * 3 + 2)
    = (getZ p i - at_index tree (i * 3 + 2)) * q.
Proof.
  induction frames as [|f frames IH]; intros w Hwf Hi Hm; cbn zeta.
  - cbn. repeat split; lra.
  - rewrite run_ticks_cons.
    destruct (IH (animate cfg f w) (animate_wf cfg f w Hwf) Hi) as (HX & HY & HZ).
    { now rewrite animate_mode. }
    cbn zeta in HX, HY, HZ. rewrite animate_tables in HX, HY, HZ.
    destruct (animate_particle cfg f w i Hwf Hi) as (EX & EY & EZ).
    cbn zeta in EX, EY, EZ. rewrite Hm in EX, EY, EZ.
    unfold particleTarget in EX, EY, EZ. cbn [fst snd] in EX, EY, EZ.
    rewrite HX, HY, HZ, EX, EY, EZ. unfold lerp. cbn [length pow].
    repeat split; ring.
Qed.

(** X6. In TREE mode the main cloud converges to the tree.  Over [n]
    consecutive frames the signed distance of every coordinate of every
    particle to its entry of [treePositions] is multiplied by
    [(1 - lerpSpeed)^n]; so a particle that is on its entry stays there,
    and with [lerpSpeed] in [(0, 1]] every particle comes within any given
    distance of its entry after enough frames. *)
Theorem X6_main_cloud_converges_to_tree (cfg : Config) (i : nat) (w : World) :
  wf_world cfg w -> (i < particleCount cfg)%nat -> mode (STATE w) = TREE ->
  let p := positions (geometry w) in
  let tree := treePositions (tables w) in
  (forall frames : list Frame,
     let p' := positions (geometry (run cfg (ticks frames) w)) in
     let q := (1 - lerpSpeed cfg) ^ length frames in
     getX p' i - at_index tree (i * 3) = (getX p i - at_index tree (i * 3)) * q /\
     getY p' i - at_index tree (i * 3 + 1)
     = (getY p i - at_index tree (i * 3 + 1)) * q /\
     getZ p' i - at_index tree (i * 3 + 2)
     = (getZ p i - at_index tree (i * 3 + 2)) * q) /\
  (0 < lerpSpeed cfg <= 1 ->
   forall eps : R, 0 < eps ->
   exists N : nat, forall frames : list Frame,
     (N <= length frames)%nat ->
     let p' := positions (geometry (run cfg (ticks frames) w)) in
     Rabs (getX p' i - at_index tree (i * 3)) < eps /\
     Rabs (getY p' i - at_index tree (i * 3 + 1)) < eps /\
     Rabs (getZ p' i - at_index tree (i * 3 + 2)) < eps).
Proof.
  intros Hwf Hi Hm p tree.
  split; [intros frames; now apply ticks_particle_tree|].
  intros Hf eps He.
  assert (Hq : Rabs (1 - lerpSpeed cfg) < 1) by (apply Rabs_def1; lra).
  destruct (geometric_vanishes (getX p i - at_index tree (i * 3))
              (1 - lerpSpeed cfg) eps Hq He) as [NX HNX].
  destruct (geometric_vanishes (getY p i - at_index tree (i * 3 + 1))
              (1 - lerpSpeed cfg) eps Hq He) as [NY HNY].
  destruct (geometric_vanishes (getZ p i - at_index tree (i * 3 + 2))
              (1 - lerpSpeed cfg) eps Hq He) as [NZ HNZ].
  exists (Nat.max NX (Nat.max NY NZ)). intros frames Hlen.
  destruct (ticks_particle_tree cfg i frames w Hwf Hi Hm) as (HX & HY & HZ).
  cbn zeta in *. fold p tree in HX, HY, HZ. rewrite HX, HY, HZ.
  repeat split; [apply HNX|apply HNY|apply HNZ]; lia.
Qed.

Lemma X6_main_cloud_converges_to_tree_witness :
  getY (positions (geometry (run CONFIG (ticks [frame0; frameQuarter])
                               pageLoaded))) 7
  - at_index (treePositions (tables pageLoaded)) (7 * 3 + 1)
  = (getY (positions (geometry pageLoaded)) 7
     - at_index (treePositions (tables pageLoaded)) (7 * 3 + 1))
    * (1 - lerpSpeed CONFIG) ^ 2.
Proof.
  destruct (X6_main_cloud_converges_to_tree CONFIG 7 pageLoaded pageLoaded_wf)
    as [H _].
  - cbn. lia.
  - reflexivity.
  - destruct (H [frame0; frameQuarter]) as (_ & HY & _). exact HY.
Defined.

(** ** Who writes which field of the session state *)

(** The tick writes neither the gesture nor the hand fields. *)
Lemma animate_hand_fields (cfg : Config) (f : Frame) (w : World) :
  gesture (STATE (animate cfg f w)) = gesture (STATE w) /\
  handDetected (STATE (animate cfg f w)) = handDetected (STATE w) /\
  handX (STATE (animate cfg f w)) = handX (STATE w) /\
  rotationTarget (STATE (animate cfg f w)) = rotationTarget (STATE w).
Proof.
  destruct (animate_control cfg f w) as (-> & _).
  control_cases w; repeat split.
Qed.

Lemma step_hand_fields (cfg : Config) (e : Event) (w : World) :
  match e with
  | HandsResults _ _ => True
  | _ =>
      mode (STATE (step cfg e w)) = mode (STATE w) /\
      gesture (STATE (step cfg e w)) = gesture (STATE w) /\
      handDetected (STATE (step cfg e w)) = handDetected (STATE w) /\
      handX (STATE (step cfg e w)) = handX (STATE w)
  end.
Proof.
  destruct e; cbn [step]; try done.
  - split; [apply animate_mode|].
    destruct (animate_hand_fields cfg f w) as (? & ? & ? & _). done.
  - unfold overlayClick. now destruct (started w).
  - unfold playFulfilled. now destruct (pendingThen w).
Qed.

Lemma classify_rotationTarget (a : R) (s : State) :
  rotationTarget (classifyOpenClosed a s) = rotationTarget s.
Proof.
  unfold classifyOpenClosed.
  destruct (lt_num a 0.25); [done|]. now destruct (gt_num a 0.35).
Qed.

Lemma detectPinch_rotationTarget (permitted : bool) (p : R) (w : World) :
  rotationTarget (STATE (detectPinch permitted p w)) = rotationTarget (STATE w).
Proof.
  unfold detectPinch. destruct (lt_num p 0.05); [|done]. cbn.
  destruct (mode (STATE w)); [done|].
  destruct (gt_num _ 0.8); [|done].
  now destruct (negb (isPlayingVideo (STATE w))).
Qed.

Lemma step_rotationTarget (cfg : Config) (e : Event) (w : World) :
  rotationTarget (STATE (step cfg e w)) = rotationTarget (STATE w).
Proof.
  destruct e; cbn [step]; try done.
  - unfold onHandsResults.
    destruct (multiHandLandmarks results) as [[|landmarks rest]|]; try done.
    destruct (landmarks !! 0%nat) as [wrist|]; [|done].
    destruct (avgDistOf landmarks) as [a|]; [|done].
    destruct (pinchDistOf landmarks) as [p|]; cbn [world_of].
    + rewrite detectPinch_rotationTarget. cbn.
      now rewrite classify_rotationTarget.
    + cbn. now rewrite classify_rotationTarget.
  - apply animate_hand_fields.
  - unfold overlayClick. now destruct (started w).
  - unfold playFulfilled. now destruct (pendingThen w).
Qed.

(** X7. The mode, the gesture and the hand fields are written by the
    gesture callback alone: over any run without gesture callbacks
    (frames, overlay click, promise and media callbacks) [mode],
    [gesture], [handDetected] and [handX] keep their values.  The field
    [rotationTarget] is written by no callback at all. *)
Theorem X7_only_gestures_write_mode (cfg : Config) (es : list Event)
  (w : World) :
  (gestureFree es = true ->
   mode (STATE (run cfg es w)) = mode (STATE w) /\
   gesture (STATE (run cfg es w)) = gesture (STATE w) /\
   handDetected (STATE (run cfg es w)) = handDetected (STATE w) /\
   handX (STATE (run cfg es w)) = handX (STATE w)) /\
  rotationTarget (STATE (run cfg es w)) = rotationTarget (STATE w).
Proof.
  revert w. induction es as [|e es IH]; intros w; [done|].
  rewrite run_cons. destruct (IH (step cfg e w)) as [IH1 IH2].
  split.
  - intros Hfree. pose proof (step_hand_fields cfg e w) as Hstep.
    destruct e; try discriminate Hfree;
      destruct Hstep as (<- & <- & <- & <-); now apply IH1.
  - now rewrite IH2, step_rotationTarget.
Qed.

Lemma X7_only_gestures_write_mode_witness :
  mode (STATE (run CONFIG
                 [OverlayClick; OverlayResume true; AnimationFrame frame0;
                  VideoPlaying; AnimationFrame frameQuarter; VideoPause]
                 scatterShown)) = SCATTER.
Proof.
  destruct (X7_only_gestures_write_mode CONFIG
              [OverlayClick; OverlayResume true; AnimationFrame frame0;
               VideoPlaying; AnimationFrame frameQuarter; VideoPause]
              scatterShown) as [H _].
  destruct (H eq_refl) as [Hm _]. rewrite Hm. reflexivity.
Defined.

(** ** The first frames of the session *)

Lemma lerp_same (t f : R) : lerp t t f = t.
Proof. unfold lerp. ring. Qed.

(** A frame in TREE mode leaves a cloud that is on the tree on the tree. *)
Lemma animate_onTree (cfg : Config) (f : Frame) (w : World) :
  wf_world cfg w -> mode (STATE w) = TREE -> onTree cfg w ->
  onTree cfg (animate cfg f w).
Proof.
  intros Hwf Hm Hon i Hi. rewrite animate_tables.
  destruct (animate_particle cfg f w i Hwf Hi) as (EX & EY & EZ).
  cbn zeta in EX, EY, EZ. rewrite Hm in EX, EY, EZ.
  unfold particleTarget in EX, EY, EZ. cbn [fst snd] in EX, EY, EZ.
  destruct (Hon i Hi) as (HX & HY & HZ).
  rewrite EX, EY, EZ, HX, HY, HZ, !lerp_same. done.
Qed.

Lemma run_onTree (cfg : Config) (es : list Event) :
  forall w : World,
    gestureFree es = true ->
    wf_world cfg w -> mode (STATE w) = TREE -> onTree cfg w ->
    mode (STATE (run cfg es w)) = TREE /\ onTree cfg (run cfg es w).
Proof.
  induction es as [|e es IH]; intros w Hfree Hwf Hm Hon; [done|].
  rewrite run_cons.
  assert (Hstep : gestureFree es = true /\ wf_world cfg (step cfg e w) /\
                  mode (STATE (step cfg e w)) = TREE /\
                  onTree cfg (step cfg e w)).
  { pose proof (step_hand_fields cfg e w) as Hh.
    pose proof (step_geometry cfg e w) as Hg.
    pose proof (step_tables cfg e w) as HT.
    pose proof (run_wf cfg [e] w Hwf) as Hwf'.
    change (run cfg [e] w) with (step cfg e w) in Hwf'.
    destruct e; try discriminate Hfree; cbn [gestureFree] in Hfree;
      destruct Hh as (Hm' & _);
      (split; [exact Hfree|split; [exact Hwf'|split; [congruence|]]]).
    1: now apply animate_onTree.
    all: unfold onTree; rewrite Hg, HT; exact Hon. }
  destruct Hstep as (Hfree' & Hwf' & Hm' & Hon').
  now apply IH.
Qed.

(** X8. From page load until the first gesture callback the main cloud
    does not move: the start-up loop puts every particle on its tree
    entry, the mode starts as TREE, and no frame, overlay click or media
    callback takes a particle off its entry. *)
Theorem X8_tree_at_rest_until_first_gesture (cfg : Config) (random : nat -> R)
  (starBase starScatter : list R) (video : VideoEl) (volume0 t0 : R)
  (es : list Event) (i : nat) :
  gestureFree es = true ->
  (i < particleCount cfg)%nat ->
  let w0 := initialWorld cfg random starBase starScatter video volume0 t0 in
  let w := run cfg es w0 in
  mode (STATE w) = TREE /\
  getX (positions (geometry w)) i = getX (positions (geometry w0)) i /\
  getY (positions (geometry w)) i = getY (positions (geometry w0)) i /\
  getZ (positions (geometry w)) i = getZ (positions (geometry w0)) i /\
  getX (positions (geometry w)) i = at_index (treePositions (tables w0)) (i * 3).
Proof.
  intros Hfree Hi w0 w.
  assert (Hon0 : onTree cfg w0).
  { intros j Hj. subst w0. unfold initialWorld.
    cbn [geometry tables positions treePositions].
    destruct (initParticles_shape cfg random (particleCount cfg))
      as (_ & _ & _ & Hp).
    cbn zeta in Hp. rewrite Hp. done. }
  destruct (run_onTree cfg es w0 Hfree) as [Hm Hon];
    [apply initialWorld_wf|reflexivity|exact Hon0|].
  fold w in Hm, Hon.
  destruct (Hon i Hi) as (HX & HY & HZ). destruct (Hon0 i Hi) as (HX0 & HY0 & HZ0).
  assert (HT : tables w = tables w0) by apply run_tables.
  rewrite HT in HX, HY, HZ.
  split; [exact Hm|]. repeat split; congruence.
Qed.

Lemma X8_tree_at_rest_until_first_gesture_witness :
  getY (positions (geometry
                     (run CONFIG
                        [AnimationFrame frame0; OverlayClick;
                         OverlayResume true; AnimationFrame frameQuarter]
                        pageLoaded))) 0
  = getY (positions (geometry pageLoaded)) 0.
Proof.
  destruct (X8_tree_at_rest_until_first_gesture CONFIG sampleRandom
              (replicate (STAR_PARTICLE_COUNT * 3) 0)
              (replicate (STAR_PARTICLE_COUNT * 3) 0) video0 1 0
              [AnimationFrame frame0; OverlayClick; OverlayResume true;
               AnimationFrame frameQuarter] 0 eq_refl)
    as (_ & _ & HY & _).
  - cbn. lia.
  - exact HY.
Defined.

(** ** The star *)

Lemma updateStarParticle_shape (cfg : Config) (m : Mode) (T : Tables)
  (i : nat) (a : list R) :
  updateStarParticle cfg m T i a
  = setXYZ i
      (lerp (getX a i) (at_index (starTable m T) (i * 3)) (lerpSpeed cfg * 2))
      (lerp (getY a i) (at_index (starTable m T) (i * 3 + 1))
         (lerpSpeed cfg * 2))
      (lerp (getZ a i) (at_index (starTable m T) (i * 3 + 2))
         (lerpSpeed cfg * 2)) a.
Proof.
  unfold updateStarParticle, starTable.
  replace (lerpSpeed cfg * 2.0) with (lerpSpeed cfg * 2) by lra.
  now destruct m.
Qed.

(** Where a tick puts star particle [i]. *)
Lemma animate_star_particle (cfg : Config) (f : Frame) (w : World) (i : nat) :
  wf_star w -> (i < STAR_PARTICLE_COUNT)%nat ->
  let p := starPositions (geometry w) in
  let p' := starPositions (geometry (animate cfg f w)) in
  let table := starTable (mode (STATE w)) (tables w) in
  getX p' i = lerp (getX p i) (at_index table (i * 3)) (lerpSpeed cfg * 2) /\
  getY p' i = lerp (getY p i) (at_index table (i * 3 + 1)) (lerpSpeed cfg * 2) /\
  getZ p' i = lerp (getZ p i) (at_index table (i * 3 + 2)) (lerpSpeed cfg * 2).
Proof.
  intros (Hlen & _) Hi. cbn zeta.
  destruct (animate_geometry cfg f w) as (_ & _ & ->).
  rewrite (for_each_index_ext _ _ _ _
             (updateStarParticle_shape cfg (mode (STATE w)) (tables w))).
  destruct (for_each_index_particles
    (fun i b => lerp (getX b i)
                  (at_index (starTable (mode (STATE w)) (tables w)) (i * 3))
                  (lerpSpeed cfg * 2))
    (fun i b => lerp (getY b i)
                  (at_index (starTable (mode (STATE w)) (tables w)) (i * 3 + 1))
                  (lerpSpeed cfg * 2))
    (fun i b => lerp (getZ b i)
                  (at_index (starTable (mode (STATE w)) (tables w)) (i * 3 + 2))
                  (lerpSpeed cfg * 2)))
    with (n := STAR_PARTICLE_COUNT) (a := starPositions (geometry w))
    as (_ & Hin & _).
  - intros j b b' Hk. unfold getX, getY, getZ.
    rewrite !(Hk (j * 3)%nat), !(Hk (j * 3 + 1)%nat), !(Hk (j * 3 + 2)%nat)
      by lia.
    done.
  - lia.
  - exact (Hin i Hi).
Qed.

Lemma animate_wf_star (cfg : Config) (f : Frame) (w : World) :
  wf_star w -> wf_star (animate cfg f w).
Proof.
  intros H. pose proof (run_wf_star cfg [AnimationFrame f] w H) as H'.
  exact H'.
Qed.

Lemma ticks_star_particle (cfg : Config) (i : nat) (frames : list Frame) :
  forall w : World,
    wf_star w -> (i < STAR_PARTICLE_COUNT)%nat ->
    let p := starPositions (geometry w) in
    let p' := starPositions (geometry (run cfg (ticks frames) w)) in
    let table := starTable (mode (STATE w)) (tables w) in
    let q := (1 - lerpSpeed cfg * 2) ^ length frames in
    getX p' i - at_index table (i * 3)
    = (getX p i - at_index table (i * 3)) * q /\
    getY p' i - at_index table (i * 3 + 1)
    = (getY p i - at_index table (i * 3 + 1)) * q /\
    getZ p' i - at_index table (i * 3 + 2)
    = (getZ p i - at_index table (i * 3 + 2)) * q.
Proof.
  induction frames as [|f frames IH]; intros w Hwf Hi; cbn zeta.
  - cbn. repeat split; lra.
  - rewrite run_ticks_cons.
    destruct (IH (animate cfg f w) (animate_wf_star cfg f w Hwf) Hi)
      as (HX & HY & HZ).
    cbn zeta in HX, HY, HZ.
    rewrite animate_tables, animate_mode in HX, HY, HZ.
    destruct (animate_star_particle cfg f w i Hwf Hi) as (EX & EY & EZ).
    cbn zeta in EX, EY, EZ.
    rewrite HX, HY, HZ, EX, EY, EZ. unfold lerp. cbn [length pow].
    repeat split; ring.
Qed.

(** X9. The star blends twice as fast as the main cloud, and toward a
    target that does not move: over [n] consecutive frames the signed
    distance of every coordinate of a star particle to its entry of the
    table of the mode (the assembled star in TREE mode, the scatter table
    in SCATTER mode) is multiplied by [(1 - 2 * lerpSpeed)^n]; with
    [2 * lerpSpeed] in [[0, 1]] no frame takes it farther from the
    entry. *)
Theorem X9_star_blends_twice_as_fast (cfg : Config) (i : nat)
  (frames : list Frame) (w : World) :
  wf_star w -> (i < STAR_PARTICLE_COUNT)%nat ->
  let p := starPositions (geometry w) in
  let p' := starPositions (geometry (run cfg (ticks frames) w)) in
  let table := starTable (mode (STATE w)) (tables w) in
  let q := (1 - lerpSpeed cfg * 2) ^ length frames in
  (getX p' i - at_index table (i * 3)
   = (getX p i - at_index table (i * 3)) * q /\
   getY p' i - at_index table (i * 3 + 1)
   = (getY p i - at_index table (i * 3 + 1)) * q /\
   getZ p' i - at_index table (i * 3 + 2)
   = (getZ p i - at_index table (i * 3 + 2)) * q) /\
  (0 <= lerpSpeed cfg * 2 <= 1 ->
   Rabs (getX p' i - at_index table (i * 3))
   <= Rabs (getX p i - at_index table (i * 3)) /\
   Rabs (getY p' i - at_index table (i * 3 + 1))
   <= Rabs (getY p i - at_index table (i * 3 + 1)) /\
   Rabs (getZ p' i - at_index table (i * 3 + 2))
   <= Rabs (getZ p i - at_index table (i * 3 + 2))).
Proof.
  intros Hwf Hi. cbn zeta.
  destruct (ticks_star_particle cfg i frames w Hwf Hi) as (HX & HY & HZ).
  cbn zeta in HX, HY, HZ.
  split; [done|]. intros Hf.
  assert (Hq : 0 <= (1 - lerpSpeed cfg * 2) ^ length frames <= 1).
  { split; [apply pow_le; lra|].
    apply Rle_trans with (1 ^ length frames); [apply pow_incr; lra|].
    rewrite pow1. lra. }
  rewrite HX, HY, HZ, !Rabs_mult.
  rewrite (Rabs_pos_eq ((1 - lerpSpeed cfg * 2) ^ length frames)) by lra.
  pose proof (Rabs_pos (getX (starPositions (geometry w)) i
    - at_index (starTable (mode (STATE w)) (tables w)) (i * 3))).
  pose proof (Rabs_pos (getY (starPositions (geometry w)) i
    - at_index (starTable (mode (STATE w)) (tables w)) (i * 3 + 1))).
  pose proof (Rabs_pos (getZ (starPositions (geometry w)) i
    - at_index (starTable (mode (STATE w)) (tables w)) (i * 3 + 2))).
  repeat split; nra.
Qed.

Lemma pageLoaded_wf_star : wf_star pageLoaded.
Proof.
  unfold wf_star, pageLoaded, initialWorld.
  cbn [geometry tables starPositions starBasePositions starScatterPositions].
  now rewrite length_replicate.
Qed.

Lemma X9_star_blends_twice_as_fast_witness :
  Rabs (getY (starPositions
                (geometry (run CONFIG (ticks [frame0; frameQuarter])
                             scatterShown))) 3
        - at_index (starTable SCATTER (tables scatterShown)) (3 * 3 + 1))
  <= Rabs (getY (starPositions (geometry scatterShown)) 3
           - at_index (starTable SCATTER (tables scatterShown)) (3 * 3 + 1)).
Proof.
  destruct (X9_star_blends_twice_as_fast CONFIG 3 [frame0; frameQuarter]
              scatterShown pageLoaded_wf_star) as [_ H].
  - unfold STAR_PARTICLE_COUNT. lia.
  - destruct H as (_ & HY & _); [cbn; lra|]. exact HY.
Defined.

(** ** The tree shape *)

(** X10. Every tree target of the main cloud lies on the cone: with
    draws in [[0, 1)] and a positive [treeHeight], particle [i] is at height
    [u * treeHeight - treeHeight / 2] in [[-treeHeight/2, treeHeight/2)]
    for its first draw [u], and at distance [(1 - u) * treeRadius] from
    the axis, which shrinks linearly from [treeRadius] at the base to 0 at
    the apex; the live position starts on that target. *)
Theorem X10_tree_targets_on_cone (cfg : Config) (random : nat -> R)
  (starBase starScatter : list R) (video : VideoEl) (volume0 t0 : R) (i : nat) :
  0 < treeHeight cfg -> 0 <= treeRadius cfg ->
  (forall k, 0 <= random k < 1) ->
  (i < particleCount cfg)%nat ->
  let w := initialWorld cfg random starBase starScatter video volume0 t0 in
  let T := treePositions (tables w) in
  let u := random (i * 6)%nat in
  let r := (1 - u) * treeRadius cfg in
  getY T i = u * treeHeight cfg - treeHeight cfg / 2 /\
  - (treeHeight cfg / 2) <= getY T i < treeHeight cfg / 2 /\
  sqrt (getX T i * getX T i + getZ T i * getZ T i) = r /\
  r = treeRadius cfg * (treeHeight cfg / 2 - getY T i) / treeHeight cfg /\
  0 <= r <= treeRadius cfg /\
  positions (geometry w) = T.
Proof.
  intros HH HR Hrand Hi w T u r.
  destruct (initParticles_coordinates cfg random (particleCount cfg) i Hi)
    as (_ & _ & _ & HX & HY & HZ).
  destruct (initParticles_shape cfg random (particleCount cfg))
    as (_ & _ & _ & Hp).
  cbn zeta in HX, HY, HZ, Hp.
  change (cloud_tree (initParticles cfg random (particleCount cfg)))
    with T in HX, HY, HZ.
  unfold treePoint in HX, HY, HZ. cbn [fst snd] in HX, HY, HZ.
  fold u in HX, HY, HZ.
  assert (Hnorm : (u * treeHeight cfg - treeHeight cfg / 2 + treeHeight cfg / 2)
                  / treeHeight cfg = u) by (field; lra).
  rewrite Hnorm in HX, HZ. fold r in HX, HZ.
  destruct (Hrand (i * 6)%nat) as [Hu0 Hu1]. fold u in Hu0, Hu1.
  assert (Hr : 0 <= r <= treeRadius cfg) by (subst r; split; nra).
  split; [exact HY|]. split; [rewrite HY; split; nra|].
  split.
  { rewrite HX, HZ.
    set (a := random (i * 6 + 1)%nat * PI * 2
              + (u * treeHeight cfg - treeHeight cfg / 2) * 2).
    replace (cos a * r * (cos a * r) + sin a * r * (sin a * r))
      with (Rsqr r * (Rsqr (sin a) + Rsqr (cos a))) by (unfold Rsqr; ring).
    rewrite sin2_cos2, Rmult_1_r. apply sqrt_Rsqr. tauto. }
  split; [rewrite HY; subst r; field; lra|].
  split; [exact Hr|].
  subst w T. unfold initialWorld. cbn [geometry tables positions treePositions].
  exact Hp.
Qed.

Lemma X10_tree_targets_on_cone_witness :
  getY (treePositions (tables pageLoaded)) 5
  = sampleRandom (5 * 6) * treeHeight CONFIG - treeHeight CONFIG / 2.
Proof.
  destruct (X10_tree_targets_on_cone CONFIG sampleRandom
              (replicate (STAR_PARTICLE_COUNT * 3) 0)
              (replicate (STAR_PARTICLE_COUNT * 3) 0) video0 1 0 5)
    as (H & _).
  - cbn. lra.
  - cbn. lra.
  - exact sampleRandom_range.
  - cbn. lia.
  - exact H.
Defined.

(** ** The spiral band *)

(** The three coordinates just pushed to an array of [n] particles. *)
Lemma at_index_pushed (l : list R) (n : nat) (x y z : R) :
  length l = (n * 3)%nat ->
  at_index (l ++ [x; y; z]) (n * 3) = x /\
  at_index (l ++ [x; y; z]) (n * 3 + 1) = y /\
  at_index (l ++ [x; y; z]) (n * 3 + 2) = z.
Proof.
  intros <-. rewrite <- (Nat.add_0_r (length l)) at 1.
  now rewrite !at_index_app_r.
Qed.

Section SpiralFacts.
Variable cfg : Config.
Variable random : nat -> R.

Lemma initSpiral_draws (first n : nat) :
  spiral_draws (initSpiral cfg random first n) = (first + n * 3)%nat.
Proof.
  induction n as [|n IH]; [cbn; lia|].
  rewrite initSpiral_S. unfold initSpiralParticle.
  cbn [spiral_draws]. rewrite IH. lia.
Qed.

(** Particle [i] of the spiral: its start position on the helix and its
    scatter coordinates from the three draws of its iteration. *)
Lemma initSpiral_entries (first n i : nat) :
  (i < n)%nat ->
  let s := initSpiral cfg random first n in
  let pct := INR i / INR (spiralCount cfg) in
  let r := (1 - pct) * treeRadius cfg * 1.15 + 0.2 in
  let angle := pct * PI * 2 * spiralTurns cfg in
  let k := (first + i * 3)%nat in
  let sr := scatterRadius cfg * cbrt (random k) in
  let theta := random (k + 1)%nat * PI * 2 in
  let phi := acos (2 * random (k + 2)%nat - 1) in
  getX (spiral_positions s) i = cos angle * r /\
  getY (spiral_positions s) i = pct * treeHeight cfg - treeHeight cfg / 2 /\
  getZ (spiral_positions s) i = sin angle * r /\
  getX (spiral_scatter s) i = sr * sin phi * cos theta /\
  getY (spiral_scatter s) i = sr * sin phi * sin theta /\
  getZ (spiral_scatter s) i = sr * cos phi.
Proof.
  induction n as [|n IH]; intros Hi; [lia|].
  cbn zeta. rewrite initSpiral_S.
  destruct (initSpiral_shape cfg random first n) as (Hp & Hs).
  cbn zeta in Hp, Hs.
  unfold initSpiralParticle. cbn [spiral_positions spiral_scatter].
  rewrite initSpiral_draws.
  unfold getX, getY, getZ.
  destruct (decide (i = n)) as [->|Hne].
  - match goal with
    | |- context [spiral_positions ?s ++ [?x; ?y; ?z]] =>
        destruct (at_index_pushed (spiral_positions s) n x y z Hp)
          as (-> & -> & ->)
    end.
    match goal with
    | |- context [spiral_scatter ?s ++ [?x; ?y; ?z]] =>
        destruct (at_index_pushed (spiral_scatter s) n x y z Hs)
          as (-> & -> & ->)
    end.
    done.
  - specialize (IH ltac:(lia)). cbn zeta in IH.
    unfold getX, getY, getZ in IH.
    rewrite !at_index_app_l by lia. exact IH.
Qed.
End SpiralFacts.

Lemma trunc_zero : trunc 0 = 0.
Proof.
  unfold trunc. destruct (Rle_dec 0 0) as [_|H]; [|lra].
  assert (Hup : up 0 = 1%Z) by (symmetry; apply tech_up; lra).
  unfold Int_part. rewrite Hup. reflexivity.
Qed.

Lemma rem_zero (b : R) : rem 0 b = 0.
Proof.
  unfold rem. replace (0 / b) with 0 by (unfold Rdiv; ring).
  rewrite trunc_zero. ring.
Qed.

(** The spiral position in TREE mode at elapsed time zero. *)
Lemma spiralPoint_time_zero (cfg : Config) (coords : list R) (i : nat) :
  0 < treeHeight cfg -> (i < spiralCount cfg)%nat ->
  let pct := INR i / INR (spiralCount cfg) in
  spiralPoint cfg TREE 0 coords i
  = (cos (pct * PI * 2 * spiralTurns cfg)
     * ((1 - pct) * treeRadius cfg * 1.15 + 0.2),
     pct * treeHeight cfg - treeHeight cfg / 2,
     sin (pct * PI * 2 * spiralTurns cfg)
     * ((1 - pct) * treeRadius cfg * 1.15 + 0.2)).
Proof.
  intros HH Hi. cbn zeta. unfold spiralPoint.
  rewrite Rmult_0_l, rem_zero, !Rplus_0_r.
  destruct (pct_unit_range i (spiralCount cfg) Hi) as [Hp0 Hp1].
  set (pct := INR i / INR (spiralCount cfg)) in *.
  assert (Hgt : gt_num (pct * treeHeight cfg - treeHeight cfg / 2)
                  (treeHeight cfg / 2) = false)
    by (apply gt_num_false; nra).
  rewrite Hgt.
  replace ((pct * treeHeight cfg - treeHeight cfg / 2 + treeHeight cfg / 2)
           / treeHeight cfg) with pct by (field; lra).
  reflexivity.
Qed.

(** The spiral particle after a tick is [spiralPoint] of the frame. *)
Lemma animate_spiral_particle (cfg : Config) (f : Frame) (w : World) (i : nat) :
  wf_world cfg w -> (i < spiralCount cfg)%nat ->
  let p' := spiralPositions (geometry (animate cfg f w)) in
  let pt :=
    spiralPoint cfg (mode (STATE w)) (time f) (spiralScatterCoords (tables w)) i in
  getX p' i = fst (fst pt) /\ getY p' i = snd (fst pt) /\ getZ p' i = snd pt.
Proof.
  intros (_ & _ & _ & Hlen & _) Hi. cbn zeta.
  destruct (animate_geometry cfg f w) as (_ & -> & _).
  apply updateSpiral_spec; [lia|exact Hi].
Qed.

(** X11. A frame at elapsed time zero leaves the spiral band where the
    start-up loop put it: in TREE mode the flowing formula of the tick,
    taken at time 0, gives back the helix of start-up for every spiral
    particle. *)
Theorem X11_spiral_starts_on_its_helix (cfg : Config) (random : nat -> R)
  (starBase starScatter : list R) (video : VideoEl) (volume0 t0 : R)
  (f : Frame) (i : nat) :
  0 < treeHeight cfg -> (i < spiralCount cfg)%nat -> time f = 0 ->
  let w0 := initialWorld cfg random starBase starScatter video volume0 t0 in
  let p := spiralPositions (geometry w0) in
  let p' := spiralPositions (geometry (animate cfg f w0)) in
  getX p' i = getX p i /\ getY p' i = getY p i /\ getZ p' i = getZ p i.
Proof.
  intros HH Hi Ht w0 p p'.
  destruct (animate_spiral_particle cfg f w0 i) as (HX & HY & HZ);
    [apply initialWorld_wf|exact Hi|].
  cbn zeta in HX, HY, HZ. fold p' in HX, HY, HZ.
  change (mode (STATE w0)) with TREE in HX, HY, HZ.
  rewrite Ht, spiralPoint_time_zero in HX, HY, HZ by done.
  cbn [fst snd] in HX, HY, HZ.
  destruct (initSpiral_entries cfg random
              (cloud_draws (initParticles cfg random (particleCount cfg)))
              (spiralCount cfg) i Hi) as (EX & EY & EZ & _).
  cbn zeta in EX, EY, EZ.
  subst p. unfold w0, initialWorld. cbn [geometry spiralPositions].
  rewrite EX, EY, EZ, HX, HY, HZ. done.
Qed.

Lemma X11_spiral_starts_on_its_helix_witness :
  getY (spiralPositions
          (geometry (animate CONFIG
                       {| time := 0; now := 0; currentTime := 0;
                          playPermitted := true |} pageLoaded))) 9
  = getY (spiralPositions (geometry pageLoaded)) 9.
Proof.
  destruct (X11_spiral_starts_on_its_helix CONFIG sampleRandom
              (replicate (STAR_PARTICLE_COUNT * 3) 0)
              (replicate (STAR_PARTICLE_COUNT * 3) 0) video0 1 0
              {| time := 0; now := 0; currentTime := 0; playPermitted := true |}
              9) as (_ & HY & _).
  - cbn. lra.
  - cbn. lia.
  - reflexivity.
  - exact HY.
Defined.

(** The remainder does not see whole periods. *)
Lemma rem_add_period (a b : R) :
  0 <= a -> 0 < b -> rem (a + b) b = rem a b.
Proof.
  intros Ha Hb.
  destruct (rem_nonneg a b Ha Hb) as [Hr [k Hk]].
  destruct (rem_nonneg (a + b) b ltac:(lra) Hb) as [Hr' [k' Hk']].
  set (r := rem a b) in *. set (r' := rem (a + b) b) in *.
  assert (Hj : IZR (k' - k - 1) * b = r - r').
  { rewrite !minus_IZR. lra. }
  assert (Hz : (k' - k - 1 = 0)%Z).
  { assert (H1 : (-1 < k' - k - 1)%Z).
    { apply lt_IZR. destruct (Rlt_dec (-1) (IZR (k' - k - 1))) as [H|H]; [exact H|].
      assert (IZR (k' - k - 1) * b <= -1 * b) by (apply Rmult_le_compat_r; lra).
      lra. }
    assert (H2 : (k' - k - 1 < 1)%Z).
    { apply lt_IZR. destruct (Rlt_dec (IZR (k' - k - 1)) 1) as [H|H]; [exact H|].
      assert (1 * b <= IZR (k' - k - 1) * b) by (apply Rmult_le_compat_r; lra).
      lra. }
    lia. }
  rewrite Hz in Hj. lra.
Qed.

(** X12. In TREE mode the height of a spiral particle is a function of
    the elapsed time alone, and it loops: a frame one flow period
    ([treeHeight / spiralSpeed]) later puts the particle at the same
    height, whatever the two worlds held in the attribute before. *)
Theorem X12_spiral_height_is_periodic (cfg : Config) (f1 f2 : Frame)
  (w1 w2 : World) (i : nat) :
  wf_world cfg w1 -> wf_world cfg w2 ->
  mode (STATE w1) = TREE -> mode (STATE w2) = TREE ->
  (i < spiralCount cfg)%nat ->
  0 < treeHeight cfg -> 0 < spiralSpeed cfg -> 0 <= time f1 ->
  time f2 = time f1 + treeHeight cfg / spiralSpeed cfg ->
  getY (spiralPositions (geometry (animate cfg f2 w2))) i
  = getY (spiralPositions (geometry (animate cfg f1 w1))) i.
Proof.
  intros Hwf1 Hwf2 Hm1 Hm2 Hi HH Hs Ht Hf.
  destruct (animate_spiral_particle cfg f1 w1 i Hwf1 Hi) as (_ & -> & _).
  destruct (animate_spiral_particle cfg f2 w2 i Hwf2 Hi) as (_ & -> & _).
  rewrite Hm1, Hm2. unfold spiralPoint. cbn [fst snd].
  assert (Hrem : rem (time f2 * spiralSpeed cfg) (treeHeight cfg)
                 = rem (time f1 * spiralSpeed cfg) (treeHeight cfg)).
  { rewrite Hf.
    replace ((time f1 + treeHeight cfg / spiralSpeed cfg) * spiralSpeed cfg)
      with (time f1 * spiralSpeed cfg + treeHeight cfg) by (field; lra).
    apply rem_add_period; [nra|exact HH]. }
  now rewrite Hrem.
Qed.

Lemma X12_spiral_height_is_periodic_witness :
  getY (spiralPositions
          (geometry (animate CONFIG
                       {| time := 1 + 6 / 0.8; now := 8500; currentTime := 0;
                          playPermitted := true |} pageLoaded))) 9
  = getY (spiralPositions (geometry (animate CONFIG frame0 pageLoaded))) 9.
Proof.
  apply (X12_spiral_height_is_periodic CONFIG frame0
           {| time := 1 + 6 / 0.8; now := 8500; currentTime := 0;
              playPermitted := true |} pageLoaded pageLoaded 9
           pageLoaded_wf pageLoaded_wf eq_refl eq_refl).
  - cbn. lia.
  - cbn. lra.
  - cbn. lra.
  - cbn. lra.
  - reflexivity.
Defined.

(** The mode at the end of a callback on an open hand. *)
Lemma onHandsResults_mode_open (permitted : bool) (results : Results)
  (landmarks : list Landmark.t) (rest : list (list Landmark.t))
  (avgDist pinchDist : R) (w : World) :
  multiHandLandmarks results = Some (landmarks :: rest) ->
  avgDistOf landmarks = Some avgDist ->
  pinchDistOf landmarks = Some pinchDist ->
  avgDist > 0.35 ->
  mode (STATE (world_of (onHandsResults permitted results w))) = SCATTER.
Proof.
  intros Hr Ha Hp Hz.
  destruct (onHandsResults_hand permitted results landmarks rest avgDist
              pinchDist w Hr Ha Hp) as (wrist & _ & Heq).
  rewrite Heq. cbn [world_of]. rewrite detectPinch_mode. cbn.
  now rewrite classify_open.
Qed.

(** X13. Scattered, the spiral band stays inside the scatter sphere:
    whatever callbacks ran since page load, a frame in SCATTER mode puts
    every spiral particle on a point at distance
    [scatterRadius * cbrt(u)], at most [scatterRadius], from the origin,
    where [u] in [[0, 1)] is the first draw of the particle's start-up
    iteration. *)
Theorem X13_scattered_spiral_in_ball (cfg : Config) (random : nat -> R)
  (starBase starScatter : list R) (video : VideoEl) (volume0 t0 : R)
  (es : list Event) (f : Frame) (i : nat) :
  0 <= scatterRadius cfg ->
  (forall k, 0 <= random k < 1) ->
  (i < spiralCount cfg)%nat ->
  let w0 := initialWorld cfg random starBase starScatter video volume0 t0 in
  let w := run cfg es w0 in
  mode (STATE w) = SCATTER ->
  let p' := spiralPositions (geometry (animate cfg f w)) in
  let u := random (particleCount cfg * 6 + i * 3)%nat in
  Vector3.distanceTo (Vector3.mk (getX p' i) (getY p' i) (getZ p' i))
    (Vector3.mk 0 0 0) = scatterRadius cfg * cbrt u /\
  scatterRadius cfg * cbrt u <= scatterRadius cfg.
Proof.
  intros HR Hrand Hi w0 w Hm p' u.
  assert (Hwf : wf_world cfg w) by (apply run_wf, initialWorld_wf).
  destruct (animate_spiral_particle cfg f w i Hwf Hi) as (HX & HY & HZ).
  cbn zeta in HX, HY, HZ. fold p' in HX, HY, HZ.
  rewrite Hm in HX, HY, HZ. unfold spiralPoint in HX, HY, HZ.
  cbn [fst snd] in HX, HY, HZ.
  assert (HT : tables w = tables w0) by apply run_tables.
  rewrite HT in HX, HY, HZ.
  destruct (initSpiral_entries cfg random
              (cloud_draws (initParticles cfg random (particleCount cfg)))
              (spiralCount cfg) i Hi) as (_ & _ & _ & EX & EY & EZ).
  cbn zeta in EX, EY, EZ. unfold getX, getY, getZ in EX, EY, EZ.
  destruct (initParticles_shape cfg random (particleCount cfg)) as (Hd & _).
  cbn zeta in Hd.
  unfold w0, initialWorld in HX, HY, HZ.
  cbn [tables spiralScatterCoords] in HX, HY, HZ.
  rewrite EX in HX. rewrite EY in HY. rewrite EZ in HZ.
  rewrite Hd in HX, HY, HZ. fold u in HX, HY, HZ.
  destruct (cbrt_unit_range u (Hrand _)) as [Hc0 Hc1].
  rewrite HX, HY, HZ.
  split; [apply scatterPoint_radius; nra|nra].
Qed.

Lemma X13_scattered_spiral_in_ball_witness :
  scatterRadius CONFIG * cbrt (sampleRandom (particleCount CONFIG * 6 + 4 * 3))
  <= scatterRadius CONFIG.
Proof.
  destruct (X13_scattered_spiral_in_ball CONFIG sampleRandom
              (replicate (STAR_PARTICLE_COUNT * 3) 0)
              (replicate (STAR_PARTICLE_COUNT * 3) 0) video0 1 0
              [HandsResults true (oneHand openHand)] frame0 4) as [_ H].
  - cbn. lra.
  - exact sampleRandom_range.
  - cbn. lia.
  - fold pageLoaded.
    exact (onHandsResults_mode_open true (oneHand openHand) openHand [] 0.36
             0.36 pageLoaded eq_refl avgDistOf_openHand pinchDistOf_openHand
             ltac:(lra)).
  - exact H.
Defined.

(** ** The main cloud stays in view *)

Lemma unit_product (s c : R) : -1 <= s <= 1 -> -1 <= c <= 1 -> -1 <= s * c <= 1.
Proof. intros Hs Hc. split; nra. Qed.

(** The tables of the start-up loop are inside the cube of half side
    [scatterRadius] when the tree fits into it. *)
Lemma initialWorld_tables_within (cfg : Config) (random : nat -> R)
  (starBase starScatter : list R) (video : VideoEl) (volume0 t0 : R) :
  0 < treeHeight cfg -> 0 <= treeRadius cfg <= scatterRadius cfg ->
  treeHeight cfg / 2 <= scatterRadius cfg ->
  (forall k, 0 <= random k < 1) ->
  let w := initialWorld cfg random starBase starScatter video volume0 t0 in
  cloudWithin cfg (scatterRadius cfg) (treePositions (tables w)) /\
  cloudWithin cfg (scatterRadius cfg) (scatterPositions (tables w)).
Proof.
  intros HH HR HS Hrand w.
  split; intros i Hi;
    destruct (initParticles_coordinates cfg random (particleCount cfg) i Hi)
      as (SX & SY & SZ & TX & TY & TZ);
    cbn zeta in SX, SY, SZ, TX, TY, TZ;
    subst w; unfold initialWorld;
    cbn [tables treePositions scatterPositions].
  - rewrite TX, TY, TZ. unfold treePoint. cbn [fst snd].
    destruct (Hrand (i * 6)%nat) as [Hu0 Hu1].
    set (u := random (i * 6)%nat) in *.
    replace ((u * treeHeight cfg - treeHeight cfg / 2 + treeHeight cfg / 2)
             / treeHeight cfg) with u by (field; lra).
    set (a := random (i * 6 + 1)%nat * PI * 2
              + (u * treeHeight cfg - treeHeight cfg / 2) * 2).
    pose proof (COS_bound a) as Hc. pose proof (SIN_bound a) as Hs.
    assert (Hr : 0 <= (1 - u) * treeRadius cfg <= treeRadius cfg) by (split; nra).
    set (r := (1 - u) * treeRadius cfg) in *.
    repeat split; nra.
  - rewrite SX, SY, SZ. unfold scatterPoint. cbn [fst snd].
    destruct (cbrt_unit_range _ (Hrand (i * 6 + 2)%nat)) as [Hc0 Hc1].
    set (sr := scatterRadius cfg * cbrt (random (i * 6 + 2)%nat)).
    assert (Hsr : 0 <= sr <= scatterRadius cfg) by (subst sr; split; nra).
    set (phi := acos (2 * random (i * 6 + 4)%nat - 1)).
    set (theta := random (i * 6 + 3)%nat * 2 * PI).
    pose proof (unit_product _ _ (SIN_bound phi) (COS_bound theta)) as H1.
    pose proof (unit_product _ _ (SIN_bound phi) (SIN_bound theta)) as H2.
    pose proof (COS_bound phi) as H3.
    rewrite !Rmult_assoc.
    repeat split; nra.
Qed.

(** A frame keeps the cloud within the cube, enlarged by the amplitude
    of the floating noise. *)
Lemma animate_cloudWithin (cfg : Config) (f : Frame) (w : World) (b : R) :
  wf_world cfg w -> 0 <= lerpSpeed cfg <= 1 -> 0 <= b ->
  cloudWithin cfg b (treePositions (tables w)) ->
  cloudWithin cfg b (scatterPositions (tables w)) ->
  cloudWithin cfg (b + 0.005) (positions (geometry w)) ->
  cloudWithin cfg (b + 0.005) (positions (geometry (animate cfg f w))).
Proof.
  intros Hwf Hf Hb Htree Hscatter Hpos i Hi.
  destruct (animate_particle cfg f w i Hwf Hi) as (-> & -> & ->).
  destruct (Htree i Hi) as (TX & TY & TZ).
  destruct (Hscatter i Hi) as (SX & SY & SZ).
  destruct (Hpos i Hi) as (PX & PY & PZ).
  unfold getX, getY, getZ in TX, TY, TZ, SX, SY, SZ.
  unfold particleTarget.
  destruct (mode (STATE w)); cbn [fst snd].
  - refine (conj _ (conj _ _)); apply lerp_between; try done; lra.
  - pose proof (SIN_bound (time f + at_index (scatterPositions (tables w)) (i * 3)))
      as Hs.
    refine (conj _ (conj _ _)); apply lerp_between; try done; try lra; nra.
Qed.

Lemma run_cloudWithin (cfg : Config) (b : R) (es : list Event) :
  forall w : World,
    wf_world cfg w -> 0 <= lerpSpeed cfg <= 1 -> 0 <= b ->
    cloudWithin cfg b (treePositions (tables w)) ->
    cloudWithin cfg b (scatterPositions (tables w)) ->
    cloudWithin cfg (b + 0.005) (positions (geometry w)) ->
    cloudWithin cfg (b + 0.005) (positions (geometry (run cfg es w))).
Proof.
  induction es as [|e es IH]; intros w Hwf Hf Hb Htree Hscatter Hpos; [done|].
  rewrite run_cons.
  pose proof (run_wf cfg [e] w Hwf) as Hwf'.
  change (run cfg [e] w) with (step cfg e w) in Hwf'.
  apply IH; try done; rewrite ?step_tables; try done.
  pose proof (step_geometry cfg e w) as Hg.
  destruct e; try (rewrite Hg; exact Hpos).
  now apply animate_cloudWithin.
Qed.

(** X14. The main cloud never leaves the view volume.  When the tree
    fits into the scatter sphere ([treeRadius] and [treeHeight / 2] at
    most [scatterRadius]), then after any run of callbacks from page load
    every coordinate of every main-cloud particle is within
    [scatterRadius + 0.005] of zero, 0.005 being the amplitude of the
    floating noise of SCATTER mode. *)
Theorem X14_main_cloud_stays_in_view (cfg : Config) (random : nat -> R)
  (starBase starScatter : list R) (video : VideoEl) (volume0 t0 : R)
  (es : list Event) :
  0 < treeHeight cfg -> 0 <= treeRadius cfg <= scatterRadius cfg ->
  treeHeight cfg / 2 <= scatterRadius cfg ->
  0 <= lerpSpeed cfg <= 1 ->
  (forall k, 0 <= random k < 1) ->
  let w0 := initialWorld cfg random starBase starScatter video volume0 t0 in
  cloudWithin cfg (scatterRadius cfg + 0.005)
    (positions (geometry (run cfg es w0))).
Proof.
  intros HH HR HS Hf Hrand w0.
  destruct (initialWorld_tables_within cfg random starBase starScatter video
              volume0 t0 HH HR HS Hrand) as [Htree Hscatter].
  fold w0 in Htree, Hscatter.
  apply run_cloudWithin; try done; [apply initialWorld_wf|lra|].
  intros i Hi. destruct (Htree i Hi) as (TX & TY & TZ).
  subst w0. unfold initialWorld in *.
  cbn [geometry tables positions treePositions] in *.
  destruct (initParticles_shape cfg random (particleCount cfg))
    as (_ & _ & _ & Hp).
  cbn zeta in Hp. rewrite Hp. repeat split; lra.
Qed.

Lemma X14_main_cloud_stays_in_view_witness :
  cloudWithin CONFIG (scatterRadius CONFIG + 0.005)
    (positions
       (geometry
          (run CONFIG
             [HandsResults true (oneHand openHand); AnimationFrame frame0;
              AnimationFrame frameQuarter] pageLoaded))).
Proof.
  apply (X14_main_cloud_stays_in_view CONFIG sampleRandom
           (replicate (STAR_PARTICLE_COUNT * 3) 0)
           (replicate (STAR_PARTICLE_COUNT * 3) 0) video0 1 0).
  - cbn. lra.
  - cbn. lra.
  - cbn. lra.
  - cbn. lra.
  - exact sampleRandom_range.
Defined.

(** ** The star loops *)


Section StarFacts.
Variable cfg : Config.
Variable random : nat -> R.





End StarFacts.






(** ** A hand with missing landmarks *)

Lemma lookup_short {A : Type} (l : list A) (k : nat) :
  (length l <= k)%nat -> l !! k = None.
Proof. apply lookup_ge_None_2. Qed.

Lemma lookup_long {A : Type} (l : list A) (k : nat) :
  (k < length l)%nat -> exists x, l !! k = Some x.
Proof. intros H. now apply lookup_lt_is_Some_2. Qed.

(** The averaged distance exists exactly for a hand of at least 21
    landmarks. *)
Lemma avgDistOf_defined (landmarks : list Landmark.t) :
  ((20 < length landmarks)%nat -> exists a, avgDistOf landmarks = Some a) /\
  ((length landmarks <= 20)%nat -> avgDistOf landmarks = None).
Proof.
  unfold avgDistOf, tips. split.
  - intros H.
    destruct (lookup_long landmarks 0 ltac:(lia)) as [l0 ->].
    destruct (lookup_long landmarks 8 ltac:(lia)) as [l8 E8].
    destruct (lookup_long landmarks 12 ltac:(lia)) as [l12 E12].
    destruct (lookup_long landmarks 16 ltac:(lia)) as [l16 E16].
    destruct (lookup_long landmarks 20 ltac:(lia)) as [l20 E20].
    cbn [foldl]. rewrite E8, E12, E16, E20. eauto.
  - intros H. destruct (landmarks !! 0%nat); [|done].
    cbn [foldl]. rewrite (lookup_short landmarks 20 H).
    destruct (landmarks !! 8%nat); [|done].
    destruct (landmarks !! 12%nat); [|done].
    now destruct (landmarks !! 16%nat).
Qed.

Lemma pinchDistOf_defined (landmarks : list Landmark.t) :
  (20 < length landmarks)%nat -> exists p, pinchDistOf landmarks = Some p.
Proof.
  intros H. unfold pinchDistOf.
  destruct (lookup_long landmarks 4 ltac:(lia)) as [l4 ->].
  destruct (lookup_long landmarks 8 ltac:(lia)) as [l8 ->]. eauto.
Qed.

(** X17. The gesture callback returns normally on a hand of at least 21
    landmarks.  On a shorter landmark array it throws before any gesture is
    classified: mode, gesture, the playing flag and the video are as before,
    no call was made, but [handDetected] is already true, and [handX]
    already follows the wrist when the array has one. *)
Theorem X17_short_hand_throws (permitted : bool) (results : Results)
  (landmarks : list Landmark.t) (rest : list (list Landmark.t)) (w : World) :
  multiHandLandmarks results = Some (landmarks :: rest) ->
  ((20 < length landmarks)%nat ->
   exists w', onHandsResults permitted results w = Returned w') /\
  ((length landmarks <= 20)%nat ->
   exists w',
     onHandsResults permitted results w = Threw w' /\
     handDetected (STATE w') = true /\
     mode (STATE w') = mode (STATE w) /\
     gesture (STATE w') = gesture (STATE w) /\
     isPlayingVideo (STATE w') = isPlayingVideo (STATE w) /\
     videoEl w' = videoEl w /\ calls w' = calls w /\
     handX (STATE w')
     = match landmarks !! 0%nat with
       | Some wrist => (Landmark.x wrist - 0.5) * 2
       | None => handX (STATE w)
       end).
Proof.
  intros Hr. unfold onHandsResults. rewrite Hr.
  destruct (avgDistOf_defined landmarks) as [Hlong Hshort].
  split; intros Hlen.
  - destruct (Hlong Hlen) as [a Ha].
    destruct (pinchDistOf_defined landmarks Hlen) as [p Hp].
    destruct (lookup_long landmarks 0 ltac:(lia)) as [l0 E0].
    rewrite E0, Ha, Hp. eauto.
  - rewrite (Hshort Hlen).
    destruct (landmarks !! 0%nat) as [wrist|]; eexists; repeat split.
Qed.

Lemma X17_short_hand_throws_witness :
  exists w',
    onHandsResults true (oneHand (take 9 openHand)) scatterShown = Threw w' /\
    mode (STATE w') = SCATTER.
Proof.
  destruct (X17_short_hand_throws true (oneHand (take 9 openHand))
              (take 9 openHand) [] scatterShown eq_refl) as [_ H].
  destruct H as (w' & Heq & _ & Hm & _); [cbn; lia|].
  exists w'. split; [exact Heq|]. rewrite Hm. reflexivity.
Defined.

(** ** The overlay click and the muting of the video *)

Lemma detectStall_started (f : Frame) (w : World) :
  started (detectStall f w) = started w.
Proof.
  unfold detectStall.
  destruct (negb (paused (videoEl w))); [|done].
  destruct (gt_num _ 0.03); [done|]. now destruct (gt_num _ 750).
Qed.

Lemma modeEdge_started (permitted : bool) (w : World) :
  started (modeEdge permitted w) = started w.
Proof.
  unfold modeEdge. destruct (Mode_eqb _ _); [done|].
  destruct (mode (STATE w)) eqn:Hm; cbn; rewrite ?Hm; cbn; [|done].
  unfold leaveScatter. now destruct (negb (paused (videoEl w))).
Qed.

Lemma stopVideoInTree_started (w : World) :
  started (stopVideoInTree w) = started w.
Proof.
  unfold stopVideoInTree. destruct (mode (STATE w)); [|done].
  now destruct (isPlayingVideo (STATE w)).
Qed.

Lemma animate_started (cfg : Config) (f : Frame) (w : World) :
  started (animate cfg f w) = started w.
Proof.
  assert (H1 : forall x, started (updateGeometry cfg f x) = started x) by done.
  assert (H2 : forall x, started (updateRotation x) = started x) by done.
  assert (H3 : forall x, started (movePlane x) = started x) by done.
  assert (H4 : forall x, started (blendScene cfg x) = started x) by done.
  unfold animate.
  now rewrite H1, H2, detectStall_started, H3, modeEdge_started, H4,
    stopVideoInTree_started.
Qed.

Lemma onHandsResults_interaction (permitted : bool) (results : Results)
  (w : World) :
  started (world_of (onHandsResults permitted results w)) = started w /\
  userInteracted (world_of (onHandsResults permitted results w))
  = userInteracted w.
Proof.
  unfold onHandsResults.
  destruct (multiHandLandmarks results) as [[|landmarks rest]|]; try done.
  destruct (landmarks !! 0%nat) as [wrist|]; [|done].
  destruct (avgDistOf landmarks) as [a|]; [|done].
  destruct (pinchDistOf landmarks) as [p|]; [|done].
  cbn [world_of]. unfold detectPinch.
  destruct (lt_num p 0.05); [|done]. cbn.
  destruct (mode (classifyOpenClosed a _)); [done|].
  destruct (gt_num _ 0.8); [|done].
  now destruct (negb (isPlayingVideo _)).
Qed.

(** The two interaction flags move together, and only the click raises
    them. *)
Lemma step_interaction (cfg : Config) (e : Event) (w : World) :
  started w = userInteracted w ->
  started (step cfg e w) = userInteracted (step cfg e w) /\
  userInteracted (step cfg e w)
  = match e with
    | OverlayClick => true
    | _ => userInteracted w
    end.
Proof.
  intros Hinv. destruct e; cbn [step].
  - destruct (onHandsResults_interaction permitted results w) as [-> ->]. done.
  - rewrite animate_started.
    destruct (animate_control cfg f w) as (_ & _ & _ & _ & _ & Hu & _).
    rewrite Hu.
    assert (userInteracted
              (modeEdge (playPermitted f) (blendScene cfg (stopVideoInTree w)))
            = userInteracted w) as -> by (control_cases w; reflexivity).
    done.
  - unfold overlayClick. destruct (started w) eqn:Hs; cbn; [|done].
    now rewrite <- Hinv.
  - done.
  - unfold playFulfilled. now destruct (pendingThen w).
  - done.
  - done.
  - done.
  - done.
  - done.
Qed.

Lemma run_interaction (cfg : Config) (es : list Event) :
  forall w : World,
    started w = userInteracted w ->
    userInteracted (run cfg es w) = userInteracted w || clicked es.
Proof.
  induction es as [|e es IH]; intros w Hinv.
  - cbn. now rewrite orb_false_r.
  - rewrite run_cons. destruct (step_interaction cfg e w Hinv) as [Hinv' He].
    rewrite (IH _ Hinv'), He.
    destruct e; cbn [clicked]; try done.
    now rewrite orb_true_r.
Qed.

(** The tick that enters SCATTER mutes the video iff the user has not
    interacted. *)
Lemma animate_enter_muted (cfg : Config) (f : Frame) (w : World) :
  mode (STATE w) = SCATTER -> _prevMode w = TREE ->
  muted (videoEl (animate cfg f w)) = negb (userInteracted w) /\
  calls (animate cfg f w) = calls w ++ [CallPlay].
Proof.
  intros Hm Hp.
  destruct (animate_control cfg f w) as (_ & _ & -> & -> & _).
  control_cases w; cbn in *; done.
Qed.

(** X18. Autoplay is muted until the user has clicked.  In a session
    that started at page load, [userInteracted] is true exactly when the
    overlay was clicked; so the frame that enters SCATTER mode calls
    [play()] on a muted video if no click has happened yet, and on an
    unmuted one after the click, however many callbacks ran in between. *)
Theorem X18_autoplay_muted_until_click (cfg : Config) (random : nat -> R)
  (starBase starScatter : list R) (video : VideoEl) (volume0 t0 : R)
  (es : list Event) (f : Frame) :
  let w0 := initialWorld cfg random starBase starScatter video volume0 t0 in
  let w := run cfg es w0 in
  userInteracted w = clicked es /\
  (mode (STATE w) = SCATTER -> _prevMode w = TREE ->
   muted (videoEl (animate cfg f w)) = negb (clicked es) /\
   calls (animate cfg f w) = calls w ++ [CallPlay]).
Proof.
  cbn zeta.
  pose proof (run_interaction cfg es
                (initialWorld cfg random starBase starScatter video volume0 t0)
                eq_refl) as Hu.
  cbn [userInteracted initialWorld orb] in Hu.
  split; [exact Hu|]. intros Hm Hp.
  destruct (animate_enter_muted cfg f _ Hm Hp) as [-> ->].
  now rewrite Hu.
Qed.

Lemma detectPinch_prevMode (permitted : bool) (p : R) (w : World) :
  _prevMode (detectPinch permitted p w) = _prevMode w.
Proof.
  unfold detectPinch. destruct (lt_num p 0.05); [|done]. cbn.
  destruct (mode (STATE w)); [done|].
  destruct (gt_num _ 0.8); [|done].
  now destruct (negb (isPlayingVideo (STATE w))).
Qed.

(** The gesture callback never touches the recorded mode. *)
Lemma onHandsResults_prevMode (permitted : bool) (results : Results)
  (w : World) :
  _prevMode (world_of (onHandsResults permitted results w)) = _prevMode w.
Proof.
  unfold onHandsResults.
  destruct (multiHandLandmarks results) as [[|landmarks rest]|]; try done.
  destruct (landmarks !! 0%nat) as [wrist|]; [|done].
  destruct (avgDistOf landmarks) as [a|]; [|done].
  destruct (pinchDistOf landmarks) as [p|]; [|done].
  cbn [world_of]. now rewrite detectPinch_prevMode.
Qed.

Lemma X18_autoplay_muted_until_click_witness :
  muted (videoEl
           (animate CONFIG frame0
              (run CONFIG [OverlayClick; HandsResults true (oneHand openHand)]
                 pageLoaded))) = false.
Proof.
  destruct (X18_autoplay_muted_until_click CONFIG sampleRandom
              (replicate (STAR_PARTICLE_COUNT * 3) 0)
              (replicate (STAR_PARTICLE_COUNT * 3) 0) video0 1 0
              [OverlayClick; HandsResults true (oneHand openHand)] frame0)
    as [_ H].
  fold pageLoaded in H. destruct H as [Hm _].
  - exact (onHandsResults_mode_open true (oneHand openHand) openHand [] 0.36
             0.36 (step CONFIG OverlayClick pageLoaded) eq_refl
             avgDistOf_openHand pinchDistOf_openHand ltac:(lra)).
  - exact (onHandsResults_prevMode true (oneHand openHand)
             (step CONFIG OverlayClick pageLoaded)).
  - exact Hm.
Defined.

(** ** The rotation of the main cloud *)

Lemma animate_rotationY (cfg : Config) (f : Frame) (w : World) :
  rotationY (visuals (animate cfg f w))
  = rotationY (visuals w) + turnPerFrame (STATE w).
Proof.
  destruct (animate_scalars cfg f w) as (_ & _ & _ & _ & _ & _ & _ & _ & -> & _).
  unfold turnPerFrame, lerp. destruct (handDetected (STATE w)); lra.
Qed.

Lemma animate_turnPerFrame (cfg : Config) (f : Frame) (w : World) :
  turnPerFrame (STATE (animate cfg f w)) = turnPerFrame (STATE w).
Proof.
  unfold turnPerFrame.
  destruct (animate_hand_fields cfg f w) as (_ & -> & -> & _). done.
Qed.

Lemma ticks_rotationY (cfg : Config) (frames : list Frame) :
  forall w : World,
    rotationY (visuals (run cfg (ticks frames) w))
    = rotationY (visuals w) + INR (length frames) * turnPerFrame (STATE w).
Proof.
  induction frames as [|f frames IH]; intros w.
  - cbn. lra.
  - rewrite run_ticks_cons, IH, animate_rotationY, animate_turnPerFrame.
    change (length (f :: frames)) with (S (length frames)).
    rewrite S_INR. lra.
Qed.

(** X19. The main cloud turns at a constant rate between gesture
    callbacks: over [n] consecutive frames its yaw grows by [n * 0.002]
    while no hand is detected, and by [n * handX * 0.005] while one is. *)
Theorem X19_rotation_is_linear (cfg : Config) (frames : list Frame) (w : World) :
  let r := rotationY (visuals w) in
  let r' := rotationY (visuals (run cfg (ticks frames) w)) in
  (handDetected (STATE w) = false -> r' = r + INR (length frames) * 0.002) /\
  (handDetected (STATE w) = true ->
   r' = r + INR (length frames) * (handX (STATE w) * 0.005)).
Proof.
  cbn zeta. rewrite ticks_rotationY. unfold turnPerFrame.
  split; intros ->; reflexivity.
Qed.

Lemma X19_rotation_is_linear_witness :
  rotationY (visuals (run CONFIG (ticks [frame0; frameQuarter; frame0])
                        pageLoaded))
  = rotationY (visuals pageLoaded) + INR 3 * 0.002.
Proof.
  destruct (X19_rotation_is_linear CONFIG [frame0; frameQuarter; frame0]
              pageLoaded) as [H _].
  exact (H eq_refl).
Defined.

(** X20. A detected hand steers the cloud.  After a callback on a hand of
    21 landmarks whose wrist is at abscissa [x] in [[0, 1]], [handX] is
    [(x - 0.5) * 2], in [[-1, 1]], and the next frame turns the main cloud
    by [(x - 0.5) * 0.01]: at most 0.005 either way, not at all for a
    centred hand, and in the direction of the hand's side. *)
Theorem X20_hand_steers_rotation (cfg : Config) (permitted : bool)
  (results : Results) (landmarks : list Landmark.t)
  (rest : list (list Landmark.t)) (wrist : Landmark.t) (f : Frame) (w : World) :
  multiHandLandmarks results = Some (landmarks :: rest) ->
  (20 < length landmarks)%nat ->
  landmarks !! 0%nat = Some wrist ->
  0 <= Landmark.x wrist <= 1 ->
  let w1 := world_of (onHandsResults permitted results w) in
  handDetected (STATE w1) = true /\
  handX (STATE w1) = (Landmark.x wrist - 0.5) * 2 /\
  -1 <= handX (STATE w1) <= 1 /\
  rotationY (visuals (animate cfg f w1))
  = rotationY (visuals w) + (Landmark.x wrist - 0.5) * 0.01 /\
  Rabs (rotationY (visuals (animate cfg f w1)) - rotationY (visuals w))
  <= 0.005.
Proof.
  intros Hr Hlen Hw Hx. cbn zeta.
  destruct (avgDistOf_defined landmarks) as [Hlong _].
  destruct (Hlong Hlen) as [a Ha].
  destruct (pinchDistOf_defined landmarks Hlen) as [p Hp].
  destruct (onHandsResults_hand permitted results landmarks rest a p w Hr Ha Hp)
    as (wrist' & Hw' & Heq).
  rewrite Hw in Hw'. injection Hw' as <-.
  assert (Hv : visuals (world_of (onHandsResults permitted results w))
               = visuals w) by apply onHandsResults_visuals.
  rewrite animate_rotationY, Hv. rewrite Heq. cbn [world_of].
  set (w3 := with_STATE _ w).
  assert (Hd : handDetected (STATE (detectPinch permitted p w3)) = true /\
               handX (STATE (detectPinch permitted p w3))
               = (Landmark.x wrist - 0.5) * 2).
  { unfold detectPinch. destruct (lt_num p 0.05).
    - cbn. subst w3. cbn.
      assert (Hc : forall s, handDetected (classifyOpenClosed a s) = handDetected s
                             /\ handX (classifyOpenClosed a s) = handX s).
      { intros s. unfold classifyOpenClosed.
        destruct (lt_num a 0.25); [done|]. now destruct (gt_num a 0.35). }
      destruct (mode (classifyOpenClosed a _)); cbn.
      + apply Hc.
      + destruct (gt_num _ 0.8); cbn; [|apply Hc].
        destruct (negb (isPlayingVideo _)); cbn; apply Hc.
    - subst w3. cbn. unfold classifyOpenClosed.
      destruct (lt_num a 0.25); [done|]. now destruct (gt_num a 0.35). }
  destruct Hd as [Hd Hh]. unfold turnPerFrame. rewrite Hd, Hh.
  split; [done|]. split; [done|]. split; [lra|]. split; [lra|].
  apply Rabs_le. lra.
Qed.

Lemma X20_hand_steers_rotation_witness :
  handX (STATE (world_of (onHandsResults true (oneHand openHand) pageLoaded)))
  = (0.5 - 0.5) * 2.
Proof.
  destruct (X20_hand_steers_rotation CONFIG true (oneHand openHand) openHand []
              (Landmark.mk 0.5 0.5 0) frame0 pageLoaded eq_refl)
    as (_ & H & _).
  - cbn. lia.
  - reflexivity.
  - cbn. lra.
  - exact H.
Defined.

(** ** Late media callbacks, and the gesture tag *)

(** A frame in TREE mode that finds the flag up pauses the video. *)
Lemma animate_tree_stops (cfg : Config) (f : Frame) (w : World) :
  mode (STATE w) = TREE -> isPlayingVideo (STATE w) = true ->
  isPlayingVideo (STATE (animate cfg f w)) = false /\
  paused (videoEl (animate cfg f w)) = true /\
  calls (animate cfg f w) = calls w ++ [CallPause].
Proof.
  intros Hm Hp.
  destruct (animate_control cfg f w) as (-> & _ & -> & -> & _).
  control_cases w; cbn in *; done.
Qed.

(** X21. A playback that starts after the user has gone back to TREE
    mode is stopped at once.  In TREE mode, the then-callback of a pending
    play promise and the [playing] listener both raise [isPlayingVideo];
    the next frame then lowers it again and pauses the video with exactly
    one [pause()] call. *)
Theorem X21_late_playback_is_stopped (cfg : Config) (f : Frame) (w : World) :
  mode (STATE w) = TREE ->
  (0 < pendingThen w)%nat ->
  let stopped (w1 : World) :=
    isPlayingVideo (STATE w1) = true /\
    isPlayingVideo (STATE (animate cfg f w1)) = false /\
    paused (videoEl (animate cfg f w1)) = true /\
    calls (animate cfg f w1) = calls w ++ [CallPause] in
  stopped (step cfg PlayFulfilled w) /\ stopped (step cfg VideoPlaying w).
Proof.
  intros Hm Hp. cbn zeta. cbn [step]. split.
  - unfold playFulfilled. destruct (pendingThen w) as [|n]; [lia|].
    split; [done|].
    match goal with
    | |- context [animate cfg f ?w1] =>
        destruct (animate_tree_stops cfg f w1) as (H1 & H2 & H3); try done
    end.
  - unfold onPlaying. split; [done|].
    match goal with
    | |- context [animate cfg f ?w1] =>
        destruct (animate_tree_stops cfg f w1) as (H1 & H2 & H3); try done
    end.
Qed.

Lemma X21_late_playback_is_stopped_witness :
  paused (videoEl
            (animate CONFIG frame0
               (step CONFIG PlayFulfilled (with_pendingThen 1 pageLoaded))))
  = true.
Proof.
  destruct (X21_late_playback_is_stopped CONFIG frame0
              (with_pendingThen 1 pageLoaded) eq_refl) as [H _].
  - cbn. lia.
  - destruct H as (_ & _ & H & _). exact H.
Defined.

Lemma classify_gesture (a : R) (s : State) :
  gesture (classifyOpenClosed a s) = gesture s \/
  gesture (classifyOpenClosed a s) <> NONE.
Proof.
  unfold classifyOpenClosed.
  destruct (lt_num a 0.25); [now right|].
  destruct (gt_num a 0.35); [now right|now left].
Qed.

Lemma detectPinch_gesture_kept (permitted : bool) (p : R) (w : World) :
  gesture (STATE (detectPinch permitted p w)) = gesture (STATE w) \/
  gesture (STATE (detectPinch permitted p w)) <> NONE.
Proof.
  unfold detectPinch. destruct (lt_num p 0.05); [|now left]. right. cbn.
  destruct (mode (STATE w)); [done|].
  destruct (gt_num _ 0.8); [|done].
  now destruct (negb (isPlayingVideo (STATE w))).
Qed.

Lemma onHandsResults_gesture (permitted : bool) (results : Results) (w : World) :
  gesture (STATE (world_of (onHandsResults permitted results w)))
  = gesture (STATE w) \/
  gesture (STATE (world_of (onHandsResults permitted results w))) <> NONE.
Proof.
  unfold onHandsResults.
  destruct (multiHandLandmarks results) as [[|landmarks rest]|];
    try (left; reflexivity).
  destruct (landmarks !! 0%nat) as [wrist|]; [|left; reflexivity].
  destruct (avgDistOf landmarks) as [a|]; [|left; reflexivity].
  destruct (pinchDistOf landmarks) as [p|]; cbn [world_of].
  - match goal with
    | |- context [detectPinch ?b ?q ?w0] =>
        destruct (detectPinch_gesture_kept b q w0) as [->|H]; [|now right]
    end.
    match goal with
    | |- context [classifyOpenClosed ?x ?s] =>
        destruct (classify_gesture x s) as [H|H]
    end; [left|right]; exact H.
  - match goal with
    | |- context [classifyOpenClosed ?x ?s] =>
        destruct (classify_gesture x s) as [H|H]
    end; [left|right]; exact H.
Qed.

(** X22. The gesture tag never goes back to NONE: once a callback has
    classified a hand as OPEN, CLOSED or PINCH, the tag stays one of the
    three over every later callback, a lost hand included. *)
Theorem X22_gesture_never_returns_to_none (cfg : Config) (es : list Event)
  (w : World) :
  gesture (STATE w) <> NONE -> gesture (STATE (run cfg es w)) <> NONE.
Proof.
  revert w. induction es as [|e es IH]; intros w Hw; [exact Hw|].
  rewrite run_cons. apply IH.
  pose proof (step_hand_fields cfg e w) as Hh.
  destruct e; try (destruct Hh as (_ & -> & _); exact Hw).
  cbn [step].
  destruct (onHandsResults_gesture permitted results w) as [->|H]; done.
Qed.

Lemma X22_gesture_never_returns_to_none_witness :
  gesture (STATE (run CONFIG
                    [HandsResults true {| multiHandLandmarks := None |};
                     AnimationFrame frame0]
                    (with_STATE (set_gesture OPEN STATE0) pageLoaded)))
  <> NONE.
Proof.
  apply (X22_gesture_never_returns_to_none CONFIG
           [HandsResults true {| multiHandLandmarks := None |};
            AnimationFrame frame0]
           (with_STATE (set_gesture OPEN STATE0) pageLoaded)).
  cbn. discriminate.
Defined.

(** ** The stutter watchdog *)

Lemma animate_stall (cfg : Config) (f : Frame) (w : World) :
  stall (animate cfg f w)
  = stall (detectStall f
             (modeEdge (playPermitted f) (blendScene cfg (stopVideoInTree w)))).
Proof.
  assert (H1 : forall x, stall (updateGeometry cfg f x) = stall x) by done.
  assert (H2 : forall x, stall (updateRotation x) = stall x) by done.
  assert (H3 : forall x g, stall (detectStall g (movePlane x))
                           = stall (detectStall g x)).
  { intros x g. unfold detectStall.
    change (videoEl (movePlane x)) with (videoEl x).
    change (stall (movePlane x)) with (stall x).
    destruct (negb (paused (videoEl x))); [|done].
    destruct (gt_num _ 0.03); [done|]. now destruct (gt_num _ 750). }
  unfold animate. now rewrite H1, H2, H3.
Qed.

(** A frame of a running video: the control state stays, and the
    watchdog sees the element unpaused. *)
Lemma animate_running (cfg : Config) (f : Frame) (w : World) :
  videoRunning w ->
  videoRunning (animate cfg f w) /\
  stall (animate cfg f w)
  = (let st := stall w in
     if gt_num (Rabs (currentTime f - _lastVideoTime st)) 0.03 then
       {| _videoBuffering := false; _lastVideoTime := currentTime f;
          _lastVideoTimeUpdate := now f |}
     else if overdue (_lastVideoTimeUpdate st) f then
       {| _videoBuffering := true; _lastVideoTime := _lastVideoTime st;
          _lastVideoTimeUpdate := _lastVideoTimeUpdate st |}
     else st).
Proof.
  intros (Hm & Hp & Hv). unfold videoRunning.
  rewrite animate_stall.
  destruct (animate_control cfg f w) as (-> & -> & -> & _).
  control_cases w; cbn in Hm, Hp, Hv; try discriminate.
  all: split; [done|].
  all: unfold detectStall, overdue; cbn.
  all: destruct stall0 as [[] last since]; cbn.
  all: destruct (gt_num _ 0.03); [done|]; now destruct (gt_num _ 750).
Qed.

Lemma ticks_no_progress (cfg : Config) (frames : list Frame) (w : World) :
  videoRunning w ->
  Forall (noProgress (_lastVideoTime (stall w))) frames ->
  videoRunning (run cfg (ticks frames) w) /\
  _videoBuffering (stall (run cfg (ticks frames) w))
  = _videoBuffering (stall w)
    || existsb (overdue (_lastVideoTimeUpdate (stall w))) frames /\
  _lastVideoTime (stall (run cfg (ticks frames) w))
  = _lastVideoTime (stall w) /\
  _lastVideoTimeUpdate (stall (run cfg (ticks frames) w))
  = _lastVideoTimeUpdate (stall w).
Proof.
  revert w. induction frames as [|f frames IH]; intros w Hw Hall.
  - cbn. now rewrite orb_false_r.
  - rewrite run_ticks_cons.
    apply Forall_cons in Hall as [Hf Hall].
    destruct (animate_running cfg f w Hw) as (Hw' & Hs).
    cbn zeta in Hs.
    assert (Hg : gt_num (Rabs (currentTime f - _lastVideoTime (stall w))) 0.03
                 = false) by (apply gt_num_false; exact Hf).
    rewrite Hg in Hs.
    assert (Hl : _lastVideoTime (stall (animate cfg f w))
                 = _lastVideoTime (stall w)
                 /\ _lastVideoTimeUpdate (stall (animate cfg f w))
                    = _lastVideoTimeUpdate (stall w)
                 /\ _videoBuffering (stall (animate cfg f w))
                    = _videoBuffering (stall w)
                      || overdue (_lastVideoTimeUpdate (stall w)) f).
    { rewrite Hs. clear. destruct (overdue _ f); cbn.
      - rewrite orb_true_r. repeat split.
      - rewrite orb_false_r. repeat split. }
    destruct Hl as (Hl1 & Hl2 & Hl3).
    destruct (IH (animate cfg f w) Hw') as (Hr & Hb & Ht & Hu).
    { now rewrite Hl1. }
    split; [exact Hr|].
    rewrite Hb, Ht, Hu, Hl1, Hl2, Hl3. cbn [existsb]. clear.
    rewrite orb_assoc. repeat split.
Qed.

(** X23. The stutter watchdog of a running video.  With the video
    unpaused in SCATTER mode, over frames that all read a playback position
    within 0.03 s of the last recorded one, the loading indicator is on
    afterwards exactly if it was on before or one of the frames came more
    than 750 ms after the last recorded progress: the delay is measured
    from that progress, not from the previous frame, and the indicator
    latches.  The record of position and time stands still meanwhile, and
    the first frame that reads a position more than 0.03 s away clears the
    indicator and records that position and the frame's time. *)
Theorem X23_stutter_watchdog (cfg : Config) (frames : list Frame) (w : World) :
  videoRunning w ->
  Forall (noProgress (_lastVideoTime (stall w))) frames ->
  let w' := run cfg (ticks frames) w in
  _videoBuffering (stall w')
  = _videoBuffering (stall w)
    || existsb (overdue (_lastVideoTimeUpdate (stall w))) frames /\
  _lastVideoTime (stall w') = _lastVideoTime (stall w) /\
  _lastVideoTimeUpdate (stall w') = _lastVideoTimeUpdate (stall w) /\
  forall f : Frame,
    ~ noProgress (_lastVideoTime (stall w)) f ->
    stall (animate cfg f w')
    = {| _videoBuffering := false; _lastVideoTime := currentTime f;
         _lastVideoTimeUpdate := now f |}.
Proof.
  intros Hw Hall w'.
  destruct (ticks_no_progress cfg frames w Hw Hall) as (Hr & Hb & Ht & Hu).
  fold w' in Hr, Hb, Ht, Hu.
  refine (conj Hb (conj Ht (conj Hu _))).
  intros f Hf.
  destruct (animate_running cfg f w' Hr) as (_ & ->). cbn zeta.
  rewrite Ht.
  assert (Hg : gt_num (Rabs (currentTime f - _lastVideoTime (stall w))) 0.03
               = true).
  { apply gt_num_true. unfold noProgress in Hf. lra. }
  now rewrite Hg.
Qed.

Lemma X23_stutter_watchdog_witness :
  let w := with_video {| paused := false; muted := true; volume := 1 |} []
             scatterShown in
  _lastVideoTime (stall (run CONFIG (ticks [frame0]) w))
  = _lastVideoTime (stall w).
Proof.
  intros w.
  destruct (X23_stutter_watchdog CONFIG [frame0] w) as (_ & H & _).
  - repeat split.
  - apply Forall_cons. split; [|apply Forall_nil; exact I].
    unfold noProgress.
    replace (currentTime frame0 - _lastVideoTime (stall w)) with 0
      by (cbn; lra).
    rewrite Rabs_R0. lra.
  - exact H.
Defined.
